(** * Ross Applied AI Consulting backend: a shallow embedding of server code

    The embedded program is the Express server of the repository: the
    per-identifier rate limiter of [/api/chat], the time window parser
    [parseWindow], the walkthrough handler with its deterministic
    [buildFallbackReport] and its notification dispatch, the mail call
    [sendResendEmail], the availability broker of [/api/schedule] and the
    booking confirmer of [/api/schedule/confirm].  The repository holds three
    versions of the server; the [/api/chat] handler is the same in all of
    them, and the other handlers are taken from the version that has the
    walkthrough and the slot suggestions.

    Conventions of the embedding.
    - A JavaScript string is the list of its UTF-16 code units, each an [N].
    - [Date.now()] and the other instants are integers ([Z], milliseconds).
    - What a handler obtains from the outside world (the completion API,
      the mail provider, the calendar provider, the clock) is an explicit
      argument of its model; what it sends is recorded in a trace.
    - Built-ins whose tables are not part of the repository
      ([String.prototype.toLowerCase], [JSON.parse],
      [Number.prototype.toString], the messages of the engine's
      [TypeError]s, [Date] parsing, [Intl.DateTimeFormat]) are Section
      variables.
    - The answers of a walkthrough request and the value the model's
      text parses to are JSON values of any shape, and what the handler
      throws on them is part of its model.  The fields of the other
      request bodies and of the provider replies have the shapes the
      endpoints document: they are strings when present.  A JavaScript
      number that only counts (the rate-limit count) is a [Z]. *)

From Stdlib Require Import ZArith NArith List String Ascii Bool Lia PrimFloat.
From stdpp Require Import base option list gmap.
Import ListNotations.

Set Default Proof Using "Type".
Set Warnings "-register-all".

(** ** JavaScript strings *)

Abbreviation jsstring := (list N).

(** A string literal of the source, as code units. *)
Definition js (s : string) : jsstring :=
  map N_of_ascii (list_ascii_of_string s).

(** A string is truthy exactly when it is not empty; [!s] is the
    negation. *)
Definition truthy (s : jsstring) : bool :=
  match s with [] => false | _ :: _ => true end.

(** [a || b] on strings. *)
Definition or_else (a b : jsstring) : jsstring :=
  if truthy a then a else b.

(** A property that may be absent ([undefined]) read through
    [String(x || "")]. *)
Definition str_or_empty (x : option jsstring) : jsstring :=
  match x with Some s => s | None => [] end.

(** [\d] of a regular expression without the unicode flag. *)
Definition is_digit (c : N) : bool := ((48 <=? c) && (c <=? 57))%N.

(** [\s]: the WhiteSpace and LineTerminator code points of ECMAScript,
    which are also what [String.prototype.trim] strips. *)
Definition is_space (c : N) : bool :=
  ((9 <=? c) && (c <=? 13) || (c =? 32) || (c =? 160) || (c =? 5760)
   || (8192 <=? c) && (c <=? 8202) || (c =? 8232) || (c =? 8233)
   || (c =? 8239) || (c =? 8287) || (c =? 12288) || (c =? 65279))%N.

Definition is_char (k : N) (c : N) : bool := (c =? k)%N.

Definition hyphen : N := 45%N.

(** Length of the longest prefix of [s] whose code units satisfy [p]. *)
Fixpoint span (p : N -> bool) (s : jsstring) : nat :=
  match s with
  | c :: t => if p c then S (span p t) else 0
  | [] => 0
  end.

Fixpoint drop_while (p : N -> bool) (s : jsstring) : jsstring :=
  match s with
  | c :: t => if p c then drop_while p t else s
  | [] => []
  end.

(** [String.prototype.trim]. *)
Definition trim (s : jsstring) : jsstring :=
  rev (drop_while is_space (rev (drop_while is_space s))).

Fixpoint starts_with (key s : jsstring) : bool :=
  match key, s with
  | [], _ => true
  | k :: key', c :: s' => (k =? c)%N && starts_with key' s'
  | _ :: _, [] => false
  end.

(** [String.prototype.includes]. *)
Fixpoint includes (s key : jsstring) : bool :=
  starts_with key s ||
  match s with
  | [] => false
  | _ :: t => includes t key
  end.

Definition str_eqb (a b : jsstring) : bool := bool_decide (a = b).

(** ** Regular expressions

    The patterns of the source use character classes, greedy bounded
    and unbounded repetition of a class, concatenation and capture
    groups.  [runs r s] lists the ways [r] matches a prefix of [s], in
    the order in which a backtracking matcher tries them (greedy
    repetitions try the longest run first); each is the matched text, the
    unread rest and the captures. *)

Inductive regex : Type :=
| Cls (p : N -> bool)
| Rep (p : N -> bool) (lo : nat) (hi : option nat)
| Cat (r1 r2 : regex)
| Grp (r : regex).

Definition rep_top (p : N -> bool) (hi : option nat) (s : jsstring) : nat :=
  match hi with
  | Some h => Nat.min h (span p s)
  | None => span p s
  end.

Fixpoint runs (r : regex) (s : jsstring)
  : list (jsstring * jsstring * list jsstring) :=
  match r with
  | Cls p =>
      match s with
      | c :: t => if p c then [([c], t, [])] else []
      | [] => []
      end
  | Rep p lo hi =>
      map (fun n => (take n s, drop n s, []))
          (rev (seq lo (S (rep_top p hi s) - lo)))
  | Cat r1 r2 =>
      flat_map
        (fun '(m1, s1, g1) =>
           map (fun '(m2, s2, g2) => (m1 ++ m2, s2, g1 ++ g2)) (runs r2 s1))
        (runs r1 s)
  | Grp r' => map (fun '(m, s', g) => (m, s', m :: g)) (runs r' s)
  end.

(** [RegExp.prototype.exec] / [String.prototype.match] for a pattern
    without flags: the first start position with a match, and there the
    first match in backtracking order.  The result is [match[0]] and the
    captures [match[1..]]. *)
Fixpoint regex_exec (r : regex) (s : jsstring)
  : option (jsstring * list jsstring) :=
  match head (runs r s) with
  | Some (m, _, g) => Some (m, g)
  | None =>
      match s with
      | [] => None
      | _ :: t => regex_exec r t
      end
  end.

(** [RegExp.prototype.test]. *)
Definition regex_test (r : regex) (s : jsstring) : bool :=
  match regex_exec r s with Some _ => true | None => false end.

(** ** Time window parser *)

Record TimeWindow : Type := { w_start : Z; w_end : Z }.

(** [/(\d{1,2})\s*-\s*(\d{1,2})/] *)
Definition window_re : regex :=
  Cat (Grp (Rep is_digit 1 (Some 2)))
      (Cat (Rep is_space 0 None)
           (Cat (Cls (is_char hyphen))
                (Cat (Rep is_space 0 None)
                     (Grp (Rep is_digit 1 (Some 2)))))).

Definition digit_value (c : N) : Z := Z.of_N c - 48.

(** [Number(t)] for a text made of decimal digits, which is what the
    pattern captures: its decimal value (0 for the empty text).  On any
    other text the model answers [None], which stands for [NaN]. *)
Definition Number (t : jsstring) : option Z :=
  if forallb is_digit t
  then Some (fold_left (fun acc c => 10 * acc + digit_value c) t 0)%Z
  else None.

Definition parseWindow (input : jsstring) : option TimeWindow :=
  if negb (truthy input) then None else
  match regex_exec window_re input with
  | Some (_, [g1; g2]) =>
      match Number g1, Number g2 with
      | Some start, Some end0 =>
          let end1 :=
            if (end0 <=? start)%Z && (start <? 12)%Z then (end0 + 12)%Z
            else end0 in
          if (start <? 0)%Z || (start >? 23)%Z || (end1 <? 1)%Z
             || (end1 >? 24)%Z
          then None
          else Some {| w_start := start; w_end := end1 |}
      | _, _ => None
      end
  | _ => None
  end.

(** ** JSON values and responses *)

Inductive json : Type :=
| JNull
| JBool (b : bool)
| JNum (x : float)
| JStr (s : jsstring)
| JArr (items : list json)
| JObj (fields : list (jsstring * json)).

(** Property read [o[k]] on an object; [None] is [undefined]. *)
Fixpoint obj_get (k : jsstring) (fields : list (jsstring * json))
  : option json :=
  match fields with
  | [] => None
  | (k', v) :: rest => if str_eqb k' k then Some v else obj_get k rest
  end.

(** Property write: an existing key keeps its place and takes the new
    value, a new key goes last. *)
Fixpoint obj_set (k : jsstring) (v : json) (fields : list (jsstring * json))
  : list (jsstring * json) :=
  match fields with
  | [] => [(k, v)]
  | (k', v') :: rest =>
      if str_eqb k' k then (k, v) :: rest else (k', v') :: obj_set k v rest
  end.

Definition get (k : jsstring) (o : json) : option json :=
  match o with
  | JObj fields => obj_get k fields
  | _ => None
  end.

(** Decimal text of a natural number (array indices as property keys). *)
Fixpoint decimal_fuel (fuel n : nat) (acc : jsstring) : jsstring :=
  match fuel with
  | O => acc
  | S fuel' =>
      let acc' := N.of_nat (48 + n mod 10) :: acc in
      if (n <? 10)%nat then acc' else decimal_fuel fuel' (n / 10) acc'
  end.

Definition decimal (n : nat) : jsstring := decimal_fuel (S n) n [].

(** The own enumerable properties copied by [{...v}]. *)
Definition spread (v : json) : list (jsstring * json) :=
  match v with
  | JObj fields => fields
  | JArr items => imap (fun i x => (decimal i, x)) items
  | _ => []
  end.

(** [!v || typeof v !== "object"] is false: [v] is an object or an array. *)
Definition is_object (v : json) : bool :=
  match v with
  | JObj _ | JArr _ => true
  | _ => false
  end.

Record Response : Type := { status : Z; body : json }.

(** [res.status(code).json({ error: msg })] *)
Definition error_response (code : Z) (msg : string) : Response :=
  {| status := code; body := JObj [(js "error", JStr (js msg))] |}.

(** [e?.message || fallback] for a caught value [e]. *)
Definition message_or (msg : option jsstring) (fallback : string) : jsstring :=
  or_else (str_or_empty msg) (js fallback).

(** ** Rate limiter and chat endpoint *)

Record RateLimitEntry : Type := { count : Z; resetAt : Z }.

Definition RATE_LIMIT_WINDOW_MS : Z := 60 * 1000.
Definition RATE_LIMIT_MAX : Z := 20.

(** The rate-limit block of the chat handler: read the entry of [ip] or
    start a fresh one, reset it when its window has passed, count the
    request, write the entry back; the boolean is [entry.count >
    RATE_LIMIT_MAX]. *)
Definition rateLimit (now : Z) (ip : jsstring)
    (rateLimitStore : gmap (list N) RateLimitEntry)
  : bool * gmap (list N) RateLimitEntry :=
  let entry :=
    default {| count := 0; resetAt := now + RATE_LIMIT_WINDOW_MS |}
            (rateLimitStore !! ip) in
  let entry :=
    if (now >? resetAt entry)%Z
    then {| count := 0; resetAt := now + RATE_LIMIT_WINDOW_MS |}
    else entry in
  let entry := {| count := count entry + 1; resetAt := resetAt entry |} in
  ((count entry >? RATE_LIMIT_MAX)%Z, <[ip := entry]> rateLimitStore).

(** What [openai.responses.create] does for one request: it throws, or
    it resolves to a response whose [output_text] may be absent. *)
Inductive AiOutcome : Type :=
| AiThrows (msg : option jsstring)
| AiResponds (output_text : option jsstring).

Record ChatRequest : Type := {
  x_forwarded_for : option jsstring;
  remoteAddress : option jsstring;
  message : option jsstring
}.

(** [req.headers["x-forwarded-for"] || req.socket.remoteAddress || "unknown"] *)
Definition client_ip (req : ChatRequest) : jsstring :=
  or_else (str_or_empty (x_forwarded_for req))
          (or_else (str_or_empty (remoteAddress req)) (js "unknown")).

(** The [/api/chat] handler.  [openai] is [None] when no key is
    configured, otherwise the outcome the completion call has for this
    request; [now] is [Date.now()]. *)
Definition chat (openai : option AiOutcome) (now : Z) (req : ChatRequest)
    (rateLimitStore : gmap (list N) RateLimitEntry)
  : Response * gmap (list N) RateLimitEntry :=
  match openai with
  | None => (error_response 500 "Missing OPEN_AI_KEY.", rateLimitStore)
  | Some completion =>
      let ip := client_ip req in
      let '(limited, store') := rateLimit now ip rateLimitStore in
      if limited
      then (error_response 429 "Rate limit exceeded. Try again soon.", store')
      else
        let message := trim (str_or_empty (message req)) in
        if negb (truthy message)
        then (error_response 400 "Message is required.", store')
        else if (800 <? length message)%nat
        then (error_response 400 "Message is too long.", store')
        else
          match completion with
          | AiResponds output_text =>
              let reply :=
                or_else (trim (str_or_empty output_text))
                        (js "Please try again.") in
              ({| status := 200; body := JObj [(js "reply", JStr reply)] |},
               store')
          | AiThrows msg =>
              ({| status := 500;
                  body := JObj [(js "error",
                                 JStr (message_or msg "Chat service error."))] |},
               store')
          end
  end.

(** ** Walkthrough endpoint: extraction engine and notifications *)

(** The answers of a request and the object the model's text parses to
    are JSON values of any shape; the handler reads properties of them
    and converts them to strings, and both can throw. *)

(** What the handler's own code throws on such a value, both a
    [TypeError]: a property read on [null], and the conversion to a
    string of an object that has no usable [toString]. *)
Inductive Thrown : Type :=
| ReadOfNull (property : string)
| NotConvertible.

Inductive Outcome (A : Type) : Type :=
| Returns (value : A)
| Throws (error : Thrown).
Arguments Returns {A} value.
Arguments Throws {A} error.

#[global] Instance Outcome_ret : MRet Outcome := fun A x => Returns x.

#[global] Instance Outcome_bind : MBind Outcome :=
  fun A B f m =>
    match m with
    | Returns x => f x
    | Throws e => Throws e
    end.

(** [Array.prototype.find] with a callback that can throw. *)
Fixpoint find_outcome {A} (f : A -> Outcome bool) (l : list A)
  : Outcome (option A) :=
  match l with
  | [] => Returns None
  | x :: rest =>
      b ← f x;
      if b : bool then Returns (Some x) else find_outcome f rest
  end.

(** [Array.prototype.map] with a callback that can throw. *)
Fixpoint map_outcome {A B} (f : A -> Outcome B) (l : list A)
  : Outcome (list B) :=
  match l with
  | [] => Returns []
  | x :: rest => y ← f x; ys ← map_outcome f rest; Returns (y :: ys)
  end.

(** Truthiness of a value: [null], [false], [0], [NaN] and the empty
    string are falsy. *)
Definition js_truthy (v : json) : bool :=
  match v with
  | JNull => false
  | JBool b => b
  | JNum x => negb (PrimFloat.eqb x 0%float) && PrimFloat.eqb x x
  | JStr s => truthy s
  | JArr _ | JObj _ => true
  end.

(** [a || b] where [a] may be [undefined]. *)
Definition or_value (a : option json) (b : json) : json :=
  match a with
  | Some v => if js_truthy v then v else b
  | None => b
  end.

(** [item?.p], and [v.p] on a value [v] that is not [null], for the
    property names of the handlers: none of them is an index, [length]
    or a member of a prototype, so the read finds an own property of an
    object and is [undefined] on anything else. *)
Definition read_opt (property : string) (v : json) : option json :=
  get (js property) v.

(** [item.p]: on [null] the read throws. *)
Definition read (property : string) (item : json) : Outcome (option json) :=
  match item with
  | JNull => Throws (ReadOfNull property)
  | _ => Returns (read_opt property item)
  end.

Section Conversions.

(** [Number.prototype.toString], whose digits are the engine's. *)
Variable Number_toString : float -> jsstring.

Section Join.

Variable text : json -> Outcome jsstring.
Variable separator : jsstring.

(** [Array.prototype.join]: the texts of the elements, left to right,
    with the separator between them. *)
Fixpoint join_with (items : list json) : Outcome jsstring :=
  match items with
  | [] => Returns []
  | x :: rest =>
      s ← text x;
      match rest with
      | [] => Returns s
      | _ :: _ => r ← join_with rest; Returns (s ++ separator ++ r)
      end
  end.

End Join.

(** [String(v)], a template substitution [`${v}`] and ["..." + v]: the
    text of a primitive; of an array its elements joined by commas,
    [null] elements counting as empty; of an object "[object Object]",
    unless it has an own property [toString], which in a JSON value is
    never a function: then the conversion finds neither a [toString] nor
    a [valueOf] that returns a primitive and throws. *)
Fixpoint ToString (v : json) : Outcome jsstring :=
  match v with
  | JNull => Returns (js "null")
  | JBool b => Returns (js (if b then "true" else "false"))
  | JNum x => Returns (Number_toString x)
  | JStr s => Returns s
  | JArr items =>
      join_with (fun x => match x with
                          | JNull => Returns []
                          | _ => ToString x
                          end)
                (js ",") items
  | JObj fields =>
      match obj_get (js "toString") fields with
      | Some _ => Throws NotConvertible
      | None => Returns (js "[object Object]")
      end
  end.

(** The text [join] gives an element. *)
Definition element_text (x : json) : Outcome jsstring :=
  match x with
  | JNull => Returns []
  | _ => ToString x
  end.

(** [items.join(separator)] *)
Definition Array_join (separator : jsstring) (items : list json)
  : Outcome jsstring :=
  join_with element_text separator items.

End Conversions.

Record ExtractedFields : Type := {
  industry : json;
  team_size : json;
  pain_points : json;
  tools : json;
  goals : json;
  timeline : json;
  budget : json
}.

Record LeadReport : Type := {
  summary : jsstring;
  extracted : ExtractedFields;
  recommended_services : list jsstring;
  suggested_next_step : jsstring
}.

(** The object literals that [buildFallbackReport] returns. *)
Definition json_of_extracted (e : ExtractedFields) : json :=
  JObj [(js "industry", industry e);
        (js "team_size", team_size e);
        (js "pain_points", pain_points e);
        (js "tools", tools e);
        (js "goals", goals e);
        (js "timeline", timeline e);
        (js "budget", budget e)].

Definition json_of_report (r : LeadReport) : json :=
  JObj [(js "summary", JStr (summary r));
        (js "extracted", json_of_extracted (extracted r));
        (js "recommended_services", JArr (map JStr (recommended_services r)));
        (js "suggested_next_step", JStr (suggested_next_step r))].

(** [Set.prototype.add] on a set kept in insertion order. *)
Definition set_add (x : jsstring) (s : list jsstring) : list jsstring :=
  if existsb (str_eqb x) s then s else s ++ [x].

(** What [sendResendEmail] does for one call: it returns, or it throws
    (the request failed, or the provider's reply was not ok). *)
Inductive SendOutcome : Type :=
| SendOk
| SendThrows (msg : option jsstring).

(** What a handler does to the outside world, in order: the completion
    call, a call of [sendResendEmail] (with the clock readings written
    into the message and the random idempotency key of the call), a
    [console.error]. *)
Inductive Event : Type :=
| EvCompletion
| EvSend (to subject : jsstring) (stamps : list Z) (idempotency_key : jsstring)
| EvLog (label : jsstring).

(** What one walkthrough request finds around it: the completion client
    ([None]: no key configured) with the outcome of its call, the mail
    provider key, the readings of [new Date()], and for each of the two
    sends its outcome and the [crypto.randomUUID()] it draws. *)
Record WalkthroughEnv : Type := {
  ai_client : option AiOutcome;
  resendApiKey : option jsstring;
  new_Date : nat -> Z;
  owner_send : SendOutcome;
  owner_token : jsstring;
  user_send : SendOutcome;
  user_token : jsstring
}.

(** [/[^\s@]+@[^\s@]+\.[^\s@]+/] *)
Definition not_space_at (c : N) : bool := negb (is_space c || (c =? 64)%N).

Definition email_re : regex :=
  Cat (Rep not_space_at 1 None)
      (Cat (Cls (is_char 64))
           (Cat (Rep not_space_at 1 None)
                (Cat (Cls (is_char 46)) (Rep not_space_at 1 None)))).

(** [/\{[\s\S]*\}/] *)
Definition braces_re : regex :=
  Cat (Cls (is_char 123))
      (Cat (Rep (fun _ => true) 0 None) (Cls (is_char 125))).

(** The properties of [extracted] that the messages list. *)
Definition extracted_properties : list string :=
  ["industry"; "team_size"; "pain_points"; "tools"; "goals"; "timeline";
   "budget"]%string.

Section Walkthrough.

(** [String.prototype.toLowerCase], [JSON.parse] ([None]: it throws),
    [Number.prototype.toString] and the message the engine gives a
    [TypeError] it throws. *)
Variable toLowerCase : jsstring -> jsstring.
Variable JSON_parse : jsstring -> option json.
Variable Number_toString : float -> jsstring.
Variable TypeError_message : Thrown -> jsstring.

(** [String(v || fallback)] *)
Definition String_or (v : option json) (fallback : string)
  : Outcome jsstring :=
  ToString Number_toString (or_value v (JStr (js fallback))).

(** [answers.find((item) => String(item.question || "").toLowerCase()
    .includes(key))]: the item is read without optional chaining. *)
Definition findAnswer (answers : list json) (keyword : string)
  : Outcome (option json) :=
  find_outcome
    (fun item =>
       question ← read "question" item;
       s ← String_or question "";
       Returns (includes (toLowerCase s) (js keyword)))
    answers.

(** [(found || {}).answer || "unknown"]: the answer as it was submitted,
    of whatever type. *)
Definition answer_or_unknown (found : option json) : json :=
  or_value (read_opt "answer" (or_value found (JObj [])))
           (JStr (js "unknown")).

(** [const toLower = (value) => String(value || "").toLowerCase()] *)
Definition toLower (value : json) : Outcome jsstring :=
  s ← String_or (Some value) ""; Returns (toLowerCase s).

Definition buildFallbackReport (answers : list json) : Outcome LeadReport :=
  found ← findAnswer answers "business";
  let industry := answer_or_unknown found in
  found ← findAnswer answers "team";
  let teamSize := answer_or_unknown found in
  found ← findAnswer answers "bottleneck";
  let painPoints := answer_or_unknown found in
  found ← findAnswer answers "tools";
  let tools := answer_or_unknown found in
  found ← findAnswer answers "outcome";
  let goals := answer_or_unknown found in
  found ← findAnswer answers "timeline";
  let timeline := answer_or_unknown found in
  found ← findAnswer answers "budget";
  let budget := answer_or_unknown found in
  let recommended := [js "AI Strategy Assessment"] in
  pain ← toLower painPoints;
  goal ← toLower goals;
  tool ← toLower tools;
  let recommended :=
    if includes pain (js "manual") || includes pain (js "spreadsheet")
       || includes tool (js "crm")
    then set_add (js "AI Integration") recommended else recommended in
  let recommended :=
    if includes goal (js "automate") || includes pain (js "repetitive")
       || includes pain (js "admin")
    then set_add (js "Custom AI Development") recommended else recommended in
  let recommended :=
    if includes goal (js "training") || includes pain (js "adoption")
    then set_add (js "AI Training & Enablement") recommended
    else recommended in
  let recommended :=
    if includes goal (js "support") || includes pain (js "maintenance")
    then set_add (js "Ongoing AI Support") recommended else recommended in
  industryText ← ToString Number_toString industry;
  timelineText ← ToString Number_toString timeline;
  let summary :=
    js "Based on your input, we see near-term opportunities to reduce friction in "
    ++ industryText
    ++ js " workflows and deliver measurable wins within your "
    ++ timelineText
    ++ js " timeline. Our focus would be an assessment to pinpoint quick ROI, then implement one high-impact workflow tied to your goals." in
  Returns
    {| summary := summary;
       extracted :=
         {| industry := industry; team_size := teamSize;
            pain_points := painPoints; tools := tools; goals := goals;
            timeline := timeline; budget := budget |};
       recommended_services := recommended;
       suggested_next_step :=
         js "Book a call to map the assessment and a 90-day execution plan." |}.

(** Email-address discovery on the raw answers. *)
Definition discover_email (answers : list json) : Outcome jsstring :=
  emailFromKey ←
    find_outcome
      (fun item =>
         s ← String_or (read_opt "key" item) "";
         Returns (str_eqb (toLowerCase s) (js "email")))
      answers;
  emailFromQuestion ←
    find_outcome
      (fun item =>
         s ← String_or (read_opt "question" item) "";
         Returns (includes (toLowerCase s) (js "email")))
      answers;
  emailFromAnswerPattern ←
    find_outcome
      (fun item =>
         s ← String_or (read_opt "answer" item) "";
         Returns (regex_test email_re s))
      answers;
  s ← ToString Number_toString
        (or_value (emailFromKey ≫= read_opt "answer")
           (or_value (emailFromQuestion ≫= read_opt "answer")
              (or_value (emailFromAnswerPattern ≫= read_opt "answer")
                 (JStr []))));
  Returns (trim s).

(** The two parsing attempts on the model's text: [JSON.parse(raw)],
    and on failure [JSON.parse] of the greedy brace-delimited substring.
    [None]: an exception leaves the inner [try]. *)
Definition parse_model_output (raw : jsstring) : option json :=
  match JSON_parse raw with
  | Some v => Some v
  | None =>
      match regex_exec braces_re raw with
      | None => None
      | Some (m0, _) => JSON_parse m0
      end
  end.

(** The value of [parsed] when the notification part begins, or what
    [buildFallbackReport] threw on the way, and what was done to the
    outside world until then. *)
Definition extract (client : option AiOutcome) (answers : list json)
  : Outcome json * list Event :=
  let fallback :=
    report ← buildFallbackReport answers; Returns (json_of_report report) in
  let model_error := [EvCompletion; EvLog (js "Walkthrough model error:")] in
  let '(parsed, events) :=
    match client with
    | None => (fallback, [])
    | Some (AiThrows _) => (fallback, model_error)
    | Some (AiResponds output_text) =>
        let raw := trim (str_or_empty output_text) in
        if negb (truthy raw) then (fallback, model_error)
        else
          match parse_model_output raw with
          | Some v => (Returns v, [EvCompletion])
          | None => (fallback, model_error)
          end
    end in
  (parsed ← parsed; if is_object parsed then Returns parsed else fallback,
   events).

Definition owner_address : jsstring := js "hello@rossapplied.ai".
Definition emailSubject : jsstring := js "Your AI Walkthrough Summary".
Definition internalSubject : jsstring := js "New AI Walkthrough Submission".

(** The texts that go into the two messages, in the order in which the
    handler converts them: the joined services, then in the first
    template the summary, the seven extracted properties and the next
    step, then the question and the answer of every submitted item.  The
    later templates convert the same values again. *)
Definition message_texts (parsed : json) (answers : list json)
  : Outcome (list jsstring) :=
  let services :=
    match read_opt "recommended_services" parsed with
    | Some (JArr items) => items
    | _ => []
    end in
  servicesList ←
    (if (length services =? 0)%nat then Returns (js "To be discussed")
     else Array_join Number_toString (js ", ") services);
  let extracted := or_value (read_opt "extracted" parsed) (JObj []) in
  summaryText ← String_or (read_opt "summary" parsed)
                  "Thanks for completing the walkthrough.";
  details ←
    map_outcome (fun property => String_or (read_opt property extracted) "unknown")
                extracted_properties;
  suggestedNext ← String_or (read_opt "suggested_next_step" parsed)
                    "Book a call to map the plan.";
  submitted ←
    map_outcome
      (fun item =>
         question ← String_or (read_opt "question" item) "unknown";
         answer ← String_or (read_opt "answer" item) "unknown";
         Returns [question; answer])
      answers;
  Returns (summaryText :: servicesList :: details ++ suggestedNext
             :: concat submitted).

(** The notification block: the final [internalEmailError] and
    [userEmailError], and the sends and logs in order. *)
Definition dispatch (env : WalkthroughEnv) (userEmail : jsstring)
  : jsstring * jsstring * list Event :=
  if negb (truthy (str_or_empty (resendApiKey env)))
  then (js "Missing RESEND_API_KEY.", js "Missing RESEND_API_KEY.", [])
  else
    let to_owner :=
      EvSend owner_address internalSubject
             [new_Date env 0%nat; new_Date env 1%nat] (owner_token env) in
    let to_user := EvSend userEmail emailSubject [] (user_token env) in
    let '(internalEmailError, owner_events) :=
      match owner_send env with
      | SendOk => ([], [to_owner])
      | SendThrows msg =>
          (message_or msg "Internal email send failed.",
           [to_owner; EvLog (js "Internal walkthrough email error:")])
      end in
    let '(userEmailError, user_events) :=
      if truthy userEmail
      then
        match user_send env with
        | SendOk => ([], [to_user])
        | SendThrows msg =>
            (message_or msg "User email send failed.",
             [to_user; EvLog (js "User walkthrough email error:")])
        end
      else (js "No user email captured.", []) in
    (internalEmailError, userEmailError, owner_events ++ user_events).

(** The outer [catch]: the answer is a 500 with the message of what was
    thrown, after what had been done until then. *)
Definition walkthrough_failed (error : Thrown) (events : list Event)
  : Response * list Event :=
  ({| status := 500;
      body :=
        JObj [(js "error",
               JStr (message_or (Some (TypeError_message error))
                                "Walkthrough service error."))] |},
   events ++ [EvLog (js "Walkthrough error:")]).

(** The [/api/walkthrough] handler.  [req_answers] is [payload.answers]
    when it is an array.  Of the two messages a send event keeps the
    recipient, the subject and the clock readings (the "Submitted at"
    lines of the internal message); their texts are assembled before
    anything is sent, and a value that cannot be converted ends the
    request there. *)
Definition walkthrough (env : WalkthroughEnv)
    (req_answers : option (list json))
  : Response * list Event :=
  let answers := default [] req_answers in
  if (length answers =? 0)%nat
  then (error_response 400 "Answers are required.", [])
  else
    match discover_email answers with
    | Throws error => walkthrough_failed error []
    | Returns userEmail =>
        let '(parsed, extraction_events) := extract (ai_client env) answers in
        match parsed with
        | Throws error => walkthrough_failed error extraction_events
        | Returns parsed =>
            match message_texts parsed answers with
            | Throws error => walkthrough_failed error extraction_events
            | Returns _ =>
                let '(internalEmailError, userEmailError, mail_events) :=
                  dispatch env userEmail in
                ({| status := 200;
                    body :=
                      JObj
                        (obj_set (js "owner_email_error") (JStr internalEmailError)
                        (obj_set (js "owner_notified")
                                 (JBool (negb (truthy internalEmailError)))
                        (obj_set (js "email_error") (JStr userEmailError)
                        (obj_set (js "emailed_to")
                                 (JStr (if truthy userEmailError then []
                                        else userEmail))
                        (spread parsed))))) |},
                 extraction_events ++ mail_events)
            end
        end
    end.

End Walkthrough.

(** ** Availability broker *)

(** The value [normalizeTimezone] returns: a string, or, when the
    lower-cased input names a member that [timezoneMap] inherits from
    [Object.prototype], that member (a function or object, which no
    formatter accepts as a time zone). *)
Inductive Timezone : Type :=
| TzName (zone : jsstring)
| TzInherited (member : jsstring).

Definition timezoneMap : list (string * string) :=
  [("est", "America/New_York"); ("edt", "America/New_York");
   ("cst", "America/Chicago"); ("cdt", "America/Chicago");
   ("mst", "America/Denver"); ("mdt", "America/Denver");
   ("pst", "America/Los_Angeles"); ("pdt", "America/Los_Angeles")]%string.

Definition object_prototype_members : list string :=
  ["constructor"; "__defineGetter__"; "__defineSetter__"; "hasOwnProperty";
   "__lookupGetter__"; "__lookupSetter__"; "isPrototypeOf";
   "propertyIsEnumerable"; "toString"; "valueOf"; "__proto__";
   "toLocaleString"]%string.

(** What reading the local hour of an instant in a zone gives:
    the formatter throws, or [Number(hourPart?.value)] is [NaN] or a
    number. *)
Inductive HourProbe : Type :=
| ProbeThrows
| ProbeNaN
| ProbeHour (hour : Z).

Record EventType : Type := {
  et_name : option jsstring;
  et_uri : option jsstring
}.

Record Slot : Type := {
  start_time : jsstring;
  end_time : option jsstring
}.

(** A [fetch] followed, when the reply is ok, by [.json()] and the
    reading of the handler's property path; [FetchOk None] is a body
    whose [.json()] rejects. *)
Inductive Fetched (A : Type) : Type :=
| FetchThrows
| FetchNotOk
| FetchOk (data : option A).
Arguments FetchThrows {A}.
Arguments FetchNotOk {A}.
Arguments FetchOk {A} data.

Record ScheduleRequest : Type := {
  sr_name : option jsstring;
  sr_email : option jsstring;
  sr_company : option jsstring;
  sr_goals : option jsstring;
  sr_times : option jsstring;
  sr_timezone : option jsstring;
  sr_startAfter : option jsstring
}.

Record ScheduleEnv : Type := {
  calendlyToken : option jsstring;
  clock : Z;
  (** [userData?.resource?.uri] *)
  user_lookup : Fetched (option jsstring);
  (** [eventsData?.collection] when it is an array *)
  events_lookup : Fetched (option (list EventType));
  (** [availableData?.collection] when it is an array *)
  available_lookup : Fetched (option (list Slot))
}.

(** [encodeURIComponent] throws a [URIError] exactly on a string with
    a lone surrogate. *)
Definition is_high_surrogate (c : N) : bool := ((55296 <=? c) && (c <=? 56319))%N.
Definition is_low_surrogate (c : N) : bool := ((56320 <=? c) && (c <=? 57343))%N.

Fixpoint well_formed_utf16 (s : jsstring) : bool :=
  match s with
  | [] => true
  | c :: t =>
      if is_high_surrogate c then
        match t with
        | d :: t' => is_low_surrogate d && well_formed_utf16 t'
        | [] => false
        end
      else if is_low_surrogate c then false
      else well_formed_utf16 t
  end.

(** The time values a [Date] can hold. *)
Definition MAX_TIME : Z := 8640000000000000.

Definition time_clip (t : option Z) : option Z :=
  match t with
  | Some v => if (Z.abs v <=? MAX_TIME)%Z then Some v else None
  | None => None
  end.

Definition WEEK_MS : Z := 7 * 24 * 60 * 60 * 1000.

Section Schedule.

Variable toLowerCase : jsstring -> jsstring.
(** The time value of [new Date(text)]; [None] is an invalid date. *)
Variable Date_parse : jsstring -> option Z.
(** The hour part that [Intl.DateTimeFormat] gives an instant in a zone,
    and the text it formats the instant to ([None]: it throws). *)
Variable local_hour : jsstring -> jsstring -> HourProbe.
Variable format_instant : jsstring -> jsstring -> option jsstring.

Definition normalizeTimezone (input : option jsstring) : Timezone :=
  let input := str_or_empty input in
  if negb (truthy input) then TzName (js "America/Chicago")
  else
    let key := toLowerCase (trim input) in
    match List.find (fun entry => str_eqb (js (fst entry)) key) timezoneMap with
    | Some entry => TzName (js (snd entry))
    | None =>
        if existsb (fun m => str_eqb (js m) key) object_prototype_members
        then TzInherited key
        else TzName input
    end.

Definition formatSlotLabel (iso : jsstring) (timezone : Timezone) : jsstring :=
  match timezone with
  | TzName zone =>
      match format_instant iso zone with
      | Some text => text ++ js " (" ++ zone ++ js ")"
      | None => iso
      end
  | TzInherited _ => iso
  end.

Definition slotMatchesWindow (iso : jsstring) (timezone : Timezone)
    (window : option TimeWindow) : bool :=
  match window with
  | None => true
  | Some w =>
      match timezone with
      | TzName zone =>
          match local_hour iso zone with
          | ProbeHour hour => (w_start w <=? hour)%Z && (hour <? w_end w)%Z
          | ProbeNaN => true
          | ProbeThrows => true
          end
      | TzInherited _ => true
      end
  end.

Definition suggestion (timezone : Timezone) (slot : Slot) : json :=
  JObj ([(js "start_time", JStr (start_time slot))]
        ++ match end_time slot with
           | Some e => [(js "end_time", JStr e)]
           | None => []
           end
        ++ [(js "label", JStr (formatSlotLabel (start_time slot) timezone))]).

Definition no_times_summary : string :=
  "No available times matched. Try a different window or timezone.".

(** The [/api/schedule] handler.  Whatever is thrown inside it reaches
    the outer [catch], which answers "Schedule service error.". *)
Definition schedule (env : ScheduleEnv) (req : ScheduleRequest) : Response :=
  let thrown := error_response 500 "Schedule service error." in
  if negb (truthy (str_or_empty (calendlyToken env)))
  then error_response 500 "Missing CALENDLY_API."
  else
    let name := trim (str_or_empty (sr_name req)) in
    let email := trim (str_or_empty (sr_email req)) in
    let goals := trim (str_or_empty (sr_goals req)) in
    let times := trim (str_or_empty (sr_times req)) in
    let timezone := normalizeTimezone (sr_timezone req) in
    let startAfter := trim (str_or_empty (sr_startAfter req)) in
    if negb (truthy name) || negb (truthy email) || negb (truthy goals)
       || negb (truthy times)
    then error_response 400 "Missing required fields."
    else
      match user_lookup env with
      | FetchThrows => thrown
      | FetchNotOk => error_response 500 "Calendly user lookup failed."
      | FetchOk None => thrown
      | FetchOk (Some uri) =>
      let userUri := str_or_empty uri in
      if negb (truthy userUri)
      then error_response 500 "Calendly user not found."
      else if negb (well_formed_utf16 userUri) then thrown
      else
        match events_lookup env with
        | FetchThrows => thrown
        | FetchNotOk => error_response 500 "Calendly event types lookup failed."
        | FetchOk None => thrown
        | FetchOk (Some collection) =>
        let eventTypes := default [] collection in
        match eventTypes with
        | [] => error_response 500 "No Calendly event types found."
        | first :: _ =>
        let preferred :=
          List.find (fun evt =>
                  includes (toLowerCase (str_or_empty (et_name evt)))
                           (js "intro"))
               eventTypes in
        let selected := default first preferred in
        let eventTypeUri := str_or_empty (et_uri selected) in
        if negb (truthy eventTypeUri)
        then error_response 500 "Calendly event type URI missing."
        else
          let window := parseWindow times in
          let start :=
            if truthy startAfter then time_clip (Date_parse startAfter)
            else Some (clock env) in
          let end_ := time_clip (option_map (fun t => t + WEEK_MS)%Z start) in
          if negb (well_formed_utf16 eventTypeUri) then thrown
          else
            match start, end_ with
            | Some _, Some _ =>
                match available_lookup env with
                | FetchThrows => thrown
                | FetchNotOk =>
                    error_response 500 "Calendly availability lookup failed."
                | FetchOk None => thrown
                | FetchOk (Some collection) =>
                    let slots := default [] collection in
                    let filtered :=
                      map (suggestion timezone)
                          (take 3
                             (List.filter
                                (fun slot =>
                                   slotMatchesWindow (start_time slot)
                                                     timezone window)
                                slots)) in
                    {| status := 200;
                       body :=
                         JObj [(js "suggestions", JArr filtered);
                               (js "eventTypeUri", JStr eventTypeUri);
                               (js "summary",
                                JStr (js (if (length filtered =? 0)%nat
                                          then no_times_summary
                                          else "Here are a few available times.")))] |}
                end
            | _, _ => thrown
            end
        end
        end
      end.

End Schedule.

(** ** The mail call *)

(** What the mail provider does with one request: the [fetch] rejects,
    or it replies with a status, [ok] or not, and a body whose text can
    be read ([inl]) or not ([inr], with the message of what is thrown). *)
Inductive MailReply : Type :=
| MailUnreachable (msg : option jsstring)
| MailReplied (ok : bool) (code : nat) (text : jsstring + option jsstring).

(** What a call of [sendResendEmail] comes to for a provider reply. *)
Definition sendResendEmail (reply : MailReply) : SendOutcome :=
  match reply with
  | MailUnreachable msg => SendThrows msg
  | MailReplied true _ _ => SendOk
  | MailReplied false code (inl errorText) =>
      SendThrows
        (Some (js "Resend error: " ++ decimal code ++ js " " ++ errorText))
  | MailReplied false _ (inr msg) => SendThrows msg
  end.

(** ** Booking confirmer *)

Record ConfirmRequest : Type := {
  cr_name : option jsstring;
  cr_email : option jsstring;
  cr_timezone : option jsstring;
  cr_eventTypeUri : option jsstring;
  cr_startTime : option jsstring
}.

(** [eventTypeData?.resource?.location] *)
Record Location : Type := {
  loc_kind : option jsstring;
  loc_location : option jsstring
}.

(** [locationPayload]: the kind, and the location when it is truthy. *)
Record LocationPayload : Type := {
  lp_kind : jsstring;
  lp_location : option jsstring
}.

Record InviteePayload : Type := {
  ip_event_type : jsstring;
  ip_start_time : jsstring;
  ip_name : jsstring;
  ip_email : jsstring;
  ip_timezone : Timezone;
  ip_location : option LocationPayload
}.

(** The calls the confirmer makes to the calendar, in order. *)
Inductive ConfirmCall : Type :=
| CallEventType (eventTypeId : jsstring)
| CallInvitee (payload : InviteePayload).

Record ConfirmEnv : Type := {
  confirm_token : option jsstring;
  (** the event-type lookup, read up to [resource.location] *)
  location_lookup : Fetched (option Location);
  (** the invitee creation, read up to [reschedule_url] and [cancel_url] *)
  invitee_create : Fetched (option jsstring * option jsstring)
}.

Definition slash : N := 47%N.

(** [s.split("/").pop()]: the text after the last slash. *)
Definition last_segment (s : jsstring) : jsstring :=
  rev (take (span (fun c => negb (is_char slash c)) (rev s)) (rev s)).

(** "You're booked! ..." with the typographic apostrophe of the source. *)
Definition booked_summary : jsstring :=
  js "You" ++ [8217%N] ++ js "re booked! A confirmation email is on the way.".

Section Confirm.

Variable toLowerCase : jsstring -> jsstring.

(** The [/api/schedule/confirm] handler with the calls it makes. *)
Definition confirm (env : ConfirmEnv) (req : ConfirmRequest)
  : Response * list ConfirmCall :=
  let thrown := error_response 500 "Schedule confirmation failed." in
  if negb (truthy (str_or_empty (confirm_token env)))
  then (error_response 500 "Missing CALENDLY_API.", [])
  else
    let name := trim (str_or_empty (cr_name req)) in
    let email := trim (str_or_empty (cr_email req)) in
    let timezone := normalizeTimezone toLowerCase (cr_timezone req) in
    let eventTypeUri := trim (str_or_empty (cr_eventTypeUri req)) in
    let startTime := trim (str_or_empty (cr_startTime req)) in
    if negb (truthy name) || negb (truthy email)
       || negb (truthy eventTypeUri) || negb (truthy startTime)
    then (error_response 400 "Missing required fields.", [])
    else
      let eventTypeId := last_segment eventTypeUri in
      let book (calls : list ConfirmCall)
               (locationPayload : option LocationPayload) :=
        let inviteePayload :=
          {| ip_event_type := eventTypeUri; ip_start_time := startTime;
             ip_name := name; ip_email := email; ip_timezone := timezone;
             ip_location := locationPayload |} in
        let calls := calls ++ [CallInvitee inviteePayload] in
        match invitee_create env with
        | FetchThrows => (thrown, calls)
        | FetchNotOk => (error_response 500 "Calendly booking failed.", calls)
        | FetchOk None => (thrown, calls)
        | FetchOk (Some (reschedule_url, cancel_url)) =>
            ({| status := 200;
                body :=
                  JObj ([(js "summary", JStr booked_summary)]
                        ++ match reschedule_url with
                           | Some u => [(js "rescheduleUrl", JStr u)]
                           | None => []
                           end
                        ++ match cancel_url with
                           | Some u => [(js "cancelUrl", JStr u)]
                           | None => []
                           end) |},
             calls)
        end in
      if truthy eventTypeId then
        match location_lookup env with
        | FetchThrows => (thrown, [CallEventType eventTypeId])
        | FetchNotOk => book [CallEventType eventTypeId] None
        | FetchOk None => (thrown, [CallEventType eventTypeId])
        | FetchOk (Some location) =>
            book [CallEventType eventTypeId]
                 (match location ≫= loc_kind with
                  | Some kind =>
                      if truthy kind
                      then Some {| lp_kind := kind;
                                   lp_location :=
                                     match location ≫= loc_location with
                                     | Some l => if truthy l then Some l else None
                                     | None => None
                                     end |}
                      else None
                  | None => None
                  end)
        end
      else book [] None.

End Confirm.

(** * Properties *)

(** ** The matcher on small inputs *)

Example parseWindow_spaced :
  parseWindow (js "mornings, 09 - 17 CST") = Some {| w_start := 9; w_end := 17 |}.
Proof. vm_compute. reflexivity. Qed.

(** The match starts at the first position where the whole pattern
    fits: in "123-4" that is the "23". *)
Example parseWindow_123_4 :
  parseWindow (js "123-4") = Some {| w_start := 23; w_end := 4 |}.
Proof. vm_compute. reflexivity. Qed.

Example email_re_matches :
  regex_test email_re (js "write to ada@example.com please") = true /\
  regex_test email_re (js "ada@example") = false.
Proof. vm_compute. split; reflexivity. Qed.

Example braces_re_greedy :
  regex_exec braces_re (js "Here: {a: {}} and {more} text")
  = Some (js "{a: {}} and {more}", []).
Proof. vm_compute. reflexivity. Qed.

(** ** Character classes *)

Lemma digit_not_space c : is_digit c = true -> is_space c = false.
Proof.
  unfold is_digit, is_space. intros H.
  apply andb_prop in H as [H1 H2].
  apply N.leb_le in H1. apply N.leb_le in H2.
  repeat (apply orb_false_intro);
    try (apply andb_false_iff; (left; apply N.leb_gt; lia) || (right; apply N.leb_gt; lia));
    try (apply N.eqb_neq; lia).
Qed.

Lemma space_not_digit c : is_space c = true -> is_digit c = false.
Proof.
  intros H. destruct (is_digit c) eqn:E; [|done].
  apply digit_not_space in E. congruence.
Qed.

Lemma digit_not_hyphen c : is_digit c = true -> is_char hyphen c = false.
Proof.
  unfold is_digit, is_char, hyphen. intros H.
  apply andb_prop in H as [H1 H2]. apply N.leb_le in H1.
  apply N.eqb_neq. lia.
Qed.

Lemma space_not_hyphen c : is_space c = true -> is_char hyphen c = false.
Proof.
  unfold is_char, hyphen. intros H.
  destruct (N.eqb_spec c 45) as [->|]; [|done]. discriminate H.
Qed.

Lemma is_char_eq k c : is_char k c = true <-> c = k.
Proof. unfold is_char. apply N.eqb_eq. Qed.

(** ** Runs of a class *)

Lemma drop_span p s : drop (span p s) s = drop_while p s.
Proof. induction s as [|c t IH]; simpl; [done|]. destruct (p c); done. Qed.

Lemma drop_below_span p s k :
  (k < span p s)%nat -> exists c t, drop k s = c :: t /\ p c = true.
Proof.
  revert k. induction s as [|c t IH]; simpl; intros k Hk; [lia|].
  destruct (p c) eqn:E; [|lia].
  destruct k as [|k]; simpl; [eauto|]. apply IH. lia.
Qed.

Lemma drop_while_app p ws c t :
  Forall (fun x => p x = true) ws -> p c = false ->
  drop_while p (ws ++ c :: t) = c :: t.
Proof.
  induction 1 as [|x ws Hx _ IH]; simpl; intros Hc.
  - by rewrite Hc.
  - rewrite Hx. by apply IH.
Qed.

Lemma drop_while_split p s :
  exists ws, Forall (fun x => p x = true) ws /\ s = ws ++ drop_while p s /\
             match drop_while p s with c :: _ => p c = false | [] => True end.
Proof.
  induction s as [|c t (ws & Hws & Heq & Hhd)]; simpl.
  - exists []. done.
  - destruct (p c) eqn:E.
    + exists (c :: ws). split; [by constructor|]. split; [|done].
      simpl. by rewrite <- Heq.
    + exists []. done.
Qed.

(** ** Backtracking order *)

Lemma flat_map_all_nil {A B} (f : A -> list B) (l : list A) :
  (forall x, In x l -> f x = []) -> flat_map f l = [].
Proof.
  induction l as [|x l IH]; simpl; intros H; [done|].
  rewrite H by auto. simpl. apply IH. auto.
Qed.

Lemma head_map {A B} (f : A -> B) (l : list A) :
  head (map f l) = option_map f (head l).
Proof. by destruct l. Qed.

(** Captures of the runs of [r], in order. *)
Definition captures (r : regex) (s : jsstring) : list (list jsstring) :=
  map (fun x => snd x) (runs r s).

Lemma captures_Cat r1 r2 s :
  captures (Cat r1 r2) s =
  flat_map (fun x => map (fun g2 => snd x ++ g2) (captures r2 (snd (fst x))))
           (runs r1 s).
Proof.
  unfold captures. simpl. induction (runs r1 s) as [|[[m1 s1] g1] l IH];
    simpl; [done|].
  rewrite map_app, IH. f_equal.
  rewrite !map_map. apply map_ext. by intros [[m2 s2] g2].
Qed.

(** A greedy run of a class as long as possible is the only one with
    a continuation, when the continuation cannot start inside the run. *)
Lemma captures_skip p r2 s :
  (forall c t, p c = true -> runs r2 (c :: t) = []) ->
  captures (Cat (Rep p 0 None) r2) s = captures r2 (drop_while p s).
Proof.
  intros Hr2. rewrite captures_Cat.
  change (runs (Rep p 0 None) s)
    with (map (fun n => (take n s, drop n s, @nil jsstring))
              (rev (seq 0 (S (span p s) - 0)))).
  rewrite Nat.sub_0_r, seq_S, rev_app_distr. simpl.
  rewrite drop_span.
  rewrite flat_map_all_nil.
  - rewrite app_nil_r, map_id. done.
  - intros [[m1 s1] g1] Hin. apply in_map_iff in Hin as (k & Heq & Hk).
    injection Heq as <- <- <-. simpl.
    apply in_rev, in_seq in Hk.
    destruct (drop_below_span p s k) as (c & t & -> & Hc); [lia|].
    unfold captures. by rewrite (Hr2 c t Hc).
Qed.

Lemma captures_Cls p r2 s :
  captures (Cat (Cls p) r2) s =
  match s with
  | c :: t => if p c then captures r2 t else []
  | [] => []
  end.
Proof.
  rewrite captures_Cat. simpl. destruct s as [|c t]; [done|].
  destruct (p c); simpl; [|done]. by rewrite app_nil_r, map_id.
Qed.

(** ** The window pattern, read directly

    [take_number] is what [\d{1,2}] takes at the head of a string when
    nothing makes it give a digit back, and [window_prefix] reads the
    whole pattern at the head of a string without backtracking.  The
    lemmas below show that the backtracking matcher finds exactly this. *)

Definition take_number (s : jsstring) : option (jsstring * jsstring) :=
  match s with
  | a :: t =>
      if is_digit a then
        match t with
        | b :: t' => if is_digit b then Some ([a; b], t') else Some ([a], t)
        | [] => Some ([a], [])
        end
      else None
  | [] => None
  end.

Definition window_prefix (s : jsstring) : option (jsstring * jsstring) :=
  match take_number s with
  | Some (d1, s1) =>
      match drop_while is_space s1 with
      | c :: s2 =>
          if is_char hyphen c then
            match take_number (drop_while is_space s2) with
            | Some (d2, _) => Some (d1, d2)
            | None => None
            end
          else None
      | [] => None
      end
  | None => None
  end.

Fixpoint first_window (s : jsstring) : option (jsstring * jsstring) :=
  match window_prefix s with
  | Some x => Some x
  | None =>
      match s with
      | [] => None
      | _ :: t => first_window t
      end
  end.

Definition number_re : regex := Grp (Rep is_digit 1 (Some 2)).

Lemma runs_number s :
  runs number_re s =
  match s with
  | a :: t =>
      if is_digit a then
        match t with
        | b :: t' =>
            if is_digit b
            then [([a; b], t', [[a; b]]); ([a], t, [[a]])]
            else [([a], t, [[a]])]
        | [] => [([a], [], [[a]])]
        end
      else []
  | [] => []
  end.
Proof.
  destruct s as [|a [|b t']]; simpl; unfold rep_top; simpl; [done| |].
  - destruct (is_digit a); done.
  - destruct (is_digit a); [|done]. destruct (is_digit b); done.
Qed.

Lemma head_captures_number s :
  head (captures number_re s) =
  option_map (fun x => [fst x]) (take_number s).
Proof.
  unfold captures. rewrite runs_number.
  destruct s as [|a [|b t']]; simpl; [done| |].
  - destruct (is_digit a); done.
  - destruct (is_digit a); [|done]. destruct (is_digit b); done.
Qed.

Definition window_rest_re : regex :=
  Cat (Rep is_space 0 None)
      (Cat (Cls (is_char hyphen)) (Cat (Rep is_space 0 None) number_re)).

Lemma captures_window_rest u :
  captures window_rest_re u =
  match drop_while is_space u with
  | c :: v =>
      if is_char hyphen c then captures number_re (drop_while is_space v)
      else []
  | [] => []
  end.
Proof.
  unfold window_rest_re. rewrite captures_skip.
  - rewrite captures_Cls. destruct (drop_while is_space u) as [|c v]; [done|].
    destruct (is_char hyphen c); [|done].
    apply captures_skip. intros c' t Hc'.
    rewrite runs_number. by rewrite (space_not_digit c' Hc').
  - intros c t Hc. simpl. by rewrite (space_not_hyphen c Hc).
Qed.

Lemma captures_window_rest_digit b t :
  is_digit b = true -> captures window_rest_re (b :: t) = [].
Proof.
  intros Hb. rewrite captures_window_rest. simpl.
  rewrite (digit_not_space b Hb). by rewrite (digit_not_hyphen b Hb).
Qed.

Lemma head_captures_window s :
  head (captures window_re s) =
  option_map (fun x => [fst x; snd x]) (window_prefix s).
Proof.
  change window_re with (Cat number_re window_rest_re).
  rewrite captures_Cat, runs_number. unfold window_prefix.
  assert (Hone : forall d u,
    head (map (fun g2 => [d] ++ g2) (captures window_rest_re u)) =
    option_map (fun x : jsstring * jsstring => [fst x; snd x])
      match drop_while is_space u with
      | c :: s2 =>
          if is_char hyphen c then
            match take_number (drop_while is_space s2) with
            | Some (d2, _) => Some (d, d2)
            | None => None
            end
          else None
      | [] => None
      end).
  { intros d u. rewrite head_map, captures_window_rest.
    destruct (drop_while is_space u) as [|c v]; [done|].
    destruct (is_char hyphen c); [|done].
    rewrite head_captures_number.
    by destruct (take_number (drop_while is_space v)) as [[d2 r]|]. }
  destruct s as [|a [|b t']]; simpl; [done| |].
  - destruct (is_digit a); simpl; done.
  - destruct (is_digit a); [|done].
    destruct (is_digit b) eqn:Hb; cbn [flat_map fst snd].
    + rewrite (captures_window_rest_digit b t' Hb). cbn [map].
      rewrite !app_nil_r. apply Hone.
    + rewrite app_nil_r. apply Hone.
Qed.

Lemma regex_exec_unfold r s :
  regex_exec r s =
  match head (runs r s) with
  | Some (m, _, g) => Some (m, g)
  | None =>
      match s with
      | [] => None
      | _ :: t => regex_exec r t
      end
  end.
Proof. by destruct s. Qed.

Lemma first_window_unfold s :
  first_window s =
  match window_prefix s with
  | Some x => Some x
  | None =>
      match s with
      | [] => None
      | _ :: t => first_window t
      end
  end.
Proof. by destruct s. Qed.

Lemma regex_exec_window s :
  option_map (fun x => snd x) (regex_exec window_re s) =
  option_map (fun x => [fst x; snd x]) (first_window s).
Proof.
  induction s as [|c t IH];
    rewrite regex_exec_unfold, first_window_unfold;
    match goal with |- context [runs window_re ?u] =>
      pose proof (head_captures_window u) as H end;
    unfold captures in H; rewrite head_map in H;
    destruct (head (runs window_re _)) as [[[m r] g]|];
    destruct (window_prefix _) as [[d1 d2]|]; simpl in H; simpl;
    congruence.
Qed.

(** ** The window pattern, declaratively *)

(** A 1-2 digit number, a run of white space. *)
Definition number12 (d : jsstring) : Prop :=
  (length d = 1 \/ length d = 2)%nat /\ Forall (fun c => is_digit c = true) d.

Definition spaces (ws : jsstring) : Prop :=
  Forall (fun c => is_space c = true) ws.

(** At offset [i] of [s] stands the number [d1], an optionally spaced
    hyphen and the number [d2]. *)
Definition window_text_at (s : jsstring) (i : nat) (d1 d2 : jsstring) : Prop :=
  exists ws1 ws2 tail,
    number12 d1 /\ spaces ws1 /\ spaces ws2 /\ number12 d2 /\
    drop i s = d1 ++ ws1 ++ hyphen :: ws2 ++ d2 ++ tail.

(** The first such substring: nothing of the kind starts further left,
    and the second number is read as far as it goes. *)
Definition first_window_text (s : jsstring) (i : nat) (d1 d2 : jsstring)
  : Prop :=
  window_text_at s i d1 d2 /\
  (forall j e1 e2, (j < i)%nat -> ~ window_text_at s j e1 e2) /\
  (forall e1 e2, window_text_at s i e1 e2 -> (length e2 <= length d2)%nat).

Definition number_value (d : jsstring) : Z :=
  match d with
  | [a] => digit_value a
  | [a; b] => 10 * digit_value a + digit_value b
  | _ => 0
  end.

(** The window that the specification describes for parsed numbers [a] and [b]. *)
Definition corrected_end (a b : Z) : Z :=
  if bool_decide (b <= a /\ a < 12)%Z then (b + 12)%Z else b.

Definition window_of (a b : Z) : option TimeWindow :=
  if bool_decide ((0 <= a <= 23)%Z /\ (1 <= corrected_end a b <= 24)%Z)
  then Some {| w_start := a; w_end := corrected_end a b |}
  else None.

Lemma take_number_sound s d r :
  take_number s = Some (d, r) ->
  number12 d /\ s = d ++ r /\
  (length d = 2%nat \/ match r with c :: _ => is_digit c = false | [] => True end).
Proof.
  unfold take_number, number12. destruct s as [|a [|b t]]; [done| |].
  - destruct (is_digit a) eqn:Ha; [|done]. intros [= <- <-].
    repeat split; auto.
  - destruct (is_digit a) eqn:Ha; [|done].
    destruct (is_digit b) eqn:Hb; intros [= <- <-]; repeat split; auto.
Qed.

Lemma take_number_exact d r :
  number12 d ->
  match r with c :: _ => is_digit c = false | [] => True end ->
  take_number (d ++ r) = Some (d, r).
Proof.
  intros [Hlen Hd] Hr. destruct d as [|a [|b [|? ?]]]; simpl in Hlen; try lia.
  - apply Forall_cons in Hd as [Ha _]. simpl. rewrite Ha.
    destruct r as [|c r]; [done|]. by rewrite Hr.
  - apply Forall_cons in Hd as [Ha Hd]. apply Forall_cons in Hd as [Hb _].
    simpl. by rewrite Ha, Hb.
Qed.

Lemma take_number_extends d r :
  number12 d ->
  exists d' r', take_number (d ++ r) = Some (d', r') /\
                (length d <= length d')%nat /\
                (length d = length d' -> d = d').
Proof.
  intros [Hlen Hd]. destruct d as [|a [|b [|? ?]]]; simpl in Hlen; try lia.
  - apply Forall_cons in Hd as [Ha _]. simpl. rewrite Ha.
    destruct r as [|c r]; [by eauto|].
    destruct (is_digit c); eexists _, _; (split; [done|]); simpl;
      (split; [lia|]); [lia|done].
  - apply Forall_cons in Hd as [Ha Hd]. apply Forall_cons in Hd as [Hb _].
    simpl. rewrite Ha, Hb. eauto.
Qed.

Lemma window_prefix_sound s d1 d2 :
  window_prefix s = Some (d1, d2) -> window_text_at s 0 d1 d2.
Proof.
  unfold window_prefix, window_text_at.
  destruct (take_number s) as [[e1 s1]|] eqn:H1; [|done].
  apply take_number_sound in H1 as (Hn1 & -> & _).
  destruct (drop_while_split is_space s1) as (ws1 & Hws1 & Hs1 & _).
  destruct (drop_while is_space s1) as [|c s2]; [done|].
  destruct (is_char hyphen c) eqn:Hc; [|done]. apply is_char_eq in Hc as ->.
  destruct (drop_while_split is_space s2) as (ws2 & Hws2 & Hs2 & _).
  destruct (take_number (drop_while is_space s2)) as [[e2 s3]|] eqn:H2;
    [|done].
  apply take_number_sound in H2 as (Hn2 & Heq2 & _).
  intros [= <- <-]. exists ws1, ws2, s3.
  refine (conj Hn1 (conj Hws1 (conj Hws2 (conj Hn2 _)))).
  simpl. rewrite Hs1, Hs2. by rewrite Heq2.
Qed.

Lemma window_prefix_complete s e1 e2 :
  window_text_at s 0 e1 e2 ->
  exists d2, window_prefix s = Some (e1, d2) /\
             (length e2 <= length d2)%nat /\
             (length e2 = length d2 -> e2 = d2).
Proof.
  intros (ws1 & ws2 & tail & Hn1 & Hws1 & Hws2 & Hn2 & Heq).
  rewrite drop_0 in Heq. subst s. unfold window_prefix.
  assert (Hnd : forall ws r,
             spaces ws ->
             match ws ++ hyphen :: r with
             | c :: _ => is_digit c = false
             | [] => True
             end).
  { intros ws r Hws. destruct Hws as [|c ws Hc _]; simpl; [done|].
    by apply space_not_digit. }
  rewrite (take_number_exact e1 _ Hn1 (Hnd ws1 _ Hws1)).
  rewrite (drop_while_app is_space ws1 hyphen _ Hws1 eq_refl).
  change (is_char hyphen hyphen) with true. cbv iota.
  destruct Hn2 as [Hlen2 Hd2].
  destruct e2 as [|a e2']; [simpl in Hlen2; lia|].
  rewrite <- app_comm_cons.
  rewrite (drop_while_app is_space ws2 a _ Hws2).
  - rewrite app_comm_cons.
    destruct (take_number_extends (a :: e2') tail (conj Hlen2 Hd2))
      as (d' & r' & -> & Hle & Heq).
    eauto.
  - apply Forall_cons in Hd2 as [Ha _]. by apply digit_not_space.
Qed.

Lemma first_window_Some s x :
  first_window s = Some x ->
  exists i, window_prefix (drop i s) = Some x /\
            forall j, (j < i)%nat -> window_prefix (drop j s) = None.
Proof.
  induction s as [|c t IH]; rewrite first_window_unfold.
  - destruct (window_prefix []) eqn:E; [|done]. intros [= ->].
    exists 0%nat. split; [done|]. intros; lia.
  - destruct (window_prefix (c :: t)) eqn:E.
    + intros [= ->]. exists 0%nat. split; [done|]. intros; lia.
    + intros H. destruct (IH H) as (i & Hi & Hmin). exists (S i).
      split; [done|]. intros [|j] Hj; [done|]. apply Hmin. lia.
Qed.

Lemma first_window_None s :
  first_window s = None -> forall i, window_prefix (drop i s) = None.
Proof.
  induction s as [|c t IH]; rewrite first_window_unfold.
  - intros _ i. by rewrite drop_nil.
  - destruct (window_prefix (c :: t)) eqn:E; [done|].
    intros H [|i]; [done|]. by apply IH.
Qed.

Lemma window_text_at_drop s i d1 d2 :
  window_text_at s i d1 d2 <-> window_text_at (drop i s) 0 d1 d2.
Proof. unfold window_text_at. by rewrite drop_0. Qed.

(** ** [Number] on captured digits *)

Lemma digit_value_range c : is_digit c = true -> (0 <= digit_value c <= 9)%Z.
Proof.
  unfold is_digit, digit_value. intros H. apply andb_prop in H as [H1 H2].
  apply N.leb_le in H1. apply N.leb_le in H2. lia.
Qed.

Lemma Number_number12 d : number12 d -> Number d = Some (number_value d).
Proof.
  intros [Hlen Hd]. unfold Number.
  destruct d as [|a [|b [|? ?]]]; simpl in Hlen; try lia.
  - apply Forall_cons in Hd as [Ha _]. simpl. rewrite Ha. simpl.
    f_equal; lia.
  - apply Forall_cons in Hd as [Ha Hd]. apply Forall_cons in Hd as [Hb _].
    simpl. rewrite Ha, Hb. simpl. f_equal; lia.
Qed.

Lemma fold_digits_nonneg t acc :
  forallb is_digit t = true -> (0 <= acc)%Z ->
  (0 <= fold_left (fun acc c => 10 * acc + digit_value c) t acc)%Z.
Proof.
  revert acc. induction t as [|c t IH]; simpl; intros acc Ht Hacc; [done|].
  apply andb_prop in Ht as [Hc Ht]. apply IH; [done|].
  pose proof (digit_value_range c Hc). lia.
Qed.

Lemma Number_nonneg t v : Number t = Some v -> (0 <= v)%Z.
Proof.
  unfold Number. destruct (forallb is_digit t) eqn:Ht; [|done].
  intros [= <-]. by apply fold_digits_nonneg.
Qed.

(** ** [parseWindow] through the direct reading *)

Definition window_of_texts (d1 d2 : jsstring) : option TimeWindow :=
  match Number d1, Number d2 with
  | Some a, Some b => window_of a b
  | _, _ => None
  end.

Lemma window_of_code (start end0 : Z) :
  (let end1 :=
     if (end0 <=? start)%Z && (start <? 12)%Z then (end0 + 12)%Z else end0 in
   if (start <? 0)%Z || (start >? 23)%Z || (end1 <? 1)%Z || (end1 >? 24)%Z
   then None
   else Some {| w_start := start; w_end := end1 |})
  = window_of start end0.
Proof.
  unfold window_of, corrected_end. cbv zeta.
  destruct (Z.leb_spec end0 start), (Z.ltb_spec start 12); simpl;
    repeat case_bool_decide; try lia;
    repeat match goal with
           | |- context [(?x <? ?y)%Z] => destruct (Z.ltb_spec x y); simpl
           | |- context [(?x >? ?y)%Z] =>
               rewrite (Z.gtb_ltb x y); destruct (Z.ltb_spec y x); simpl
           end; try done; lia.
Qed.

Lemma parseWindow_first_window s :
  parseWindow s =
  match first_window s with
  | Some (d1, d2) => window_of_texts d1 d2
  | None => None
  end.
Proof.
  unfold parseWindow, window_of_texts.
  destruct s as [|c t]; [done|]. cbn [truthy negb].
  pose proof (regex_exec_window (c :: t)) as H.
  destruct (regex_exec window_re (c :: t)) as [[m g]|];
    destruct (first_window (c :: t)) as [[d1 d2]|]; simpl in H; try done.
  injection H as ->.
  destruct (Number d1) as [a|]; [|done]. destruct (Number d2) as [b|]; [|done].
  apply window_of_code.
Qed.

Lemma first_window_text_exists s :
  (exists i d1 d2, window_text_at s i d1 d2) ->
  exists i d1 d2, first_window_text s i d1 d2.
Proof.
  intros (i0 & e1 & e2 & Hat0).
  apply window_text_at_drop, window_prefix_complete in Hat0
    as (d & Hpre0 & _).
  destruct (first_window s) as [[d1 d2]|] eqn:E.
  - apply first_window_Some in E as (i & Hi & Hmin).
    exists i, d1, d2. split; [|split].
    + by apply window_text_at_drop, window_prefix_sound.
    + intros j x1 x2 Hj Hat.
      apply window_text_at_drop, window_prefix_complete in Hat
        as (x & Hpre & _).
      rewrite (Hmin j Hj) in Hpre. done.
    + intros x1 x2 Hat.
      apply window_text_at_drop, window_prefix_complete in Hat
        as (x & Hpre & Hle & _).
      rewrite Hi in Hpre. by injection Hpre as <- <-.
  - rewrite (first_window_None s E i0) in Hpre0. done.
Qed.

(** C1: [parseWindow] reads the first substring made of two 1-2 digit
    numbers around an optionally spaced hyphen, adds 12 to the end
    exactly when end <= start and start < 12, and gives no window when
    there is no such substring or when, after the correction, start is
    outside 0..23 or end is outside 1..24; with the four results the
    specification lists. *)
Theorem parseWindow_first_substring (s : jsstring) :
  ((forall i d1 d2, ~ window_text_at s i d1 d2) -> parseWindow s = None) /\
  (forall i d1 d2,
      first_window_text s i d1 d2 ->
      parseWindow s = window_of (number_value d1) (number_value d2)) /\
  ((exists i d1 d2, window_text_at s i d1 d2) ->
   exists i d1 d2, first_window_text s i d1 d2) /\
  parseWindow (js "9-5") = Some {| w_start := 9; w_end := 17 |} /\
  parseWindow (js "14-16") = Some {| w_start := 14; w_end := 16 |} /\
  parseWindow (js "25-30") = None /\
  parseWindow (js "no numbers here") = None.
Proof.
  split; [|split; [|split]].
  - intros Hnone. rewrite parseWindow_first_window.
    destruct (first_window s) as [[d1 d2]|] eqn:E; [|done].
    apply first_window_Some in E as (i & Hi & _).
    apply window_prefix_sound, window_text_at_drop in Hi.
    by destruct (Hnone i d1 d2).
  - intros i d1 d2 (Hat & Hleft & Hlong).
    rewrite parseWindow_first_window.
    pose proof Hat as Hat0. apply window_text_at_drop in Hat0.
    destruct (window_prefix_complete _ _ _ Hat0) as (d2' & Hpre & Hle & Heq).
    destruct (first_window s) as [[x1 x2]|] eqn:E.
    + apply first_window_Some in E as (i' & Hi' & Hmin).
      assert (i' = i) as ->.
      { destruct (Nat.lt_trichotomy i' i) as [Hlt|[->|Hgt]]; [|done|].
        - apply window_prefix_sound, window_text_at_drop in Hi'.
          by destruct (Hleft i' x1 x2 Hlt).
        - rewrite (Hmin i Hgt) in Hpre. done. }
      rewrite Hpre in Hi'. injection Hi' as <- <-.
      pose proof Hpre as Hsound.
      apply window_prefix_sound, window_text_at_drop in Hsound.
      pose proof (Hlong _ _ Hsound) as Hge.
      rewrite <- (Heq ltac:(lia)).
      destruct Hat as (? & ? & ? & Hn1 & _ & _ & Hn2 & _).
      unfold window_of_texts.
      by rewrite (Number_number12 d1 Hn1), (Number_number12 d2 Hn2).
    + rewrite (first_window_None s E i) in Hpre. done.
  - apply first_window_text_exists.
  - repeat split; vm_compute; reflexivity.
Qed.

Lemma parseWindow_first_substring_witness :
  parseWindow (js " 9-5") = window_of 9 5.
Proof.
  apply (proj1 (proj2 (parseWindow_first_substring (js " 9-5")))
           1%nat (js "9") (js "5")).
  split; [|split].
  - exists [], [], [].
    repeat split; try (left; reflexivity);
      try (repeat constructor).
  - intros j e1 e2 Hj (ws1 & ws2 & tail & [Hl Hd] & _ & _ & _ & Heq).
    destruct e1 as [|a e1]; [simpl in Hl; lia|].
    apply Forall_cons in Hd as [Ha _].
    destruct j as [|j]; [|lia]. simpl in Heq.
    injection Heq as <- _. vm_compute in Ha. discriminate Ha.
  - intros e1 e2 (ws1 & ws2 & tail & [Hl1 _] & _ & _ & _ & Heq).
    apply (f_equal length) in Heq. simpl in Heq.
    rewrite !length_app in Heq. simpl in Heq. rewrite !length_app in Heq.
    change (length (js "5")) with 1%nat. lia.
Defined.

(** ** The order of a parsed window *)

Lemma parseWindow_inv s w :
  parseWindow s = Some w ->
  exists a b,
    (0 <= a)%Z /\ (0 <= b)%Z /\ window_of a b = Some w.
Proof.
  rewrite parseWindow_first_window.
  destruct (first_window s) as [[d1 d2]|]; [|done]. unfold window_of_texts.
  destruct (Number d1) as [a|] eqn:Ha; [|done].
  destruct (Number d2) as [b|] eqn:Hb; [|done].
  intros H. exists a, b.
  eauto using Number_nonneg.
Qed.

(** C2, as the code has it: a returned window lies in the hour ranges,
    and its end is after its start whenever its start is before 12; a
    window that starts at 12 or later is returned as it was written. *)
Theorem parseWindow_end_after_start (s : jsstring) (w : TimeWindow) :
  parseWindow s = Some w ->
  (0 <= w_start w <= 23)%Z /\ (1 <= w_end w <= 24)%Z /\
  ((w_start w < 12)%Z -> (w_start w < w_end w)%Z).
Proof.
  intros H. apply parseWindow_inv in H as (a & b & Ha & Hb & H).
  unfold window_of, corrected_end in H.
  repeat case_bool_decide; try done; injection H as <-; simpl; lia.
Qed.

Lemma parseWindow_end_after_start_witness :
  (0 <= 9 <= 23)%Z /\ (1 <= 17 <= 24)%Z /\ ((9 < 12)%Z -> (9 < 17)%Z).
Proof.
  apply (parseWindow_end_after_start (js "9-5")
           {| w_start := 9; w_end := 17 |}).
  vm_compute. reflexivity.
Defined.

(** C2 as stated fails: a window written with a start of 12 or more and
    a smaller end is returned with its end before its start. *)
Lemma parseWindow_end_before_start :
  parseWindow (js "14-10") = Some {| w_start := 14; w_end := 10 |} /\
  ~ (w_end {| w_start := 14; w_end := 10 |}
     > w_start {| w_start := 14; w_end := 10 |})%Z.
Proof. split; [vm_compute; reflexivity | simpl; lia]. Qed.

(** ** Rate limiter *)

(** The rate-limit checks of one identifier at the instants [ts], in
    order: the decisions ([true]: denied) and the table afterwards. *)
Fixpoint checks (ip : jsstring) (ts : list Z)
    (store : gmap (list N) RateLimitEntry)
  : list bool * gmap (list N) RateLimitEntry :=
  match ts with
  | [] => ([], store)
  | now :: ts' =>
      let '(denied, store1) := rateLimit now ip store in
      let '(rest, store2) := checks ip ts' store1 in
      (denied :: rest, store2)
  end.

Lemma checks_cons (ip : jsstring) (now : Z) (ts : list Z)
    (store : gmap (list N) RateLimitEntry) :
  checks ip (now :: ts) store =
  (fst (rateLimit now ip store)
     :: fst (checks ip ts (snd (rateLimit now ip store))),
   snd (checks ip ts (snd (rateLimit now ip store)))).
Proof.
  cbn [checks]. destruct (rateLimit now ip store) as [d st1].
  cbn [fst snd]. by destruct (checks ip ts st1).
Qed.

(** The count of [ip] that is still running at [now]. *)
Definition running_count (now : Z) (ip : jsstring)
    (store : gmap (list N) RateLimitEntry) : Z :=
  match store !! ip with
  | Some e => if bool_decide (now > resetAt e)%Z then 0%Z else count e
  | None => 0%Z
  end.

Lemma rateLimit_fresh (now : Z) (ip : jsstring) (store : gmap (list N) RateLimitEntry) :
  store !! ip = None ->
  rateLimit now ip store =
  (false, <[ip := {| count := 1; resetAt := now + RATE_LIMIT_WINDOW_MS |}]> store).
Proof.
  intros H. unfold rateLimit. rewrite H. simpl.
  destruct (Z.gtb_spec now (now + RATE_LIMIT_WINDOW_MS)); [|done].
  unfold RATE_LIMIT_WINDOW_MS in *. lia.
Qed.

Lemma rateLimit_in_window (now : Z) (ip : jsstring)
    (store : gmap (list N) RateLimitEntry) (e : RateLimitEntry) :
  store !! ip = Some e -> (now <= resetAt e)%Z ->
  rateLimit now ip store =
  ((count e + 1 >? RATE_LIMIT_MAX)%Z,
   <[ip := {| count := count e + 1; resetAt := resetAt e |}]> store).
Proof.
  intros H Hnow. unfold rateLimit. rewrite H. simpl.
  destruct (Z.gtb_spec now (resetAt e)); [lia|done].
Qed.

Lemma rateLimit_expired (now : Z) (ip : jsstring)
    (store : gmap (list N) RateLimitEntry) (e : RateLimitEntry) :
  store !! ip = Some e -> (now > resetAt e)%Z ->
  rateLimit now ip store =
  (false, <[ip := {| count := 1; resetAt := now + RATE_LIMIT_WINDOW_MS |}]> store).
Proof.
  intros H Hnow. unfold rateLimit. rewrite H. simpl.
  destruct (Z.gtb_spec now (resetAt e)); [done|lia].
Qed.

Lemma rateLimit_writes_back (now : Z) (ip : jsstring)
    (store : gmap (list N) RateLimitEntry) :
  exists e,
    snd (rateLimit now ip store) !! ip = Some e /\
    count e = (running_count now ip store + 1)%Z /\
    fst (rateLimit now ip store) = (count e >? RATE_LIMIT_MAX)%Z.
Proof.
  unfold rateLimit, running_count. eexists. simpl. rewrite lookup_insert_eq.
  split; [done|]. split; [|done]. simpl.
  destruct (store !! ip) as [e0|] eqn:E; simpl.
  - case_bool_decide; destruct (Z.gtb_spec now (resetAt e0)); simpl; lia.
  - destruct (Z.gtb_spec now (now + RATE_LIMIT_WINDOW_MS)); simpl; lia.
Qed.

Lemma checks_length (ip : jsstring) (ts : list Z) (store : gmap (list N) RateLimitEntry) :
  length (fst (checks ip ts store)) = length ts.
Proof.
  revert store. induction ts as [|now ts IH]; intros store; [done|].
  rewrite checks_cons. cbn [fst length]. by rewrite IH.
Qed.

Lemma checks_in_window (ip : jsstring) (ts : list Z)
    (store : gmap (list N) RateLimitEntry) (c r : Z) :
  store !! ip = Some {| count := c; resetAt := r |} ->
  Forall (fun t => t <= r)%Z ts ->
  (forall k d, fst (checks ip ts store) !! k = Some d ->
               d = (c + Z.of_nat k + 1 >? RATE_LIMIT_MAX)%Z) /\
  snd (checks ip ts store) !! ip =
    Some {| count := c + Z.of_nat (length ts); resetAt := r |}.
Proof.
  revert store c. induction ts as [|now ts IH]; intros store c Hst Hts.
  - simpl. split; [done|]. rewrite Hst. do 2 f_equal. lia.
  - apply Forall_cons in Hts as [Hnow Hts].
    rewrite checks_cons.
    rewrite (rateLimit_in_window now ip store _ Hst Hnow). cbn [fst snd count resetAt].
    specialize (IH (<[ip := {| count := c + 1; resetAt := r |}]> store)
                  (c + 1)%Z (lookup_insert_eq _ _ _) Hts).
    destruct (checks ip ts _) as [ds st2]. cbn [fst snd length] in *.
    destruct IH as [IHd IHs]. split.
    + intros [|k] d Hk; simpl in Hk.
      * injection Hk as <-. f_equal. lia.
      * rewrite (IHd k d Hk). f_equal. lia.
    + rewrite IHs. do 2 f_equal. lia.
Qed.

(** C3: in a table without an entry for the identifier, checks that all
    land within the 60 seconds opened by the first one are allowed up to
    the 20th and denied from the 21st on; a check after [resetAt] starts
    a new count and is allowed; every check, allowed or denied, leaves
    the counted entry in the table. *)
Theorem rate_limit_window (ip : jsstring) (t0 : Z) (ts : list Z)
    (store : gmap (list N) RateLimitEntry) :
  store !! ip = None ->
  Forall (fun t => t <= t0 + RATE_LIMIT_WINDOW_MS)%Z ts ->
  let run := checks ip (t0 :: ts) store in
  length (fst run) = S (length ts) /\
  (forall k d, fst run !! k = Some d -> d = bool_decide (20 <= k)%nat) /\
  snd run !! ip =
    Some {| count := Z.of_nat (S (length ts));
            resetAt := t0 + RATE_LIMIT_WINDOW_MS |} /\
  (forall now, (now > t0 + RATE_LIMIT_WINDOW_MS)%Z ->
     rateLimit now ip (snd run) =
     (false,
      <[ip := {| count := 1; resetAt := now + RATE_LIMIT_WINDOW_MS |}]>
        (snd run))) /\
  (forall now (table : gmap (list N) RateLimitEntry),
     exists e, snd (rateLimit now ip table) !! ip = Some e /\
               count e = (running_count now ip table + 1)%Z /\
               fst (rateLimit now ip table) = (count e >? RATE_LIMIT_MAX)%Z).
Proof.
  intros Hfresh Hts run.
  assert (Hrun : length (fst run) = S (length ts) /\
    (forall k d, fst run !! k = Some d -> d = bool_decide (20 <= k)%nat) /\
    snd run !! ip =
      Some {| count := Z.of_nat (S (length ts));
              resetAt := t0 + RATE_LIMIT_WINDOW_MS |}).
  { subst run. split; [apply checks_length|].
    rewrite checks_cons, (rateLimit_fresh t0 ip store Hfresh).
    cbn [fst snd].
    pose proof (checks_in_window ip ts
      (<[ip := {| count := 1; resetAt := t0 + RATE_LIMIT_WINDOW_MS |}]> store)
      1 (t0 + RATE_LIMIT_WINDOW_MS) (lookup_insert_eq _ _ _) Hts) as [Hd Hs].
    destruct (checks ip ts _) as [ds st2]. cbn [fst snd] in *. split.
    - intros [|k] d Hk; simpl in Hk.
      + by injection Hk as <-.
      + rewrite (Hd k d Hk). unfold RATE_LIMIT_MAX.
        case_bool_decide; destruct (Z.gtb_spec (1 + Z.of_nat k + 1) 20);
          try done; lia.
    - rewrite Hs. do 2 f_equal. lia. }
  destruct Hrun as (Hlen & Hdec & Hentry).
  split; [done|]. split; [done|]. split; [done|]. split.
  - intros now Hnow. by apply (rateLimit_expired now ip _ _ Hentry).
  - intros now table. apply rateLimit_writes_back.
Qed.

Lemma rate_limit_window_witness :
  let run := checks (js "203.0.113.7") (1000 :: replicate 20 2000)%Z ∅ in
  length (fst run) = 21%nat /\
  snd run !! js "203.0.113.7" = Some {| count := 21; resetAt := 61000 |}.
Proof.
  destruct (rate_limit_window (js "203.0.113.7") 1000%Z (replicate 20 2000%Z) ∅)
    as (Hlen & _ & Hentry & _).
  - apply lookup_empty.
  - apply Forall_replicate. unfold RATE_LIMIT_WINDOW_MS. lia.
  - split; [exact Hlen | exact Hentry].
Defined.

(** ** Chat endpoint: the order of throttling and validation *)

(** The handler rejects the message of [req] (missing, or longer than
    800 code units after trimming). *)
Definition rejects_message (req : ChatRequest) : bool :=
  let message := trim (str_or_empty (message req)) in
  negb (truthy message) || (800 <? length message)%nat.

(** Requests served one after the other by a server with a configured
    completion client; each comes with the outcome its completion call
    would have and with its arrival instant. *)
Fixpoint serve (reqs : list (AiOutcome * Z * ChatRequest))
    (store : gmap (list N) RateLimitEntry)
  : list Response * gmap (list N) RateLimitEntry :=
  match reqs with
  | [] => ([], store)
  | (completion, now, req) :: rest =>
      let '(r, store1) := chat (Some completion) now req store in
      let '(rs, store2) := serve rest store1 in
      (r :: rs, store2)
  end.

Lemma serve_cons (completion : AiOutcome) (now : Z) (req : ChatRequest)
    (rest : list (AiOutcome * Z * ChatRequest))
    (store : gmap (list N) RateLimitEntry) :
  serve ((completion, now, req) :: rest) store =
  (fst (chat (Some completion) now req store)
     :: fst (serve rest (snd (chat (Some completion) now req store))),
   snd (serve rest (snd (chat (Some completion) now req store)))).
Proof.
  cbn [serve]. destruct (chat (Some completion) now req store) as [r st1].
  cbn [fst snd]. by destruct (serve rest st1).
Qed.

Lemma chat_after_rateLimit (completion : AiOutcome) (now : Z)
    (req : ChatRequest) (store : gmap (list N) RateLimitEntry) :
  snd (chat (Some completion) now req store)
    = snd (rateLimit now (client_ip req) store) /\
  (fst (rateLimit now (client_ip req) store) = true ->
   fst (chat (Some completion) now req store)
     = error_response 429 "Rate limit exceeded. Try again soon.") /\
  (fst (rateLimit now (client_ip req) store) = false ->
   rejects_message req = true ->
   status (fst (chat (Some completion) now req store)) = 400%Z).
Proof.
  unfold chat, rejects_message.
  destruct (rateLimit now (client_ip req) store) as [limited st1].
  cbn [fst snd]. destruct limited.
  - split; [done|]. split; [done|]. discriminate.
  - destruct (negb (truthy (trim (str_or_empty (message req))))).
    + split; [done|]. split; [discriminate|done].
    + cbn [orb].
      destruct (800 <? length (trim (str_or_empty (message req))))%nat.
      * split; [done|]. split; [discriminate|done].
      * split; [by destruct completion|]. split; discriminate.
Qed.

Lemma serve_rejected (ip : jsstring)
    (reqs : list (AiOutcome * Z * ChatRequest))
    (store : gmap (list N) RateLimitEntry) (c r : Z) :
  store !! ip = Some {| count := c; resetAt := r |} ->
  Forall (fun x : AiOutcome * Z * ChatRequest =>
            client_ip (snd x) = ip /\ rejects_message (snd x) = true /\
            (snd (fst x) <= r)%Z) reqs ->
  (c + Z.of_nat (length reqs) <= RATE_LIMIT_MAX)%Z ->
  Forall (fun resp => status resp = 400%Z) (fst (serve reqs store)) /\
  snd (serve reqs store) !! ip =
    Some {| count := c + Z.of_nat (length reqs); resetAt := r |}.
Proof.
  revert store c.
  induction reqs as [|[[completion now] req] rest IH]; intros store c Hst Hall Hc.
  - simpl. split; [constructor|]. rewrite Hst. do 2 f_equal. lia.
  - apply Forall_cons in Hall as [(Hip & Hrej & Hnow) Hall].
    cbn [fst snd] in Hip, Hrej, Hnow. cbn [length] in Hc.
    rewrite serve_cons. cbn [fst snd].
    destruct (chat_after_rateLimit completion now req store)
      as (Hstore & _ & H400).
    rewrite Hip in Hstore, H400.
    rewrite (rateLimit_in_window now ip store _ Hst Hnow) in Hstore, H400.
    cbn [fst snd count resetAt] in Hstore, H400.
    rewrite Hstore.
    destruct (IH (<[ip := {| count := c + 1; resetAt := r |}]> store)
                (c + 1)%Z (lookup_insert_eq _ _ _) Hall ltac:(lia))
      as [IHr IHs].
    split.
    + constructor; [|done]. apply H400; [|done].
      destruct (Z.gtb_spec (c + 1) RATE_LIMIT_MAX); [|done].
      unfold RATE_LIMIT_MAX in *. lia.
    + rewrite IHs. cbn [length]. do 2 f_equal. lia.
Qed.

(** C10: with the completion client configured, the handler counts the
    request in the identifier's rate-limit entry before it looks at the
    message: a request whose message is rejected leaves the entry
    counted and is answered 400 (or 429 when the count is already over
    the limit); twenty rejected requests in one window make the next
    request of the identifier in that window a 429. *)
Theorem chat_counts_rejected_messages :
  (forall completion now req (store : gmap (list N) RateLimitEntry),
     rejects_message req = true ->
     exists e,
       snd (chat (Some completion) now req store) !! client_ip req = Some e /\
       count e = (running_count now (client_ip req) store + 1)%Z /\
       status (fst (chat (Some completion) now req store)) =
         (if (count e >? RATE_LIMIT_MAX)%Z then 429 else 400)%Z) /\
  (forall (ip : jsstring) completion0 t0 req0 rest
          (store : gmap (list N) RateLimitEntry) completion now req,
     store !! ip = None ->
     client_ip req0 = ip -> rejects_message req0 = true ->
     Forall (fun x : AiOutcome * Z * ChatRequest =>
               client_ip (snd x) = ip /\ rejects_message (snd x) = true /\
               (snd (fst x) <= t0 + RATE_LIMIT_WINDOW_MS)%Z) rest ->
     length rest = 19%nat ->
     client_ip req = ip -> (now <= t0 + RATE_LIMIT_WINDOW_MS)%Z ->
     let served := serve ((completion0, t0, req0) :: rest) store in
     Forall (fun resp => status resp = 400%Z) (fst served) /\
     fst (chat (Some completion) now req (snd served))
       = error_response 429 "Rate limit exceeded. Try again soon.").
Proof.
  split.
  - intros completion now req store Hrej.
    destruct (rateLimit_writes_back now (client_ip req) store)
      as (e & He & Hcount & Hdec).
    destruct (chat_after_rateLimit completion now req store)
      as (Hstore & H429 & H400).
    exists e. rewrite Hstore. split; [done|]. split; [done|].
    rewrite <- Hdec.
    destruct (fst (rateLimit now (client_ip req) store)).
    + by rewrite H429.
    + by apply H400.
  - intros ip completion0 t0 req0 rest store completion now req
           Hfresh Hip0 Hrej0 Hrest Hlen Hip Hnow served.
    subst served. rewrite serve_cons. cbn [fst snd].
    destruct (chat_after_rateLimit completion0 t0 req0 store)
      as (Hstore0 & _ & H400).
    rewrite Hip0 in Hstore0, H400.
    rewrite (rateLimit_fresh t0 ip store Hfresh) in Hstore0, H400.
    cbn [fst snd] in Hstore0, H400. rewrite Hstore0.
    destruct (serve_rejected ip rest
                (<[ip := {| count := 1;
                            resetAt := t0 + RATE_LIMIT_WINDOW_MS |}]> store)
                1 (t0 + RATE_LIMIT_WINDOW_MS) (lookup_insert_eq _ _ _) Hrest)
      as [Hresp Hentry].
    { rewrite Hlen. unfold RATE_LIMIT_MAX. lia. }
    split.
    + constructor; [by apply H400|done].
    + destruct (chat_after_rateLimit completion now req
                  (snd (serve rest
                     (<[ip := {| count := 1;
                                 resetAt := t0 + RATE_LIMIT_WINDOW_MS |}]>
                        store)))) as (_ & H429 & _).
      apply H429. rewrite Hip.
      rewrite (rateLimit_in_window now ip _ _ Hentry Hnow).
      rewrite Hlen. reflexivity.
Qed.

Lemma chat_counts_rejected_messages_witness :
  let req := {| x_forwarded_for := Some (js "203.0.113.7");
                remoteAddress := None;
                message := Some (js "   ") |} in
  exists e,
    snd (chat (Some (AiResponds None)) 5000 req ∅) !! client_ip req = Some e /\
    count e = (running_count 5000 (client_ip req) ∅ + 1)%Z /\
    status (fst (chat (Some (AiResponds None)) 5000 req ∅)) =
      (if (count e >? RATE_LIMIT_MAX)%Z then 429 else 400)%Z.
Proof.
  exact (proj1 chat_counts_rejected_messages (AiResponds None) 5000%Z
           {| x_forwarded_for := Some (js "203.0.113.7");
              remoteAddress := None;
              message := Some (js "   ") |} ∅ eq_refl).
Defined.

(** ** Walkthrough endpoint *)

(** [String.prototype.toLowerCase] on ASCII text, where it is known
    without the Unicode tables: the letters A-Z go to a-z. *)
Definition ascii_lower (c : N) : N :=
  if ((65 <=? c) && (c <=? 90))%N then (c + 32)%N else c.

Definition toLowerCase_ascii (s : jsstring) : jsstring := map ascii_lower s.

Definition is_ascii (c : N) : bool := (c <? 128)%N.

Definition lowers_ascii (toLowerCase : jsstring -> jsstring) : Prop :=
  forall s, forallb is_ascii s = true -> toLowerCase s = toLowerCase_ascii s.

(** The four properties the handler adds to the report in its answer. *)
Definition notification_fields (userEmail internalEmailError userEmailError : jsstring)
  : list (jsstring * json) :=
  [(js "emailed_to", JStr (if truthy userEmailError then [] else userEmail));
   (js "email_error", JStr userEmailError);
   (js "owner_notified", JBool (negb (truthy internalEmailError)));
   (js "owner_email_error", JStr internalEmailError)].

Lemma obj_set_fresh k v fields :
  forallb (fun kv => negb (str_eqb (fst kv) k)) fields = true ->
  obj_set k v fields = fields ++ [(k, v)].
Proof.
  induction fields as [|[k' v'] rest IH]; simpl; intros H; [done|].
  apply andb_prop in H as [Hk Hrest].
  destruct (str_eqb k' k); [done|]. by rewrite IH.
Qed.

Lemma report_with_notifications (r : LeadReport) (userEmail ierr uerr : jsstring) :
  obj_set (js "owner_email_error") (JStr ierr)
    (obj_set (js "owner_notified") (JBool (negb (truthy ierr)))
       (obj_set (js "email_error") (JStr uerr)
          (obj_set (js "emailed_to")
                   (JStr (if truthy uerr then [] else userEmail))
                   (spread (json_of_report r)))))
  = spread (json_of_report r) ++ notification_fields userEmail ierr uerr.
Proof.
  destruct r as [s e rs n]. unfold json_of_report, spread, notification_fields.
  cbn [summary extracted recommended_services suggested_next_step].
  repeat (rewrite obj_set_fresh; [|vm_compute; reflexivity]).
  by rewrite <- !app_assoc.
Qed.

Lemma obj_get_app k (l1 l2 : list (jsstring * json)) :
  obj_get k (l1 ++ l2) =
  match obj_get k l1 with Some v => Some v | None => obj_get k l2 end.
Proof.
  induction l1 as [|[k' v'] l1 IH]; simpl; [done|].
  by destruct (str_eqb k' k).
Qed.

Lemma obj_get_set_eq k v (fields : list (jsstring * json)) :
  obj_get k (obj_set k v fields) = Some v.
Proof.
  induction fields as [|[k' v'] rest IH]; simpl.
  - unfold str_eqb. by rewrite bool_decide_eq_true_2.
  - destruct (str_eqb k' k) eqn:E; simpl.
    + unfold str_eqb. by rewrite bool_decide_eq_true_2.
    + by rewrite E.
Qed.

Lemma obj_get_set_ne k k' v (fields : list (jsstring * json)) :
  k <> k' -> obj_get k (obj_set k' v fields) = obj_get k fields.
Proof.
  intros Hne. induction fields as [|[k0 v0] rest IH]; simpl.
  - unfold str_eqb. by rewrite bool_decide_eq_false_2.
  - destruct (str_eqb k0 k') eqn:E; simpl.
    + apply bool_decide_eq_true_1 in E as ->.
      unfold str_eqb. by rewrite !bool_decide_eq_false_2.
    + by rewrite IH.
Qed.

(** The [EvSend] events of a trace: the sends that were attempted. *)
Definition sends (events : list Event) : list Event :=
  List.filter (fun e => match e with EvSend _ _ _ _ => true | _ => false end)
              events.

Lemma sends_app (a b : list Event) : sends (a ++ b) = sends a ++ sends b.
Proof. unfold sends. apply List.filter_app. Qed.

(** The error text a send leaves behind. *)
Definition send_error (outcome : SendOutcome) (fallback : string) : jsstring :=
  match outcome with
  | SendOk => []
  | SendThrows msg => message_or msg fallback
  end.

Lemma message_or_truthy msg fallback :
  truthy (js fallback) = true -> truthy (message_or msg fallback) = true.
Proof.
  unfold message_or, or_else. intros H.
  by destruct (truthy (str_or_empty msg)) eqn:E.
Qed.

(** *** Callbacks that do not throw *)

Lemma find_outcome_pure {A} (f : A -> Outcome bool) (g : A -> bool)
    (l : list A) :
  (forall x, In x l -> f x = Returns (g x)) ->
  find_outcome f l = Returns (List.find g l).
Proof.
  induction l as [|x l IH]; intros H; [done|]. simpl.
  rewrite (H x) by (by left). cbn [mbind Outcome_bind].
  destruct (g x); [done|]. apply IH. intros y Hy. apply H. by right.
Qed.

Lemma map_outcome_pure {A B} (f : A -> Outcome B) (g : A -> B) (l : list A) :
  (forall x, In x l -> f x = Returns (g x)) ->
  map_outcome f l = Returns (map g l).
Proof.
  induction l as [|x l IH]; intros H; [done|]. simpl.
  rewrite (H x) by (by left). cbn [mbind Outcome_bind].
  rewrite IH by (intros y Hy; apply H; by right). done.
Qed.

(** An answer of the shape the endpoint documents: an object whose
    [key], [question] and [answer] are strings when present. *)
Definition documented_answer (item : json) : bool :=
  match item with
  | JObj _ =>
      forallb (fun property =>
                 match read_opt property item with
                 | Some (JStr _) | None => true
                 | Some _ => false
                 end)
              ["key"; "question"; "answer"]%string
  | _ => false
  end.

(** A property of an answer when it is a string. *)
Definition text_property (property : string) (item : json)
  : option jsstring :=
  match read_opt property item with
  | Some (JStr s) => Some s
  | _ => None
  end.

Section WalkthroughProperties.

Variable toLowerCase : jsstring -> jsstring.
Variable JSON_parse : jsstring -> option json.
Variable Number_toString : float -> jsstring.
Variable TypeError_message : Thrown -> jsstring.

Local Abbreviation fallback_of answers :=
  (report ← buildFallbackReport toLowerCase Number_toString answers;
   Returns (json_of_report report)).

Local Abbreviation serve env answers :=
  (walkthrough toLowerCase JSON_parse Number_toString TypeError_message
               env (Some answers)).

(** The completion path fails: there is no client, the call throws,
    the text is empty, or neither the text nor its brace-delimited
    substring parses. *)
Definition ai_failed (client : option AiOutcome) : Prop :=
  match client with
  | None => True
  | Some (AiThrows _) => True
  | Some (AiResponds output_text) =>
      let raw := trim (str_or_empty output_text) in
      raw = [] \/
      (JSON_parse raw = None /\
       match regex_exec braces_re raw with
       | Some (m0, _) => JSON_parse m0 = None
       | None => True
       end)
  end.

Lemma fallback_is_object answers :
  (parsed ← fallback_of answers;
   if is_object parsed then Returns parsed else fallback_of answers)
  = fallback_of answers.
Proof.
  by destruct (buildFallbackReport toLowerCase Number_toString answers).
Qed.

Lemma extract_fallback client answers :
  ai_failed client ->
  fst (extract toLowerCase JSON_parse Number_toString client answers)
    = fallback_of answers /\
  sends (snd (extract toLowerCase JSON_parse Number_toString client answers))
    = [] /\
  (client = None ->
   snd (extract toLowerCase JSON_parse Number_toString client answers) = []).
Proof.
  unfold ai_failed, extract. destruct client as [[msg|output_text]|].
  - intros _. cbn [fst snd]. rewrite fallback_is_object.
    repeat split. discriminate.
  - intros H. set (raw := trim (str_or_empty output_text)) in *.
    destruct raw as [|c raw'] eqn:E.
    + cbn [truthy negb fst snd]. rewrite fallback_is_object.
      repeat split. discriminate.
    + destruct H as [H|[H1 H2]]; [done|]. cbn [truthy negb].
      unfold parse_model_output. rewrite H1.
      destruct (regex_exec braces_re (c :: raw')) as [[m0 g]|];
        [rewrite H2|]; cbn [fst snd]; rewrite fallback_is_object;
        repeat split; discriminate.
  - intros _. cbn [fst snd]. rewrite fallback_is_object. repeat split.
Qed.

Lemma extract_sends_nothing client answers :
  sends (snd (extract toLowerCase JSON_parse Number_toString client answers))
  = [].
Proof.
  unfold extract. destruct client as [[msg|output_text]|]; [done| |done].
  destruct (negb (truthy (trim (str_or_empty output_text)))); [done|].
  by destruct (parse_model_output JSON_parse (trim (str_or_empty output_text))).
Qed.

(** The 200 answer: the report with the four notification properties
    written over it. *)
Definition delivered (parsed : json) (userEmail : jsstring)
    (out : jsstring * jsstring * list Event) : Response :=
  {| status := 200;
     body :=
       JObj
         (obj_set (js "owner_email_error") (JStr (fst (fst out)))
         (obj_set (js "owner_notified") (JBool (negb (truthy (fst (fst out)))))
         (obj_set (js "email_error") (JStr (snd (fst out)))
         (obj_set (js "emailed_to")
                  (JStr (if truthy (snd (fst out)) then [] else userEmail))
         (spread parsed))))) |}.

(** The two ways a request with answers ends: everything before the
    notification returns and the answer is a 200, or something throws
    and the answer is the 500 of the outer [catch]. *)
Lemma walkthrough_cases env answers :
  answers <> [] ->
  (exists userEmail parsed texts,
     discover_email toLowerCase Number_toString answers = Returns userEmail /\
     fst (extract toLowerCase JSON_parse Number_toString (ai_client env) answers)
       = Returns parsed /\
     message_texts Number_toString parsed answers = Returns texts /\
     serve env answers
     = (delivered parsed userEmail (dispatch env userEmail),
        snd (extract toLowerCase JSON_parse Number_toString (ai_client env)
                     answers)
        ++ snd (dispatch env userEmail))) \/
  (exists error events,
     serve env answers = walkthrough_failed TypeError_message error events /\
     (events = [] /\
      discover_email toLowerCase Number_toString answers = Throws error \/
      events = snd (extract toLowerCase JSON_parse Number_toString
                            (ai_client env) answers) /\
      exists userEmail,
        discover_email toLowerCase Number_toString answers
          = Returns userEmail /\
        (fst (extract toLowerCase JSON_parse Number_toString (ai_client env)
                      answers) = Throws error \/
         exists parsed,
           fst (extract toLowerCase JSON_parse Number_toString (ai_client env)
                        answers) = Returns parsed /\
           message_texts Number_toString parsed answers = Throws error))).
Proof.
  intros Hne. unfold walkthrough.
  change (default [] (Some answers)) with answers.
  destruct answers as [|a rest]; [done|]. cbn [length Nat.eqb].
  destruct (discover_email toLowerCase Number_toString (a :: rest))
    as [userEmail|error].
  2: { right. exists error, []. split; [done|]. by left. }
  destruct (extract toLowerCase JSON_parse Number_toString (ai_client env)
                    (a :: rest)) as [[parsed|error] events]; cbn [fst snd].
  2: { right. exists error, events. split; [done|]. right. split; [done|].
       exists userEmail. split; [done|]. by left. }
  destruct (message_texts Number_toString parsed (a :: rest))
    as [texts|error] eqn:Htexts.
  2: { right. exists error, events. split; [done|]. right. split; [done|].
       exists userEmail. split; [done|]. right. by exists parsed. }
  left. exists userEmail, parsed, texts.
  split; [done|]. split; [done|]. split; [done|].
  by destruct (dispatch env userEmail) as [[ierr uerr] mail].
Qed.

Lemma walkthrough_failed_status error events :
  status (fst (walkthrough_failed TypeError_message error events)) = 500%Z /\
  sends (snd (walkthrough_failed TypeError_message error events))
    = sends events /\
  exists msg,
    body (fst (walkthrough_failed TypeError_message error events))
      = JObj [(js "error", JStr msg)].
Proof.
  unfold walkthrough_failed. cbn [fst snd status body].
  split; [done|]. split; [|eauto].
  unfold sends. rewrite List.filter_app. simpl. by rewrite app_nil_r.
Qed.

End WalkthroughProperties.

(** ** Answers of the documented shape *)

Lemma or_else_empty (s : jsstring) : or_else s (js "") = s.
Proof. by destruct s. Qed.

(** The services for the three lower-cased texts the code inspects. *)
Definition recommend (pain goal tool : jsstring) : list jsstring :=
  let recommended := [js "AI Strategy Assessment"] in
  let recommended :=
    if includes pain (js "manual") || includes pain (js "spreadsheet")
       || includes tool (js "crm")
    then set_add (js "AI Integration") recommended else recommended in
  let recommended :=
    if includes goal (js "automate") || includes pain (js "repetitive")
       || includes pain (js "admin")
    then set_add (js "Custom AI Development") recommended else recommended in
  let recommended :=
    if includes goal (js "training") || includes pain (js "adoption")
    then set_add (js "AI Training & Enablement") recommended
    else recommended in
  if includes goal (js "support") || includes pain (js "maintenance")
  then set_add (js "Ongoing AI Support") recommended else recommended.

Lemma get_extracted (r : LeadReport) :
  get (js "extracted") (json_of_report r)
  = Some (json_of_extracted (extracted r)).
Proof. destruct r as [s e rs n]. vm_compute. reflexivity. Qed.

Lemma get_services (r : LeadReport) :
  get (js "recommended_services") (json_of_report r)
  = Some (JArr (map JStr (recommended_services r))).
Proof. destruct r as [s e rs n]. reflexivity. Qed.

Lemma get_summary (r : LeadReport) :
  get (js "summary") (json_of_report r) = Some (JStr (summary r)).
Proof. destruct r as [s e rs n]. reflexivity. Qed.

Lemma get_next_step (r : LeadReport) :
  get (js "suggested_next_step") (json_of_report r)
  = Some (JStr (suggested_next_step r)).
Proof. destruct r as [s e rs n]. reflexivity. Qed.

Section DocumentedAnswers.

Variable toLowerCase : jsstring -> jsstring.
Variable Number_toString : float -> jsstring.

Lemma String_or_text (v : option json) (fallback : string) :
  match v with Some (JStr _) | None => True | Some _ => False end ->
  String_or Number_toString v fallback
  = Returns (or_else (str_or_empty match v with
                                   | Some (JStr s) => Some s
                                   | _ => None
                                   end) (js fallback)).
Proof.
  destruct v as [[]|]; try done. intros _.
  unfold String_or, or_value, or_else. cbn [js_truthy str_or_empty].
  by destruct (truthy s).
Qed.

Lemma documented_property (item : json) (property fallback : string) :
  documented_answer item = true ->
  In property ["key"; "question"; "answer"]%string ->
  String_or Number_toString (read_opt property item) fallback
  = Returns (or_else (str_or_empty (text_property property item))
                     (js fallback)).
Proof.
  intros Hdoc Hin. unfold text_property. apply String_or_text.
  destruct item; try done. unfold documented_answer in Hdoc.
  rewrite forallb_forall in Hdoc. specialize (Hdoc property Hin).
  by destruct (read_opt property (JObj fields)) as [[]|].
Qed.

Lemma documented_is_object (item : json) :
  documented_answer item = true -> exists fields, item = JObj fields.
Proof. destruct item; try done. eauto. Qed.

(** On documented answers the lookup is a plain [find]. *)
Lemma findAnswer_documented (answers : list json) (keyword : string) :
  Forall (fun item => documented_answer item = true) answers ->
  findAnswer toLowerCase Number_toString answers keyword
  = Returns
      (List.find
         (fun item =>
            includes (toLowerCase (str_or_empty (text_property "question" item)))
                     (js keyword))
         answers).
Proof.
  intros Hdoc. unfold findAnswer. apply find_outcome_pure.
  intros item Hin. rewrite List.Forall_forall in Hdoc.
  specialize (Hdoc item Hin).
  destruct (documented_is_object item Hdoc) as [fields ->].
  cbn [read mbind Outcome_bind].
  rewrite (documented_property _ "question" "" Hdoc) by (simpl; tauto).
  cbn [mbind Outcome_bind]. by rewrite or_else_empty.
Qed.


Lemma answer_or_unknown_documented (found : option json) :
  (forall item, found = Some item -> documented_answer item = true) ->
  exists s, answer_or_unknown found = JStr s /\ truthy s = true.
Proof.
  intros Hdoc. unfold answer_or_unknown, or_value.
  destruct found as [item|]; [|by exists (js "unknown")].
  specialize (Hdoc item eq_refl).
  destruct (documented_is_object item Hdoc) as [fields ->].
  cbn [js_truthy]. unfold documented_answer in Hdoc.
  rewrite forallb_forall in Hdoc.
  specialize (Hdoc "answer"%string ltac:(simpl; tauto)).
  destruct (read_opt "answer" (JObj fields)) as [[]|];
    try done; try (by exists (js "unknown")).
  cbn [js_truthy]. destruct (truthy s) eqn:Hs; [by exists s|].
  by exists (js "unknown").
Qed.

Lemma toLower_text (s : jsstring) :
  truthy s = true ->
  toLower toLowerCase Number_toString (JStr s) = Returns (toLowerCase s).
Proof.
  intros Hs. unfold toLower, String_or, or_value. cbn [js_truthy].
  by rewrite Hs.
Qed.

(** What [buildFallbackReport] returns when it returns. *)
Lemma buildFallbackReport_returns (answers : list json) (r : LeadReport) :
  buildFallbackReport toLowerCase Number_toString answers = Returns r ->
  exists business team bottleneck tool_item outcome timeline_item budget_item
         pain goal tool,
    findAnswer toLowerCase Number_toString answers "business"
      = Returns business /\
    findAnswer toLowerCase Number_toString answers "team" = Returns team /\
    findAnswer toLowerCase Number_toString answers "bottleneck"
      = Returns bottleneck /\
    findAnswer toLowerCase Number_toString answers "tools"
      = Returns tool_item /\
    findAnswer toLowerCase Number_toString answers "outcome"
      = Returns outcome /\
    findAnswer toLowerCase Number_toString answers "timeline"
      = Returns timeline_item /\
    findAnswer toLowerCase Number_toString answers "budget"
      = Returns budget_item /\
    extracted r
      = {| industry := answer_or_unknown business;
           team_size := answer_or_unknown team;
           pain_points := answer_or_unknown bottleneck;
           tools := answer_or_unknown tool_item;
           goals := answer_or_unknown outcome;
           timeline := answer_or_unknown timeline_item;
           budget := answer_or_unknown budget_item |} /\
    toLower toLowerCase Number_toString (pain_points (extracted r))
      = Returns pain /\
    toLower toLowerCase Number_toString (goals (extracted r)) = Returns goal /\
    toLower toLowerCase Number_toString (tools (extracted r)) = Returns tool /\
    recommended_services r = recommend pain goal tool.
Proof.
  unfold buildFallbackReport.
  destruct (findAnswer _ _ answers "business") as [f1|]; [|done].
  destruct (findAnswer _ _ answers "team") as [f2|]; [|done].
  destruct (findAnswer _ _ answers "bottleneck") as [f3|]; [|done].
  destruct (findAnswer _ _ answers "tools") as [f4|]; [|done].
  destruct (findAnswer _ _ answers "outcome") as [f5|]; [|done].
  destruct (findAnswer _ _ answers "timeline") as [f6|]; [|done].
  destruct (findAnswer _ _ answers "budget") as [f7|]; [|done].
  cbn [mbind Outcome_bind].
  destruct (toLower _ _ (answer_or_unknown f3)) as [pain|] eqn:Hpain; [|done].
  destruct (toLower _ _ (answer_or_unknown f5)) as [goal|] eqn:Hgoal; [|done].
  destruct (toLower _ _ (answer_or_unknown f4)) as [tool|] eqn:Htool; [|done].
  cbn [mbind Outcome_bind].
  destruct (ToString _ (answer_or_unknown f1)) as [t1|]; [|done].
  destruct (ToString _ (answer_or_unknown f6)) as [t6|]; [|done].
  cbn [mbind Outcome_bind]. intros [= <-].
  exists f1, f2, f3, f4, f5, f6, f7, pain, goal, tool.
  cbn [extracted pain_points goals tools recommended_services].
  repeat (split; [done|]). done.
Qed.

End DocumentedAnswers.

(** The seven fields of a report are non-empty strings. *)
Definition text_fields (e : ExtractedFields) : Prop :=
  Forall (fun v => exists s, v = JStr s /\ truthy s = true)
         [industry e; team_size e; pain_points e; tools e; goals e;
          timeline e; budget e].

Lemma details_text (Number_toString : float -> jsstring)
    (e : ExtractedFields) :
  text_fields e ->
  exists details,
    map_outcome
      (fun property : string =>
         String_or Number_toString
                   (get (js property) (json_of_extracted e)) "unknown")
      extracted_properties = Returns details.
Proof.
  destruct e as [v1 v2 v3 v4 v5 v6 v7]. unfold text_fields.
  cbn [industry team_size pain_points tools goals timeline budget].
  rewrite !List.Forall_cons_iff.
  intros ((s1 & -> & T1) & (s2 & -> & T2) & (s3 & -> & T3) & (s4 & -> & T4)
          & (s5 & -> & T5) & (s6 & -> & T6) & (s7 & -> & T7) & _).
  repeat match goal with
         | H : truthy ?s = true |- _ => destruct s; [discriminate H|clear H]
         end.
  vm_compute. eauto.
Qed.

Lemma Array_join_texts (Number_toString : float -> jsstring)
    (separator : jsstring) (l : list jsstring) :
  exists text,
    Array_join Number_toString separator (map JStr l) = Returns text.
Proof.
  unfold Array_join. induction l as [|x l [text IH]]; [by exists []|].
  cbn [map join_with element_text ToString mbind Outcome_bind].
  destruct l as [|y l]; [by exists x|].
  cbn [map] in *. rewrite IH. cbn [mbind Outcome_bind]. eauto.
Qed.

Lemma message_texts_documented (Number_toString : float -> jsstring)
    (r : LeadReport) (answers : list json) :
  text_fields (extracted r) ->
  Forall (fun item => documented_answer item = true) answers ->
  exists texts,
    message_texts Number_toString (json_of_report r) answers = Returns texts.
Proof.
  intros Hfields Hdoc. unfold message_texts, read_opt.
  rewrite get_services, get_summary, get_extracted, get_next_step.
  destruct (Array_join_texts Number_toString (js ", ")
              (recommended_services r))
    as [joined Hjoined].
  assert (Hservices : exists servicesList,
    (if (length (map JStr (recommended_services r)) =? 0)%nat
     then Returns (js "To be discussed")
     else Array_join Number_toString (js ", ")
            (map JStr (recommended_services r)))
    = Returns servicesList).
  { destruct (length _ =? 0)%nat; eauto. }
  destruct Hservices as [servicesList ->]. cbn [mbind Outcome_bind].
  rewrite (String_or_text Number_toString (Some (JStr (summary r))) _ I).
  cbn [mbind Outcome_bind].
  assert (Hdetails : exists details,
    map_outcome
      (fun property : string =>
         String_or Number_toString
           (get (js property)
                (or_value (Some (json_of_extracted (extracted r))) (JObj [])))
           "unknown")
      extracted_properties = Returns details).
  { change (or_value (Some (json_of_extracted (extracted r))) (JObj []))
      with (json_of_extracted (extracted r)).
    apply (details_text Number_toString (extracted r) Hfields). }
  destruct Hdetails as [details ->]. cbn [mbind Outcome_bind].
  rewrite (String_or_text Number_toString
             (Some (JStr (suggested_next_step r))) _ I).
  cbn [mbind Outcome_bind].
  rewrite (map_outcome_pure _
             (fun item =>
                [or_else (str_or_empty (text_property "question" item))
                         (js "unknown");
                 or_else (str_or_empty (text_property "answer" item))
                         (js "unknown")])).
  - cbn [mbind Outcome_bind]. eauto.
  - intros item Hin. rewrite List.Forall_forall in Hdoc.
    specialize (Hdoc item Hin).
    change (get (js "question") item) with (read_opt "question" item).
    change (get (js "answer") item) with (read_opt "answer" item).
    rewrite (documented_property Number_toString item "question" "unknown" Hdoc)
      by (simpl; tauto).
    rewrite (documented_property Number_toString item "answer" "unknown" Hdoc)
      by (simpl; tauto).
    reflexivity.
Qed.

Lemma or_value_text (a : option json) (b : json) :
  match a with Some (JStr _) | None => True | Some _ => False end ->
  (exists s, b = JStr s) -> exists s, or_value a b = JStr s.
Proof.
  intros Ha Hb. unfold or_value. destruct a as [[]|]; try done.
  destruct (js_truthy (JStr s)); eauto.
Qed.

Lemma documented_answer_text (found : option json) :
  (forall item, found = Some item -> documented_answer item = true) ->
  match found ≫= read_opt "answer" with
  | Some (JStr _) | None => True
  | Some _ => False
  end.
Proof.
  intros Hdoc. destruct found as [item|]; [|done].
  specialize (Hdoc item eq_refl). cbn [mbind option_bind].
  destruct (documented_is_object item Hdoc) as [fields ->].
  unfold documented_answer in Hdoc. rewrite forallb_forall in Hdoc.
  specialize (Hdoc "answer"%string ltac:(simpl; tauto)).
  by destruct (read_opt "answer" (JObj fields)) as [[]|].
Qed.

Section DocumentedRequests.

Variable toLowerCase : jsstring -> jsstring.
Variable JSON_parse : jsstring -> option json.
Variable Number_toString : float -> jsstring.
Variable TypeError_message : Thrown -> jsstring.

Local Abbreviation fallback_of answers :=
  (report ← buildFallbackReport toLowerCase Number_toString answers;
   Returns (json_of_report report)).

Local Abbreviation serve env answers :=
  (walkthrough toLowerCase JSON_parse Number_toString TypeError_message
               env (Some answers)).

Lemma buildFallbackReport_documented (answers : list json) :
  Forall (fun item => documented_answer item = true) answers ->
  exists r,
    buildFallbackReport toLowerCase Number_toString answers = Returns r /\
    text_fields (extracted r).
Proof.
  intros Hdoc.
  assert (Hfound : forall keyword : string,
    exists s,
      answer_or_unknown
        (List.find
           (fun item =>
              includes (toLowerCase (str_or_empty (text_property "question" item)))
                       (js keyword))
           answers) = JStr s /\ truthy s = true).
  { intros keyword. apply answer_or_unknown_documented.
    intros item Hitem. apply find_some in Hitem as [Hin _].
    rewrite List.Forall_forall in Hdoc. by apply Hdoc. }
  unfold buildFallbackReport.
  rewrite !(findAnswer_documented toLowerCase Number_toString answers _ Hdoc).
  cbn [mbind Outcome_bind].
  destruct (Hfound "business"%string) as (s1 & -> & T1).
  destruct (Hfound "team"%string) as (s2 & -> & T2).
  destruct (Hfound "bottleneck"%string) as (s3 & -> & T3).
  destruct (Hfound "tools"%string) as (s4 & -> & T4).
  destruct (Hfound "outcome"%string) as (s5 & -> & T5).
  destruct (Hfound "timeline"%string) as (s6 & -> & T6).
  destruct (Hfound "budget"%string) as (s7 & -> & T7).
  rewrite !toLower_text by done. cbn [mbind Outcome_bind ToString].
  eexists. split; [reflexivity|]. unfold text_fields.
  cbn [extracted industry team_size pain_points tools goals timeline budget].
  repeat constructor; eauto.
Qed.

Lemma discover_email_documented (answers : list json) :
  Forall (fun item => documented_answer item = true) answers ->
  exists userEmail,
    discover_email toLowerCase Number_toString answers = Returns userEmail.
Proof.
  intros Hdoc. unfold discover_email.
  assert (Hin : forall item, In item answers -> documented_answer item = true).
  { by rewrite List.Forall_forall in Hdoc. }
  rewrite (find_outcome_pure
             (fun item =>
                s ← String_or Number_toString (read_opt "key" item) "";
                Returns (str_eqb (toLowerCase s) (js "email")))
             (fun item =>
                str_eqb (toLowerCase
                           (or_else (str_or_empty (text_property "key" item))
                                    (js "")))
                        (js "email"))).
  2: { intros item Hitem. cbv beta.
       rewrite (documented_property Number_toString item "key" "" (Hin item Hitem))
         by (simpl; tauto). reflexivity. }
  rewrite (find_outcome_pure
             (fun item =>
                s ← String_or Number_toString (read_opt "question" item) "";
                Returns (includes (toLowerCase s) (js "email")))
             (fun item =>
                includes (toLowerCase
                            (or_else (str_or_empty (text_property "question" item))
                                     (js "")))
                         (js "email"))).
  2: { intros item Hitem. cbv beta.
       rewrite (documented_property Number_toString item "question" ""
                  (Hin item Hitem)) by (simpl; tauto). reflexivity. }
  rewrite (find_outcome_pure
             (fun item =>
                s ← String_or Number_toString (read_opt "answer" item) "";
                Returns (regex_test email_re s))
             (fun item =>
                regex_test email_re
                  (or_else (str_or_empty (text_property "answer" item))
                           (js "")))).
  2: { intros item Hitem. cbv beta.
       rewrite (documented_property Number_toString item "answer" ""
                  (Hin item Hitem)) by (simpl; tauto). reflexivity. }
  cbn [mbind Outcome_bind].
  match goal with
  | |- context [or_value (?a ≫= _) (or_value (?b ≫= _) (or_value (?c ≫= _) _))] =>
      assert (Ha : forall item, a = Some item -> documented_answer item = true)
        by (intros item Hitem; apply find_some in Hitem as [Hitem _]; auto);
      assert (Hb : forall item, b = Some item -> documented_answer item = true)
        by (intros item Hitem; apply find_some in Hitem as [Hitem _]; auto);
      assert (Hc : forall item, c = Some item -> documented_answer item = true)
        by (intros item Hitem; apply find_some in Hitem as [Hitem _]; auto);
      destruct (or_value_text (a ≫= read_opt "answer")
                  (or_value (b ≫= read_opt "answer")
                     (or_value (c ≫= read_opt "answer") (JStr []))))
        as [s Hs];
        [by apply documented_answer_text
        |apply or_value_text; [by apply documented_answer_text|];
         apply or_value_text; [by apply documented_answer_text|eauto]
        |]
  end.
  rewrite Hs. cbn [ToString mbind Outcome_bind]. eauto.
Qed.

(** With documented answers nothing in the handler throws on the
    fallback path: the answer is a 200 that carries the fallback report
    and the four notification properties. *)
Lemma walkthrough_fallback env answers :
  answers <> [] ->
  Forall (fun item => documented_answer item = true) answers ->
  fst (extract toLowerCase JSON_parse Number_toString (ai_client env) answers)
    = fallback_of answers ->
  exists report userEmail,
    buildFallbackReport toLowerCase Number_toString answers = Returns report /\
    discover_email toLowerCase Number_toString answers = Returns userEmail /\
    serve env answers
    = ({| status := 200;
          body :=
            JObj (spread (json_of_report report)
                  ++ notification_fields userEmail
                       (fst (fst (dispatch env userEmail)))
                       (snd (fst (dispatch env userEmail)))) |},
       snd (extract toLowerCase JSON_parse Number_toString (ai_client env)
                    answers)
       ++ snd (dispatch env userEmail)).
Proof.
  intros Hne Hdoc Hextract.
  destruct (buildFallbackReport_documented answers Hdoc)
    as (report & Hreport & Hfields).
  destruct (discover_email_documented answers Hdoc) as [userEmail Hemail].
  destruct (message_texts_documented Number_toString report answers
              Hfields Hdoc)
    as [texts Htexts].
  exists report, userEmail. split; [done|]. split; [done|].
  rewrite Hreport in Hextract. cbn [mbind Outcome_bind] in Hextract.
  unfold walkthrough. change (default [] (Some answers)) with answers.
  destruct answers as [|a rest]; [done|]. cbn [length Nat.eqb].
  rewrite Hemail.
  destruct (extract toLowerCase JSON_parse Number_toString (ai_client env)
                    (a :: rest)) as [parsed events].
  cbn [fst snd] in *. subst parsed. rewrite Htexts.
  destruct (dispatch env userEmail) as [[ierr uerr] mail]. cbn [fst snd].
  by rewrite report_with_notifications.
Qed.

End DocumentedRequests.

(** ** The fallback path *)

(** Stand-ins for the engine's [Number.prototype.toString] and for the
    messages of its [TypeError]s where a concrete request is run. *)
Definition sample_number_text (x : float) : jsstring := js "0".

Definition sample_error_message (error : Thrown) : jsstring :=
  match error with
  | ReadOfNull property =>
      js "Cannot read properties of null (reading '" ++ js property ++ js "')"
  | NotConvertible => js "Cannot convert object to primitive value"
  end.

Section FallbackPath.

Variable toLowerCase : jsstring -> jsstring.
Variable JSON_parse : jsstring -> option json.
Variable Number_toString : float -> jsstring.
Variable TypeError_message : Thrown -> jsstring.

Local Abbreviation serve env answers :=
  (walkthrough toLowerCase JSON_parse Number_toString TypeError_message
               env (Some answers)).

(** C4, where the code departs from it: [buildFallbackReport] reads
    [item.question] without the optional chaining of the other lookups.
    When the first answer is [null] and the completion path fails, the
    fallback throws, the endpoint answers 500 with an [error] and
    nothing is sent, whatever the other answers and the surroundings
    are. *)
Theorem walkthrough_null_answer env rest :
  ai_failed JSON_parse (ai_client env) ->
  status (fst (serve env (JNull :: rest))) = 500%Z /\
  sends (snd (serve env (JNull :: rest))) = [] /\
  (exists msg,
     body (fst (serve env (JNull :: rest))) = JObj [(js "error", JStr msg)]) /\
  (forall userEmail,
     discover_email toLowerCase Number_toString (JNull :: rest)
       = Returns userEmail ->
     body (fst (serve env (JNull :: rest)))
     = JObj [(js "error",
              JStr (message_or
                      (Some (TypeError_message (ReadOfNull "question")))
                      "Walkthrough service error."))]).
Proof.
  intros Hfail.
  assert (Hthrows :
    fst (extract toLowerCase JSON_parse Number_toString (ai_client env)
                 (JNull :: rest)) = Throws (ReadOfNull "question")).
  { by rewrite (proj1 (extract_fallback toLowerCase JSON_parse Number_toString
                         (ai_client env) (JNull :: rest) Hfail)). }
  destruct (walkthrough_cases toLowerCase JSON_parse Number_toString
              TypeError_message env (JNull :: rest) ltac:(done))
    as [(u & parsed & texts & _ & Hparsed & _)|(error & events & -> & Hev)];
    [congruence|].
  destruct (walkthrough_failed_status TypeError_message error events)
    as (Hstatus & Hsends & Hbody).
  split; [done|]. split; [|split; [done|]].
  - rewrite Hsends. destruct Hev as [[-> _]|[-> _]]; [done|].
    apply extract_sends_nothing.
  - intros userEmail Hemail.
    destruct Hev as [[_ Hd]|[_ (u & _ & [Hx|(parsed & Hx & _)])]];
      [congruence| |congruence].
    rewrite Hthrows in Hx. by injection Hx as <-.
Qed.

(** With answers of the documented shape the fallback path never
    fails: without a non-empty array of answers the endpoint answers
    400; with one, whenever the completion path fails (no client, a
    throwing call, an empty text, a text that does not parse at either
    attempt) the endpoint answers 200 with the fallback report and the
    four notification properties, having sent what the notification
    block sends. *)
Theorem walkthrough_fallback_documented :
  (forall env,
     fst (walkthrough toLowerCase JSON_parse Number_toString TypeError_message
                      env None)
       = error_response 400 "Answers are required." /\
     fst (serve env []) = error_response 400 "Answers are required.") /\
  (forall env answers,
     answers <> [] ->
     Forall (fun item => documented_answer item = true) answers ->
     ai_failed JSON_parse (ai_client env) ->
     exists report userEmail,
       buildFallbackReport toLowerCase Number_toString answers
         = Returns report /\
       discover_email toLowerCase Number_toString answers
         = Returns userEmail /\
       fst (serve env answers) =
       {| status := 200;
          body :=
            JObj (spread (json_of_report report)
                  ++ notification_fields userEmail
                       (fst (fst (dispatch env userEmail)))
                       (snd (fst (dispatch env userEmail)))) |} /\
       sends (snd (serve env answers)) = sends (snd (dispatch env userEmail))).
Proof.
  split; [intros env; split; reflexivity|].
  intros env answers Hne Hdoc Hfail.
  destruct (extract_fallback toLowerCase JSON_parse Number_toString
              (ai_client env) answers Hfail) as (Hextract & Hsends & _).
  destruct (walkthrough_fallback toLowerCase JSON_parse Number_toString
              TypeError_message env answers Hne Hdoc Hextract)
    as (report & userEmail & Hreport & Hemail & ->).
  exists report, userEmail. cbn [fst snd].
  repeat (split; [done|]). by rewrite sends_app, Hsends.
Qed.

End FallbackPath.

Lemma walkthrough_null_answer_witness :
  let env := {| ai_client := None; resendApiKey := Some (js "re_key");
                new_Date := fun _ => 1700000000000%Z;
                owner_send := SendOk; owner_token := js "0b6c3f0e";
                user_send := SendOk; user_token := js "7a1d9c42" |} in
  status (fst (walkthrough toLowerCase_ascii (fun _ => None)
                 sample_number_text sample_error_message env (Some [JNull])))
    = 500%Z /\
  sends (snd (walkthrough toLowerCase_ascii (fun _ => None)
                sample_number_text sample_error_message env (Some [JNull])))
    = [].
Proof.
  intros env.
  destruct (walkthrough_null_answer toLowerCase_ascii (fun _ => None)
              sample_number_text sample_error_message env [] I)
    as (Hstatus & Hsends & _).
  by split.
Defined.

Lemma walkthrough_fallback_documented_witness :
  let env := {| ai_client := Some (AiResponds (Some (js "Sorry, no JSON today.")));
                resendApiKey := None;
                new_Date := fun _ => 1700000000000%Z;
                owner_send := SendOk; owner_token := [];
                user_send := SendOk; user_token := [] |} in
  let answers :=
    [JObj [(js "question", JStr (js "What's your biggest bottleneck?"));
           (js "answer", JStr (js "manual data entry in spreadsheets"))]] in
  exists report userEmail,
    buildFallbackReport toLowerCase_ascii sample_number_text answers
      = Returns report /\
    discover_email toLowerCase_ascii sample_number_text answers
      = Returns userEmail /\
    fst (walkthrough toLowerCase_ascii (fun _ => None) sample_number_text
                     sample_error_message env (Some answers)) =
    {| status := 200;
       body :=
         JObj (spread (json_of_report report)
               ++ notification_fields userEmail
                    (fst (fst (dispatch env userEmail)))
                    (snd (fst (dispatch env userEmail)))) |} /\
    sends (snd (walkthrough toLowerCase_ascii (fun _ => None)
                  sample_number_text sample_error_message env (Some answers)))
      = sends (snd (dispatch env userEmail)).
Proof.
  intros env answers.
  apply (proj2 (walkthrough_fallback_documented toLowerCase_ascii
                  (fun _ => None) sample_number_text sample_error_message)
               env answers).
  - discriminate.
  - repeat constructor.
  - right. split; [reflexivity|]. vm_compute. exact I.
Defined.

(** ** Extracted fields *)


(** The properties the handler writes over the report in its answer. *)
Definition notification_keys : list jsstring :=
  map js ["emailed_to"; "email_error"; "owner_notified";
          "owner_email_error"]%string.

(** A stand-in for [JSON.parse] that knows one text: ["{}"] is the
    empty object. *)
Definition parse_empty_object (s : jsstring) : option json :=
  if str_eqb s (js "{}") then Some (JObj []) else None.

Lemma get_delivered (k : jsstring) (parsed : json) (userEmail : jsstring)
    (out : jsstring * jsstring * list Event) :
  ~ In k notification_keys ->
  get k (body (delivered parsed userEmail out)) = obj_get k (spread parsed).
Proof.
  intros Hk. unfold delivered. cbn [body get].
  rewrite !obj_get_set_ne; [done|..]; intros ->; apply Hk; simpl; tauto.
Qed.

Section ExtractedProperties.

Variable toLowerCase : jsstring -> jsstring.
Variable JSON_parse : jsstring -> option json.
Variable Number_toString : float -> jsstring.
Variable TypeError_message : Thrown -> jsstring.

Local Abbreviation serve env answers :=
  (walkthrough toLowerCase JSON_parse Number_toString TypeError_message
               env (Some answers)).



End ExtractedProperties.



(** ** Notification dispatch *)

Section NotificationProperties.

Variable toLowerCase : jsstring -> jsstring.
Variable JSON_parse : jsstring -> option json.
Variable Number_toString : float -> jsstring.
Variable TypeError_message : Thrown -> jsstring.

(** C8: without a mail provider key nothing is sent and both error
    fields say so; with a key the internal message is always attempted,
    the user's message is attempted exactly when an address was
    discovered, whatever became of the internal one, and each error field
    reports its own send only.  A request with answers is answered 200 or
    500: a 200 carries these fields after exactly these sends, and a 500
    means that the handler threw before the notification and nothing was
    sent. *)
Theorem notification_dispatch (env : WalkthroughEnv) (userEmail : jsstring) :
  let to_owner :=
    EvSend owner_address internalSubject
           [new_Date env 0%nat; new_Date env 1%nat] (owner_token env) in
  let to_user := EvSend userEmail emailSubject [] (user_token env) in
  (truthy (str_or_empty (resendApiKey env)) = false ->
   dispatch env userEmail
   = (js "Missing RESEND_API_KEY.", js "Missing RESEND_API_KEY.", [])) /\
  (truthy (str_or_empty (resendApiKey env)) = true ->
   sends (snd (dispatch env userEmail))
     = to_owner :: (if truthy userEmail then [to_user] else []) /\
   fst (fst (dispatch env userEmail))
     = send_error (owner_send env) "Internal email send failed." /\
   snd (fst (dispatch env userEmail))
     = (if truthy userEmail
        then send_error (user_send env) "User email send failed."
        else js "No user email captured.")) /\
  (forall answers,
     answers <> [] ->
     let result :=
       walkthrough toLowerCase JSON_parse Number_toString TypeError_message
                   env (Some answers) in
     (status (fst result) = 200%Z \/
      status (fst result) = 500%Z /\ sends (snd result) = []) /\
     (status (fst result) = 200%Z ->
      discover_email toLowerCase Number_toString answers = Returns userEmail ->
      get (js "owner_email_error") (body (fst result))
        = Some (JStr (fst (fst (dispatch env userEmail)))) /\
      get (js "email_error") (body (fst result))
        = Some (JStr (snd (fst (dispatch env userEmail)))) /\
      sends (snd result) = sends (snd (dispatch env userEmail)))).
Proof.
  intros to_owner to_user. split; [|split].
  - intros Hkey. unfold dispatch. by rewrite Hkey.
  - intros Hkey. unfold dispatch. rewrite Hkey. cbn [negb].
    destruct (owner_send env) as [|m1]; destruct (truthy userEmail);
      try destruct (user_send env) as [|m2]; done.
  - intros answers Hne result. subst result.
    destruct (walkthrough_cases toLowerCase JSON_parse Number_toString
                TypeError_message env answers Hne)
      as [(u & parsed & texts & Hemail & _ & _ & ->)
         |(error & events & -> & Hev)].
    + cbn [fst snd]. split; [by left|]. intros _ Hu.
      rewrite Hemail in Hu. injection Hu as ->.
      unfold delivered. cbn [body get].
      split; [apply obj_get_set_eq|]. split.
      * rewrite !obj_get_set_ne by (intros H; vm_compute in H; discriminate H).
        apply obj_get_set_eq.
      * by rewrite sends_app, extract_sends_nothing.
    + destruct (walkthrough_failed_status TypeError_message error events)
        as (Hstatus & Hsends & _).
      split; [|intros H; rewrite Hstatus in H; discriminate H].
      right. split; [done|]. rewrite Hsends.
      destruct Hev as [[-> _]|[-> _]]; [done|]. apply extract_sends_nothing.
Qed.

End NotificationProperties.

Lemma notification_dispatch_witness :
  let env := {| ai_client := None;
                resendApiKey := Some (js "re_key");
                new_Date := fun _ => 1700000000000%Z;
                owner_send := SendThrows (Some (js "Resend error: 500 down"));
                owner_token := js "0b6c3f0e";
                user_send := SendOk;
                user_token := js "7a1d9c42" |} in
  sends (snd (dispatch env (js "ada@example.com")))
    = [EvSend owner_address internalSubject
              [1700000000000; 1700000000000]%Z (js "0b6c3f0e");
       EvSend (js "ada@example.com") emailSubject [] (js "7a1d9c42")] /\
  fst (fst (dispatch env (js "ada@example.com")))
    = js "Resend error: 500 down" /\
  snd (fst (dispatch env (js "ada@example.com"))) = [].
Proof.
  exact (proj1 (proj2 (notification_dispatch toLowerCase_ascii (fun _ => None)
           sample_number_text sample_error_message
           {| ai_client := None;
              resendApiKey := Some (js "re_key");
              new_Date := fun _ => 1700000000000%Z;
              owner_send := SendThrows (Some (js "Resend error: 500 down"));
              owner_token := js "0b6c3f0e";
              user_send := SendOk;
              user_token := js "7a1d9c42" |} (js "ada@example.com")))
           eq_refl).
Defined.

(** ** Recommended services of the fallback report *)

Lemma In_set_add (x y : jsstring) (l : list jsstring) :
  In x (set_add y l) <-> x = y \/ In x l.
Proof.
  unfold set_add. destruct (existsb (str_eqb y) l) eqn:E.
  - split; [by right|]. intros [->|H]; [|done].
    apply existsb_exists in E as (z & Hz & Heq).
    apply bool_decide_eq_true_1 in Heq. by subst z.
  - rewrite in_app_iff. simpl. intuition congruence.
Qed.

Lemma In_add_if (c : bool) (x y : jsstring) (l : list jsstring) :
  In x (if c then set_add y l else l) <-> (c = true /\ x = y) \/ In x l.
Proof. destruct c; rewrite ?In_set_add; intuition congruence. Qed.

(** Each service is recommended for its own keywords. *)
Lemma recommend_spec (pain goal tool : jsstring) :
  let recommended := recommend pain goal tool in
  In (js "AI Strategy Assessment") recommended /\
  (In (js "AI Integration") recommended <->
   includes pain (js "manual") = true \/
   includes pain (js "spreadsheet") = true \/
   includes tool (js "crm") = true) /\
  (In (js "Custom AI Development") recommended <->
   includes goal (js "automate") = true \/
   includes pain (js "repetitive") = true \/
   includes pain (js "admin") = true) /\
  (In (js "AI Training & Enablement") recommended <->
   includes goal (js "training") = true \/
   includes pain (js "adoption") = true) /\
  (In (js "Ongoing AI Support") recommended <->
   includes goal (js "support") = true \/
   includes pain (js "maintenance") = true) /\
  (forall s, In s recommended ->
     In s (map js ["AI Strategy Assessment"; "AI Integration";
                   "Custom AI Development"; "AI Training & Enablement";
                   "Ongoing AI Support"]%string)).
Proof.
  intros recommended.
  assert (Hrec : forall s,
    In s recommended <->
    ((includes goal (js "support") || includes pain (js "maintenance") = true
      /\ s = js "Ongoing AI Support") \/
     (includes goal (js "training") || includes pain (js "adoption") = true
      /\ s = js "AI Training & Enablement") \/
     (includes goal (js "automate") || includes pain (js "repetitive")
      || includes pain (js "admin") = true
      /\ s = js "Custom AI Development") \/
     (includes pain (js "manual") || includes pain (js "spreadsheet")
      || includes tool (js "crm") = true
      /\ s = js "AI Integration") \/
     s = js "AI Strategy Assessment")).
  { intros s. subst recommended. unfold recommend. cbv zeta.
    rewrite !In_add_if. simpl In. intuition congruence. }
  repeat split.
  - apply Hrec. by repeat right.
  - intros H. apply Hrec in H.
    destruct H as [[_ H]|[[_ H]|[[_ H]|[[H _]|H]]]];
      try (match type of H with
           | js _ = js _ => vm_compute in H; discriminate H
           end).
    rewrite !orb_true_iff in H. tauto.
  - intros H. apply Hrec. do 3 right. left. split; [|done].
    rewrite !orb_true_iff. tauto.
  - intros H. apply Hrec in H.
    destruct H as [[_ H]|[[_ H]|[[H _]|[[_ H]|H]]]];
      try (match type of H with
           | js _ = js _ => vm_compute in H; discriminate H
           end).
    rewrite !orb_true_iff in H. tauto.
  - intros H. apply Hrec. do 2 right. left. split; [|done].
    rewrite !orb_true_iff. tauto.
  - intros H. apply Hrec in H.
    destruct H as [[_ H]|[[H _]|[[_ H]|[[_ H]|H]]]];
      try (match type of H with
           | js _ = js _ => vm_compute in H; discriminate H
           end).
    rewrite !orb_true_iff in H. tauto.
  - intros H. apply Hrec. right. left. split; [|done].
    rewrite !orb_true_iff. tauto.
  - intros H. apply Hrec in H.
    destruct H as [[H _]|[[_ H]|[[_ H]|[[_ H]|H]]]];
      try (match type of H with
           | js _ = js _ => vm_compute in H; discriminate H
           end).
    rewrite !orb_true_iff in H. tauto.
  - intros H. apply Hrec. left. split; [|done].
    rewrite !orb_true_iff. tauto.
  - intros s H. apply Hrec in H. simpl. intuition congruence.
Qed.

Lemma find_ext_in {A} (f g : A -> bool) (l : list A) :
  (forall x, In x l -> f x = g x) -> List.find f l = List.find g l.
Proof.
  induction l as [|a l IH]; simpl; intros H; [done|].
  rewrite <- (H a) by auto. destruct (f a); [done|]. apply IH. auto.
Qed.

(** Answers whose questions and answers are ASCII text. *)
Definition ascii_answers (answers : list json) : Prop :=
  forall item, In item answers ->
    forallb is_ascii (str_or_empty (text_property "question" item)) = true /\
    forallb is_ascii (str_or_empty (text_property "answer" item)) = true.

(** The answer of the specification's example. *)
Definition bottleneck_answer : list json :=
  [JObj [(js "question", JStr (js "What's your biggest bottleneck?"));
         (js "answer", JStr (js "manual data entry in spreadsheets"))]].

Section FallbackServices.

Variable toLowerCase : jsstring -> jsstring.
Variable Number_toString : float -> jsstring.

Lemma answer_or_unknown_text (item : json) :
  documented_answer item = true ->
  answer_or_unknown (Some item)
  = JStr (or_else (str_or_empty (text_property "answer" item)) (js "unknown")).
Proof.
  intros Hdoc. destruct (documented_is_object item Hdoc) as [fields ->].
  unfold answer_or_unknown, text_property, or_value, or_else.
  cbn [js_truthy]. unfold documented_answer in Hdoc.
  rewrite forallb_forall in Hdoc.
  specialize (Hdoc "answer"%string ltac:(simpl; tauto)).
  destruct (read_opt "answer" (JObj fields)) as [[]|]; try done.
  cbn [js_truthy str_or_empty]. by destruct (truthy s).
Qed.

Lemma toLower_ascii (answers : list json) (found : option json) :
  lowers_ascii toLowerCase ->
  Forall (fun item => documented_answer item = true) answers ->
  ascii_answers answers ->
  (forall item, found = Some item -> In item answers) ->
  toLower toLowerCase Number_toString (answer_or_unknown found)
  = toLower toLowerCase_ascii Number_toString (answer_or_unknown found).
Proof.
  intros Hlow Hdoc Hascii Hfound. rewrite List.Forall_forall in Hdoc.
  assert (Htext : exists s,
    answer_or_unknown found = JStr s /\ truthy s = true /\
    forallb is_ascii s = true).
  { destruct found as [item|]; [|by exists (js "unknown")].
    specialize (Hfound item eq_refl).
    rewrite (answer_or_unknown_text item (Hdoc item Hfound)).
    eexists. split; [reflexivity|]. unfold or_else.
    destruct (truthy (str_or_empty (text_property "answer" item))) eqn:E;
      [|done].
    split; [done|]. apply (Hascii item Hfound). }
  destruct Htext as (s & -> & Hs & Hascii_s).
  rewrite !toLower_text by done. by rewrite Hlow.
Qed.

Lemma buildFallbackReport_ascii (answers : list json) :
  lowers_ascii toLowerCase ->
  Forall (fun item => documented_answer item = true) answers ->
  ascii_answers answers ->
  buildFallbackReport toLowerCase Number_toString answers
  = buildFallbackReport toLowerCase_ascii Number_toString answers.
Proof.
  intros Hlow Hdoc Hascii. unfold buildFallbackReport.
  rewrite !(findAnswer_documented _ Number_toString answers _ Hdoc).
  assert (Hfind : forall keyword : string,
    List.find
      (fun item =>
         includes (toLowerCase (str_or_empty (text_property "question" item)))
                  (js keyword)) answers
    = List.find
        (fun item =>
           includes (toLowerCase_ascii
                       (str_or_empty (text_property "question" item)))
                    (js keyword)) answers).
  { intros keyword. apply find_ext_in. intros item Hin.
    by rewrite Hlow by apply (Hascii item Hin). }
  rewrite !Hfind. cbn [mbind Outcome_bind].
  rewrite !(toLower_ascii answers _ Hlow Hdoc Hascii)
    by (intros item Hitem; by apply find_some in Hitem as [Hitem _]).
  reflexivity.
Qed.

(** C6, as the code has it: "AI Strategy Assessment" is always
    recommended, and each further service exactly when one of its
    keywords occurs in the lower-cased field the code looks it up in
    (pain points for manual, spreadsheet, repetitive, admin, adoption and
    maintenance; goals for automate, training and support; tools for
    crm); nothing else is recommended.  For the answer on manual data
    entry in spreadsheets the report recommends both "AI Strategy
    Assessment" and "AI Integration". *)
Theorem fallback_recommended_services (answers : list json) :
  (forall r,
     buildFallbackReport toLowerCase Number_toString answers = Returns r ->
     exists pain goal tool,
       toLower toLowerCase Number_toString (pain_points (extracted r))
         = Returns pain /\
       toLower toLowerCase Number_toString (goals (extracted r))
         = Returns goal /\
       toLower toLowerCase Number_toString (tools (extracted r))
         = Returns tool /\
       let recommended := recommended_services r in
       In (js "AI Strategy Assessment") recommended /\
       (In (js "AI Integration") recommended <->
        includes pain (js "manual") = true \/
        includes pain (js "spreadsheet") = true \/
        includes tool (js "crm") = true) /\
       (In (js "Custom AI Development") recommended <->
        includes goal (js "automate") = true \/
        includes pain (js "repetitive") = true \/
        includes pain (js "admin") = true) /\
       (In (js "AI Training & Enablement") recommended <->
        includes goal (js "training") = true \/
        includes pain (js "adoption") = true) /\
       (In (js "Ongoing AI Support") recommended <->
        includes goal (js "support") = true \/
        includes pain (js "maintenance") = true) /\
       (forall s, In s recommended ->
          In s (map js ["AI Strategy Assessment"; "AI Integration";
                        "Custom AI Development"; "AI Training & Enablement";
                        "Ongoing AI Support"]%string))) /\
  (Forall (fun item => documented_answer item = true) answers ->
   exists r,
     buildFallbackReport toLowerCase Number_toString answers = Returns r) /\
  (lowers_ascii toLowerCase ->
   exists example,
     buildFallbackReport toLowerCase Number_toString bottleneck_answer
       = Returns example /\
     In (js "AI Strategy Assessment") (recommended_services example) /\
     In (js "AI Integration") (recommended_services example)).
Proof.
  split; [|split].
  - intros r Hr.
    destruct (buildFallbackReport_returns toLowerCase Number_toString answers
                r Hr)
      as (f1 & f2 & f3 & f4 & f5 & f6 & f7 & pain & goal & tool
          & _ & _ & _ & _ & _ & _ & _ & _ & Hpain & Hgoal & Htool & Hrec).
    exists pain, goal, tool. repeat (split; [done|]).
    cbv zeta. rewrite Hrec. apply recommend_spec.
  - intros Hdoc.
    destruct (buildFallbackReport_documented toLowerCase Number_toString
                answers Hdoc) as (r & Hr & _).
    by exists r.
  - intros Hlow. rewrite (buildFallbackReport_ascii bottleneck_answer Hlow).
    + eexists. split; [vm_compute; reflexivity|].
      split; vm_compute; tauto.
    + repeat constructor.
    + intros item [<-|[]]. split; reflexivity.
Qed.

End FallbackServices.

(** C6 as stated fails: a keyword counts only in the field the code
    looks it up in; "manual" in the goals does not add "AI Integration". *)
Lemma keyword_in_goals_not_recommended :
  let answers :=
    [JObj [(js "question", JStr (js "What outcome do you want?"));
           (js "answer", JStr (js "Less manual work"))]] in
  exists r goal,
    buildFallbackReport toLowerCase_ascii sample_number_text answers
      = Returns r /\
    toLower toLowerCase_ascii sample_number_text (goals (extracted r))
      = Returns goal /\
    includes goal (js "manual") = true /\
    ~ In (js "AI Integration") (recommended_services r).
Proof.
  eexists _, _. split; [vm_compute; reflexivity|].
  split; [vm_compute; reflexivity|].
  vm_compute. split; [reflexivity|]. intros [H|[]]. discriminate H.
Qed.

Lemma fallback_recommended_services_witness :
  exists example,
    buildFallbackReport toLowerCase_ascii sample_number_text bottleneck_answer
      = Returns example /\
    In (js "AI Strategy Assessment") (recommended_services example) /\
    In (js "AI Integration") (recommended_services example).
Proof.
  destruct (fallback_recommended_services toLowerCase_ascii sample_number_text [])
    as (_ & _ & H).
  apply H. intros s _. reflexivity.
Defined.
(** ** Availability broker *)

Lemma filter_none {A} (f : A -> bool) (l : list A) :
  (forall x, In x l -> f x = false) -> List.filter f l = [].
Proof.
  induction l as [|a l IH]; simpl; intros H; [done|].
  rewrite (H a) by auto. apply IH. auto.
Qed.

Section ScheduleProperties.

Variable toLowerCase : jsstring -> jsstring.
Variable Date_parse : jsstring -> option Z.
Variable local_hour : jsstring -> jsstring -> HourProbe.
Variable format_instant : jsstring -> jsstring -> option jsstring.

(** The request passes the configuration and field checks and the
    identity lookup answers with the usable address [userUri], so that
    the handler goes on to list the event types. *)
Definition reaches_event_types (env : ScheduleEnv) (req : ScheduleRequest)
    (userUri : jsstring) : Prop :=
  truthy (str_or_empty (calendlyToken env)) = true /\
  truthy (trim (str_or_empty (sr_name req))) = true /\
  truthy (trim (str_or_empty (sr_email req))) = true /\
  truthy (trim (str_or_empty (sr_goals req))) = true /\
  truthy (trim (str_or_empty (sr_times req))) = true /\
  user_lookup env = FetchOk (Some (Some userUri)) /\
  truthy userUri = true /\
  well_formed_utf16 userUri = true.

(** The event type the handler selects from a non-empty listing. *)
Definition selected_event_type (first : EventType) (more : list EventType)
  : EventType :=
  default first
    (List.find (fun evt =>
                  includes (toLowerCase (str_or_empty (et_name evt)))
                           (js "intro"))
               (first :: more)).

(** The start of the 7-day search range of a request. *)
Definition search_start (env : ScheduleEnv) (req : ScheduleRequest)
  : option Z :=
  if truthy (trim (str_or_empty (sr_startAfter req)))
  then time_clip (Date_parse (trim (str_or_empty (sr_startAfter req))))
  else Some (clock env).

(** C9: when the event-type listing comes back empty the request fails
    with status 500 and the message "No Calendly event types found.";
    when the listing is not empty, the lookups succeed and no slot passes
    the window filter, the answer is a 200 with an empty list of
    suggestions and the summary that invites to try another window; the
    two messages differ. *)
Theorem schedule_no_event_types_vs_no_slots
    (env : ScheduleEnv) (req : ScheduleRequest) (userUri : jsstring) :
  reaches_event_types env req userUri ->
  (forall collection,
     events_lookup env = FetchOk (Some collection) ->
     default [] collection = [] ->
     schedule toLowerCase Date_parse local_hour format_instant env req
     = error_response 500 "No Calendly event types found.") /\
  (forall first more eventTypeUri t0 slots,
     events_lookup env = FetchOk (Some (Some (first :: more))) ->
     et_uri (selected_event_type first more) = Some eventTypeUri ->
     truthy eventTypeUri = true ->
     well_formed_utf16 eventTypeUri = true ->
     search_start env req = Some t0 ->
     (Z.abs (t0 + WEEK_MS) <= MAX_TIME)%Z ->
     available_lookup env = FetchOk (Some slots) ->
     (forall slot,
        In slot (default [] slots) ->
        slotMatchesWindow local_hour (start_time slot)
          (normalizeTimezone toLowerCase (sr_timezone req))
          (parseWindow (trim (str_or_empty (sr_times req)))) = false) ->
     schedule toLowerCase Date_parse local_hour format_instant env req
     = {| status := 200;
          body := JObj [(js "suggestions", JArr []);
                        (js "eventTypeUri", JStr eventTypeUri);
                        (js "summary", JStr (js no_times_summary))] |}) /\
  js "No Calendly event types found." <> js no_times_summary.
Proof.
  intros (Htoken & Hname & Hemail & Hgoals & Htimes & Huser & Huri & Hwf).
  split; [|split].
  - intros collection Hevents Hempty. unfold schedule.
    rewrite Htoken, Hname, Hemail, Hgoals, Htimes, Huser. cbn [negb orb].
    cbn [str_or_empty]. rewrite Huri, Hwf, Hevents. cbn [negb].
    by rewrite Hempty.
  - intros first more eventTypeUri t0 slots Hevents Hsel Htruthy Hwf2
           Hstart Hend Havail Hnone.
    unfold schedule.
    rewrite Htoken, Hname, Hemail, Hgoals, Htimes, Huser. cbn [negb orb].
    cbn [str_or_empty]. rewrite Huri, Hwf, Hevents. cbn [negb].
    change (default [] (Some (first :: more))) with (first :: more).
    cbv beta iota zeta. fold (selected_event_type first more). rewrite Hsel.
    cbn [str_or_empty]. rewrite Htruthy, Hwf2. cbn [negb].
    fold (search_start env req). rewrite Hstart.
    cbn [option_map time_clip].
    destruct (Z.leb_spec (Z.abs (t0 + WEEK_MS)) MAX_TIME) as [_|Hbad]; [|lia].
    rewrite Havail. rewrite (filter_none _ _ Hnone). reflexivity.
  - intros H. vm_compute in H. discriminate H.
Qed.

End ScheduleProperties.

Lemma schedule_no_event_types_vs_no_slots_witness :
  let req := {| sr_name := Some (js "Ada"); sr_email := Some (js "ada@example.com");
                sr_company := None; sr_goals := Some (js "automate intake");
                sr_times := Some (js "9-5"); sr_timezone := Some (js "EST");
                sr_startAfter := None |} in
  let intro := {| et_name := Some (js "Intro Call");
                  et_uri := Some (js "https://api.calendly.com/event_types/E1") |} in
  let env := {| calendlyToken := Some (js "token");
                clock := 1700000000000%Z;
                user_lookup := FetchOk (Some (Some (js "https://api.calendly.com/users/U1")));
                events_lookup := FetchOk (Some (Some [intro]));
                available_lookup :=
                  FetchOk (Some (Some [ {| start_time := js "2023-11-15T01:00:00Z";
                                           end_time := None |} ])) |} in
  schedule toLowerCase_ascii (fun _ => None) (fun _ _ => ProbeHour 20)
           (fun _ _ => None) env req
  = {| status := 200;
       body := JObj [(js "suggestions", JArr []);
                     (js "eventTypeUri",
                      JStr (js "https://api.calendly.com/event_types/E1"));
                     (js "summary", JStr (js no_times_summary))] |}.
Proof.
  intros req intro env.
  destruct (schedule_no_event_types_vs_no_slots toLowerCase_ascii
              (fun _ => None) (fun _ _ => ProbeHour 20) (fun _ _ => None)
              env req (js "https://api.calendly.com/users/U1"))
    as (_ & Hslots & _).
  - repeat split; reflexivity.
  - apply (Hslots intro [] (js "https://api.calendly.com/event_types/E1")
             1700000000000%Z
             (Some [ {| start_time := js "2023-11-15T01:00:00Z";
                        end_time := None |} ])).
    + reflexivity.
    + reflexivity.
    + reflexivity.
    + reflexivity.
    + reflexivity.
    + vm_compute. discriminate.
    + reflexivity.
    + intros slot [<-|[]]. vm_compute. reflexivity.
Defined.

(** * Further properties of the handlers *)

(** ** Chat endpoint: identifiers and the shared table *)

Lemma rateLimit_other (now : Z) (ip ip' : jsstring)
    (store : gmap (list N) RateLimitEntry) :
  ip <> ip' -> snd (rateLimit now ip store) !! ip' = store !! ip'.
Proof. intros Hne. unfold rateLimit. cbn [snd]. by apply lookup_insert_ne. Qed.

Lemma chat_other (client : option AiOutcome) (now : Z) (req : ChatRequest)
    (ip' : jsstring) (store : gmap (list N) RateLimitEntry) :
  client_ip req <> ip' ->
  snd (chat client now req store) !! ip' = store !! ip'.
Proof.
  intros Hne. destruct client as [completion|]; [|done].
  destruct (chat_after_rateLimit completion now req store) as (-> & _).
  by apply rateLimit_other.
Qed.

Lemma chat_keeps_entries (client : option AiOutcome) (now : Z)
    (req : ChatRequest) (ip' : jsstring)
    (store : gmap (list N) RateLimitEntry) :
  is_Some (store !! ip') -> is_Some (snd (chat client now req store) !! ip').
Proof.
  intros Hsome. destruct (decide (client_ip req = ip')) as [<-|Hne].
  - destruct client as [completion|]; [|done].
    destruct (chat_after_rateLimit completion now req store) as (-> & _).
    destruct (rateLimit_writes_back now (client_ip req) store) as (e & -> & _).
    eauto.
  - by rewrite chat_other.
Qed.

(** Serving requests never touches the entry of an identifier that none
    of them carries. *)
Theorem serve_leaves_other_identifiers
    (reqs : list (AiOutcome * Z * ChatRequest)) (ip' : jsstring)
    (store : gmap (list N) RateLimitEntry) :
  Forall (fun x : AiOutcome * Z * ChatRequest => client_ip (snd x) <> ip') reqs ->
  snd (serve reqs store) !! ip' = store !! ip'.
Proof.
  revert store. induction reqs as [|[[completion now] req] rest IH];
    intros store Hall; [done|].
  apply Forall_cons in Hall as [Hne Hall]. cbn [snd] in Hne.
  rewrite serve_cons. cbn [snd]. rewrite (IH _ Hall).
  by apply chat_other.
Qed.

Lemma serve_leaves_other_identifiers_witness :
  snd (serve [(AiResponds None, 1000%Z,
               {| x_forwarded_for := Some (js "203.0.113.7");
                  remoteAddress := None; message := Some (js "hi") |})]
             (<[js "198.51.100.2" := {| count := 3; resetAt := 50000 |}]> ∅))
    !! js "198.51.100.2"
  = (<[js "198.51.100.2" := {| count := 3; resetAt := 50000 |}]> ∅
       : gmap (list N) RateLimitEntry) !! js "198.51.100.2".
Proof.
  apply serve_leaves_other_identifiers.
  repeat constructor. cbn [snd]. vm_compute. discriminate.
Defined.

(** The table is never pruned: an identifier that has an entry keeps
    one, whatever is served afterwards. *)
Theorem serve_never_evicts
    (reqs : list (AiOutcome * Z * ChatRequest)) (ip' : jsstring)
    (store : gmap (list N) RateLimitEntry) :
  is_Some (store !! ip') -> is_Some (snd (serve reqs store) !! ip').
Proof.
  revert store. induction reqs as [|[[completion now] req] rest IH];
    intros store Hsome; [done|].
  rewrite serve_cons. cbn [snd]. apply IH. by apply chat_keeps_entries.
Qed.

Lemma serve_never_evicts_witness :
  is_Some
    (snd (serve [(AiResponds None, 99000%Z,
                  {| x_forwarded_for := Some (js "203.0.113.7");
                     remoteAddress := None; message := Some (js "hi") |})]
                (<[js "198.51.100.2" := {| count := 3; resetAt := 50000 |}]> ∅))
       !! js "198.51.100.2").
Proof.
  apply serve_never_evicts. rewrite lookup_insert_eq. eauto.
Defined.

Lemma chat_not_limited_status (completion : AiOutcome) (now : Z)
    (req : ChatRequest) (store : gmap (list N) RateLimitEntry) :
  fst (rateLimit now (client_ip req) store) = false ->
  status (fst (chat (Some completion) now req store)) <> 429%Z.
Proof.
  unfold chat. destruct (rateLimit now (client_ip req) store) as [limited st1].
  cbn [fst]. intros ->.
  destruct (negb (truthy (trim (str_or_empty (message req))))); [done|].
  destruct (800 <? length (trim (str_or_empty (message req))))%nat; [done|].
  by destruct completion.
Qed.

(** The identifier is whatever the forwarded-address header says:
    requests that each carry an identifier not seen before are never
    answered 429, however many they are. *)
Theorem fresh_identifiers_never_limited
    (reqs : list (AiOutcome * Z * ChatRequest))
    (store : gmap (list N) RateLimitEntry) :
  NoDup (map (fun x : AiOutcome * Z * ChatRequest => client_ip (snd x)) reqs) ->
  Forall (fun x : AiOutcome * Z * ChatRequest =>
            store !! client_ip (snd x) = None) reqs ->
  Forall (fun resp => status resp <> 429%Z) (fst (serve reqs store)).
Proof.
  revert store. induction reqs as [|[[completion now] req] rest IH];
    intros store Hdup Hfresh; [constructor|].
  apply Forall_cons in Hfresh as [Hreq Hfresh]. cbn [snd] in Hreq.
  cbn [map snd] in Hdup. apply NoDup_cons in Hdup as [Hnotin Hdup].
  rewrite serve_cons. cbn [fst]. constructor.
  - apply chat_not_limited_status. by rewrite rateLimit_fresh.
  - apply IH; [done|]. rewrite Forall_forall in Hfresh |- *.
    intros x Hx. rewrite chat_other; [by apply Hfresh|].
    intros Heq. apply Hnotin. rewrite Heq.
    apply list_elem_of_In, in_map_iff. exists x. split; [done|].
    by apply list_elem_of_In.
Qed.

Lemma fresh_identifiers_never_limited_witness :
  Forall (fun resp => status resp <> 429%Z)
    (fst (serve
            [(AiResponds (Some (js "Hello!")), 1000%Z,
              {| x_forwarded_for := Some (js "203.0.113.7");
                 remoteAddress := Some (js "10.0.0.1");
                 message := Some (js "hi") |});
             (AiResponds (Some (js "Hello!")), 1001%Z,
              {| x_forwarded_for := Some (js "203.0.113.8");
                 remoteAddress := Some (js "10.0.0.1");
                 message := Some (js "hi") |})]
            ∅)).
Proof.
  apply fresh_identifiers_never_limited.
  - apply (bool_decide_unpack _). vm_compute. reflexivity.
  - repeat constructor.
Defined.

Lemma or_else_truthy (a b : jsstring) :
  truthy b = true -> truthy (or_else a b) = true.
Proof. unfold or_else. intros H. by destruct (truthy a) eqn:E. Qed.

(** The endpoint answers 200 exactly when a client is configured, the
    identifier is within its quota, the trimmed message is neither empty
    nor longer than 800 code units and the completion call returns; the
    reply it then gives is never empty. *)
Theorem chat_ok_exactly (client : option AiOutcome) (now : Z)
    (req : ChatRequest) (store : gmap (list N) RateLimitEntry) :
  (status (fst (chat client now req store)) = 200%Z <->
   exists output_text,
     client = Some (AiResponds output_text) /\
     fst (rateLimit now (client_ip req) store) = false /\
     rejects_message req = false) /\
  (status (fst (chat client now req store)) = 200%Z ->
   exists reply,
     body (fst (chat client now req store)) = JObj [(js "reply", JStr reply)] /\
     truthy reply = true).
Proof.
  unfold chat, rejects_message. destruct client as [completion|].
  - destruct (rateLimit now (client_ip req) store) as [limited st1].
    cbn [fst]. destruct limited.
    { split; [split; [done|]|done]. by intros (? & _ & ? & _). }
    destruct (negb (truthy (trim (str_or_empty (message req))))).
    { split; [split; [done|]|done]. by intros (? & _ & _ & ?). }
    cbn [orb].
    destruct (800 <? length (trim (str_or_empty (message req))))%nat.
    { split; [split; [done|]|done]. by intros (? & _ & _ & ?). }
    destruct completion as [msg|output_text]; cbn [fst status body].
    + split; [split; [done|]|done]. by intros (? & ? & _).
    + split; [split; [eauto|done]|]. intros _. eexists. split; [done|].
      by apply or_else_truthy.
  - split; [split; [done|]|done]. by intros (? & ? & _).
Qed.

(** ** Time window parser: surrounding text and written windows *)

Definition no_digit (s : jsstring) : Prop :=
  Forall (fun c => is_digit c = false) s.

Definition no_digit_ahead (s : jsstring) : Prop :=
  match s with c :: _ => is_digit c = false | [] => True end.

Lemma first_window_skip (pre s : jsstring) :
  no_digit pre -> first_window (pre ++ s) = first_window s.
Proof.
  induction 1 as [|c pre Hc _ IH]; [done|].
  rewrite <- app_comm_cons, first_window_unfold.
  unfold window_prefix, take_number. by rewrite Hc.
Qed.

(** Text without digits in front of the hours does not change what is
    parsed. *)
Theorem parseWindow_skips_text (pre s : jsstring) :
  no_digit pre -> parseWindow (pre ++ s) = parseWindow s.
Proof.
  intros Hpre. rewrite !parseWindow_first_window.
  by rewrite first_window_skip.
Qed.

Lemma parseWindow_skips_text_witness :
  parseWindow (js "weekdays, " ++ js "9-5") = parseWindow (js "9-5").
Proof.
  apply parseWindow_skips_text. repeat constructor.
Defined.

Lemma window_prefix_exact (d1 ws1 ws2 d2 tail : jsstring) :
  number12 d1 -> spaces ws1 -> spaces ws2 -> number12 d2 ->
  no_digit_ahead tail ->
  window_prefix (d1 ++ ws1 ++ hyphen :: ws2 ++ d2 ++ tail) = Some (d1, d2).
Proof.
  intros Hn1 Hws1 Hws2 Hn2 Htail. unfold window_prefix.
  assert (Hnd : forall ws r,
             spaces ws ->
             match ws ++ hyphen :: r with
             | c :: _ => is_digit c = false
             | [] => True
             end).
  { intros ws r Hws. destruct Hws as [|c ws Hc _]; simpl; [done|].
    by apply space_not_digit. }
  rewrite (take_number_exact d1 _ Hn1 (Hnd ws1 _ Hws1)).
  rewrite (drop_while_app is_space ws1 hyphen _ Hws1 eq_refl).
  change (is_char hyphen hyphen) with true. cbv iota.
  pose proof Hn2 as [Hlen2 Hd2].
  destruct d2 as [|a d2']; [simpl in Hlen2; lia|].
  rewrite <- app_comm_cons.
  rewrite (drop_while_app is_space ws2 a _ Hws2).
  - rewrite app_comm_cons. by rewrite (take_number_exact _ _ Hn2 Htail).
  - apply Forall_cons in Hd2 as [Ha _]. by apply digit_not_space.
Qed.

Lemma decimal_below_100 (n : nat) :
  (n < 100)%nat ->
  decimal n =
  if (n <? 10)%nat then [N.of_nat (48 + n)]
  else [N.of_nat (48 + n / 10); N.of_nat (48 + n mod 10)].
Proof.
  intros Hn. unfold decimal. cbn [decimal_fuel].
  destruct (Nat.ltb_spec n 10) as [Hlt|Hge].
  - by rewrite Nat.mod_small.
  - destruct n as [|n]; [lia|]. cbn [decimal_fuel].
    assert (Hq : (S n / 10 < 10)%nat) by (apply Nat.Div0.div_lt_upper_bound; lia).
    destruct (Nat.ltb_spec (S n / 10) 10) as [_|Hbad]; [|lia].
    by rewrite (Nat.mod_small (S n / 10)).
Qed.

Lemma decimal_number12 (n : nat) :
  (n < 100)%nat ->
  number12 (decimal n) /\ number_value (decimal n) = Z.of_nat n.
Proof.
  intros Hn. rewrite (decimal_below_100 n Hn). unfold number12, is_digit.
  pose proof (Nat.mod_upper_bound n 10 ltac:(lia)) as Hm.
  pose proof (Nat.div_mod_eq n 10) as Hdm.
  destruct (Nat.ltb_spec n 10) as [Hlt|Hge]; cbn [length number_value].
  - split; [split; [by left|]|unfold digit_value; lia].
    repeat constructor. apply andb_true_intro. split; apply N.leb_le; lia.
  - assert (Hq : (n / 10 < 10)%nat) by (apply Nat.Div0.div_lt_upper_bound; lia).
    split; [split; [by right|]|unfold digit_value; lia].
    repeat constructor; apply andb_true_intro; split; apply N.leb_le; lia.
Qed.

(** A window of the day written as two decimal hours around a hyphen is
    read back as it was written, whatever white space surrounds the
    hyphen, whatever text without digits precedes it and whatever
    follows that does not begin with a digit. *)
Theorem parseWindow_reads_written_window
    (a b : nat) (pre ws1 ws2 tail : jsstring) :
  (a < b)%nat -> (b <= 24)%nat ->
  no_digit pre -> spaces ws1 -> spaces ws2 -> no_digit_ahead tail ->
  parseWindow (pre ++ decimal a ++ ws1 ++ hyphen :: ws2 ++ decimal b ++ tail)
  = Some {| w_start := Z.of_nat a; w_end := Z.of_nat b |}.
Proof.
  intros Hab Hb Hpre Hws1 Hws2 Htail.
  destruct (decimal_number12 a ltac:(lia)) as [Hna Hva].
  destruct (decimal_number12 b ltac:(lia)) as [Hnb Hvb].
  rewrite parseWindow_first_window, first_window_skip by done.
  rewrite first_window_unfold.
  rewrite (window_prefix_exact _ _ _ _ _ Hna Hws1 Hws2 Hnb Htail).
  unfold window_of_texts.
  rewrite (Number_number12 _ Hna), (Number_number12 _ Hnb), Hva, Hvb.
  unfold window_of, corrected_end.
  destruct (bool_decide (Z.of_nat b <= Z.of_nat a < 12)%Z) eqn:E;
    [apply bool_decide_eq_true_1 in E; lia|].
  by rewrite bool_decide_eq_true_2 by lia.
Qed.

Lemma parseWindow_reads_written_window_witness :
  parseWindow (js "from " ++ decimal 8 ++ js " " ++ hyphen :: js "  "
               ++ decimal 13 ++ js "h")
  = Some {| w_start := 8; w_end := 13 |}.
Proof.
  apply (parseWindow_reads_written_window 8 13 (js "from ") (js " ")
           (js "  ") (js "h")); try lia; repeat constructor.
Defined.

(** ** Availability broker: what a successful answer holds *)

Lemma List_filter_sublist {A} (f : A -> bool) (l : list A) :
  sublist (List.filter f l) l.
Proof.
  induction l as [|a l IH]; simpl; [constructor|].
  destruct (f a); by constructor.
Qed.

Lemma List_filter_all {A} (f : A -> bool) (l : list A) :
  (forall x, In x l -> f x = true) -> List.filter f l = l.
Proof.
  induction l as [|a l IH]; simpl; intros H; [done|].
  rewrite (H a) by auto. f_equal. apply IH. auto.
Qed.

Section ScheduleAnswers.

Variable toLowerCase : jsstring -> jsstring.
Variable Date_parse : jsstring -> option Z.
Variable local_hour : jsstring -> jsstring -> HourProbe.
Variable format_instant : jsstring -> jsstring -> option jsstring.

(** Every step before the filtering succeeds: the request is complete,
    the identity and event-type lookups answer, the selected event type
    has the address [eventTypeUri], the search range is a valid pair of
    dates and the availability lookup answers with [slots]. *)
Definition slots_offered (env : ScheduleEnv) (req : ScheduleRequest)
    (eventTypeUri : jsstring) (slots : list Slot) : Prop :=
  exists userUri first more t0 collection,
    reaches_event_types env req userUri /\
    events_lookup env = FetchOk (Some (Some (first :: more))) /\
    et_uri (selected_event_type toLowerCase first more) = Some eventTypeUri /\
    truthy eventTypeUri = true /\
    well_formed_utf16 eventTypeUri = true /\
    search_start Date_parse env req = Some t0 /\
    (Z.abs (t0 + WEEK_MS) <= MAX_TIME)%Z /\
    available_lookup env = FetchOk (Some collection) /\
    slots = default [] collection.

(** The window and the zone the filter of a request works with. *)
Definition request_window (req : ScheduleRequest) : option TimeWindow :=
  parseWindow (trim (str_or_empty (sr_times req))).

Definition request_zone (req : ScheduleRequest) : Timezone :=
  normalizeTimezone toLowerCase (sr_timezone req).

Definition slot_passes (req : ScheduleRequest) (slot : Slot) : bool :=
  slotMatchesWindow local_hour (start_time slot) (request_zone req)
                    (request_window req).

(** The answer that carries the suggestions [chosen]. *)
Definition offer (req : ScheduleRequest) (eventTypeUri : jsstring)
    (chosen : list Slot) : Response :=
  {| status := 200;
     body :=
       JObj [(js "suggestions",
              JArr (map (suggestion format_instant (request_zone req)) chosen));
             (js "eventTypeUri", JStr eventTypeUri);
             (js "summary",
              JStr (js (match chosen with
                        | [] => no_times_summary
                        | _ :: _ => "Here are a few available times."
                        end)))] |}.

Lemma schedule_offers env req eventTypeUri slots :
  slots_offered env req eventTypeUri slots ->
  schedule toLowerCase Date_parse local_hour format_instant env req
  = offer req eventTypeUri (take 3 (List.filter (slot_passes req) slots)).
Proof.
  intros (userUri & first & more & t0 & collection
          & (Htoken & Hname & Hemail & Hgoals & Htimes & Huser & Huri & Hwf)
          & Hevents & Hsel & Htruthy & Hwf2 & Hstart & Hend & Havail & ->).
  unfold schedule.
  rewrite Htoken, Hname, Hemail, Hgoals, Htimes, Huser. cbn [negb orb].
  cbn [str_or_empty]. rewrite Huri, Hwf, Hevents. cbn [negb].
  change (default [] (Some (first :: more))) with (first :: more).
  cbv beta iota zeta. fold (selected_event_type toLowerCase first more).
  rewrite Hsel. cbn [str_or_empty]. rewrite Htruthy, Hwf2. cbn [negb].
  fold (search_start Date_parse env req). rewrite Hstart.
  cbn [option_map time_clip].
  destruct (Z.leb_spec (Z.abs (t0 + WEEK_MS)) MAX_TIME) as [_|Hbad]; [|lia].
  rewrite Havail. unfold offer. f_equal. f_equal.
  fold (request_zone req). fold (request_window req).
  change (fun slot : Slot =>
            slotMatchesWindow local_hour (start_time slot) (request_zone req)
                              (request_window req))
    with (slot_passes req).
  by destruct (take 3 (List.filter (slot_passes req) (default [] collection))).
Qed.

(** A successful answer suggests at most three slots; they are slots of
    the calendar's reply in the calendar's order, each passes the hour
    filter, and when fewer than three are suggested no passing slot was
    left out. *)
Theorem schedule_suggestions env req eventTypeUri slots :
  slots_offered env req eventTypeUri slots ->
  exists chosen,
    schedule toLowerCase Date_parse local_hour format_instant env req
      = offer req eventTypeUri chosen /\
    (length chosen <= 3)%nat /\
    sublist chosen slots /\
    Forall (fun slot => slot_passes req slot = true) chosen /\
    ((length chosen < 3)%nat ->
     forall slot, In slot slots -> slot_passes req slot = true ->
                  In slot chosen).
Proof.
  intros Hoffered. exists (take 3 (List.filter (slot_passes req) slots)).
  split; [by apply schedule_offers|]. split; [|split; [|split]].
  - rewrite length_take. lia.
  - etrans; [apply sublist_take|apply List_filter_sublist].
  - apply Forall_take, Forall_forall. intros slot Hin.
    apply list_elem_of_In, filter_In in Hin. tauto.
  - rewrite length_take. intros Hlen slot Hin Hpass.
    rewrite take_ge by lia. apply filter_In. tauto.
Qed.

(** When the hours cannot be applied -- [times] holds no window, or the
    zone is an inherited member of the alias table, or the hour of no
    slot can be read in the zone -- nothing is filtered: the answer
    suggests the first three slots of the calendar's reply. *)
Theorem schedule_without_filter env req eventTypeUri slots :
  slots_offered env req eventTypeUri slots ->
  request_window req = None \/
  (exists member, request_zone req = TzInherited member) \/
  (exists zone, request_zone req = TzName zone /\
                forall slot, In slot slots ->
                  local_hour (start_time slot) zone = ProbeThrows \/
                  local_hour (start_time slot) zone = ProbeNaN) ->
  schedule toLowerCase Date_parse local_hour format_instant env req
  = offer req eventTypeUri (take 3 slots).
Proof.
  intros Hoffered Hopen. rewrite (schedule_offers _ _ _ _ Hoffered).
  rewrite List_filter_all; [done|].
  intros slot Hin. unfold slot_passes, slotMatchesWindow.
  destruct Hopen as [->|[[member ->]|(zone & -> & Hprobe)]]; [done| |].
  - by destruct (request_window req).
  - destruct (request_window req); [|done].
    by destruct (Hprobe slot Hin) as [->| ->].
Qed.

(** A window whose end is not after its start admits no hour: when the
    hour of every slot can be read, the answer suggests nothing and
    carries the summary for no matching times. *)
Theorem schedule_reversed_window env req eventTypeUri slots w zone :
  slots_offered env req eventTypeUri slots ->
  request_window req = Some w -> (w_end w <= w_start w)%Z ->
  request_zone req = TzName zone ->
  (forall slot, In slot slots ->
     exists hour, local_hour (start_time slot) zone = ProbeHour hour) ->
  schedule toLowerCase Date_parse local_hour format_instant env req
  = offer req eventTypeUri [].
Proof.
  intros Hoffered Hw Hrev Hzone Hread.
  rewrite (schedule_offers _ _ _ _ Hoffered).
  rewrite filter_none; [done|].
  intros slot Hin. unfold slot_passes, slotMatchesWindow.
  rewrite Hw, Hzone. destruct (Hread slot Hin) as [hour ->].
  apply andb_false_iff.
  destruct (Z.leb_spec (w_start w) hour); [right|by left].
  apply Z.ltb_ge. lia.
Qed.

End ScheduleAnswers.

(** A calendar with one "Intro Call" event type and four open slots, and
    a complete request for it. *)
Definition sample_slots : list Slot :=
  [ {| start_time := js "2023-11-15T14:00:00Z"; end_time := None |};
    {| start_time := js "2023-11-15T15:00:00Z"; end_time := None |};
    {| start_time := js "2023-11-15T16:00:00Z"; end_time := None |};
    {| start_time := js "2023-11-15T17:00:00Z"; end_time := None |} ].

Definition sample_calendar : ScheduleEnv :=
  {| calendlyToken := Some (js "token");
     clock := 1700000000000%Z;
     user_lookup := FetchOk (Some (Some (js "https://api.calendly.com/users/U1")));
     events_lookup :=
       FetchOk (Some (Some [ {| et_name := Some (js "Intro Call");
                                et_uri := Some (js "https://api.calendly.com/event_types/E1") |} ]));
     available_lookup := FetchOk (Some (Some sample_slots)) |}.

Definition sample_request (times : string) : ScheduleRequest :=
  {| sr_name := Some (js "Ada"); sr_email := Some (js "ada@example.com");
     sr_company := None; sr_goals := Some (js "automate intake");
     sr_times := Some (js times); sr_timezone := Some (js "EST");
     sr_startAfter := None |}.

Lemma sample_slots_offered (times : string) :
  truthy (trim (js times)) = true ->
  slots_offered toLowerCase_ascii (fun _ => None) sample_calendar
    (sample_request times) (js "https://api.calendly.com/event_types/E1")
    sample_slots.
Proof.
  intros Htimes.
  exists (js "https://api.calendly.com/users/U1"),
    {| et_name := Some (js "Intro Call");
       et_uri := Some (js "https://api.calendly.com/event_types/E1") |},
    [], 1700000000000%Z, (Some sample_slots).
  split; [by repeat split|].
  split; [done|]. split; [done|]. split; [done|]. split; [done|].
  split; [done|]. split; [vm_compute; discriminate|]. by split.
Qed.

Lemma schedule_suggestions_witness :
  exists chosen,
    schedule toLowerCase_ascii (fun _ => None) (fun _ _ => ProbeHour 10)
             (fun _ _ => None) sample_calendar (sample_request "9-5")
      = offer toLowerCase_ascii (fun _ _ => None) (sample_request "9-5")
              (js "https://api.calendly.com/event_types/E1") chosen /\
    (length chosen <= 3)%nat /\
    sublist chosen sample_slots /\
    Forall (fun slot =>
              slot_passes toLowerCase_ascii (fun _ _ => ProbeHour 10)
                          (sample_request "9-5") slot = true) chosen /\
    ((length chosen < 3)%nat ->
     forall slot, In slot sample_slots ->
       slot_passes toLowerCase_ascii (fun _ _ => ProbeHour 10)
                   (sample_request "9-5") slot = true ->
       In slot chosen).
Proof.
  apply schedule_suggestions. by apply sample_slots_offered.
Defined.

Lemma schedule_without_filter_witness :
  schedule toLowerCase_ascii (fun _ => None) (fun _ _ => ProbeHour 3)
           (fun _ _ => None) sample_calendar (sample_request "any time")
  = offer toLowerCase_ascii (fun _ _ => None) (sample_request "any time")
          (js "https://api.calendly.com/event_types/E1") (take 3 sample_slots).
Proof.
  apply schedule_without_filter.
  - by apply sample_slots_offered.
  - left. vm_compute. reflexivity.
Defined.

Lemma schedule_reversed_window_witness :
  schedule toLowerCase_ascii (fun _ => None) (fun _ _ => ProbeHour 15)
           (fun _ _ => None) sample_calendar (sample_request "14-10")
  = offer toLowerCase_ascii (fun _ _ => None) (sample_request "14-10")
          (js "https://api.calendly.com/event_types/E1") [].
Proof.
  apply (schedule_reversed_window toLowerCase_ascii (fun _ => None)
           (fun _ _ => ProbeHour 15) (fun _ _ => None) sample_calendar
           (sample_request "14-10") _ sample_slots
           {| w_start := 14; w_end := 10 |} (js "America/New_York")).
  - by apply sample_slots_offered.
  - vm_compute. reflexivity.
  - simpl. lia.
  - vm_compute. reflexivity.
  - intros slot _. by exists 15%Z.
Defined.

(** ** Availability broker: the status of every answer *)

(** A required field is missing or blank. *)
Definition blank_field (req : ScheduleRequest) : bool :=
  negb (truthy (trim (str_or_empty (sr_name req))))
  || negb (truthy (trim (str_or_empty (sr_email req))))
  || negb (truthy (trim (str_or_empty (sr_goals req))))
  || negb (truthy (trim (str_or_empty (sr_times req)))).

Section ScheduleStatus.

Variable toLowerCase : jsstring -> jsstring.
Variable Date_parse : jsstring -> option Z.
Variable local_hour : jsstring -> jsstring -> HourProbe.
Variable format_instant : jsstring -> jsstring -> option jsstring.

Local Abbreviation run env req :=
  (schedule toLowerCase Date_parse local_hour format_instant env req).

Lemma schedule_cases env req :
  (exists eventTypeUri slots,
      slots_offered toLowerCase Date_parse env req eventTypeUri slots) \/
  (truthy (str_or_empty (calendlyToken env)) = true /\
   blank_field req = true /\
   run env req = error_response 400 "Missing required fields.") \/
  ((truthy (str_or_empty (calendlyToken env)) = false \/
    blank_field req = false) /\
   (forall eventTypeUri slots,
      ~ slots_offered toLowerCase Date_parse env req eventTypeUri slots) /\
   exists msg, run env req = error_response 500 msg).
Proof.
  assert (Hno :
    (forall userUri first more t0 collection eventTypeUri,
        reaches_event_types env req userUri ->
        events_lookup env = FetchOk (Some (Some (first :: more))) ->
        et_uri (selected_event_type toLowerCase first more) = Some eventTypeUri ->
        truthy eventTypeUri = true ->
        well_formed_utf16 eventTypeUri = true ->
        search_start Date_parse env req = Some t0 ->
        (Z.abs (t0 + WEEK_MS) <= MAX_TIME)%Z ->
        available_lookup env = FetchOk (Some collection) -> False) ->
    forall eventTypeUri slots,
      ~ slots_offered toLowerCase Date_parse env req eventTypeUri slots).
  { intros H uri slots (userUri & first & more & t0 & collection & Hreach
                          & Hev & Hsel & Htr & Hwf & Hst & Hen & Hav & _).
    eapply H; eauto. }
  unfold schedule, blank_field.
  destruct (truthy (str_or_empty (calendlyToken env))) eqn:Htoken;
    cbn [negb].
  2:{ right; right. split; [by left|]. split; [|eauto].
      apply Hno. intros ? ? ? ? ? ? (T & _). congruence. }
  destruct (truthy (trim (str_or_empty (sr_name req)))) eqn:Hname;
    cbn [negb orb]; [|right; left; eauto].
  destruct (truthy (trim (str_or_empty (sr_email req)))) eqn:Hemail;
    cbn [negb orb]; [|right; left; eauto].
  destruct (truthy (trim (str_or_empty (sr_goals req)))) eqn:Hgoals;
    cbn [negb orb]; [|right; left; eauto].
  destruct (truthy (trim (str_or_empty (sr_times req)))) eqn:Htimes;
    cbn [negb orb]; [|right; left; eauto].
  assert (Hthen : forall r : Response,
    (forall eventTypeUri slots,
       ~ slots_offered toLowerCase Date_parse env req eventTypeUri slots) ->
    (exists msg, r = error_response 500 msg) ->
    (exists eventTypeUri slots,
        slots_offered toLowerCase Date_parse env req eventTypeUri slots) \/
    (true = true /\ false = true /\
     r = error_response 400 "Missing required fields.") \/
    ((true = false \/ false = false) /\
     (forall eventTypeUri slots,
        ~ slots_offered toLowerCase Date_parse env req eventTypeUri slots) /\
     exists msg, r = error_response 500 msg)).
  { intros r H1 H2. right; right. split; [by right|]. by split. }
  destruct (user_lookup env) as [| |[[userUri|]|]] eqn:Huser;
    cbn [str_or_empty truthy negb];
    try (apply Hthen; [|by eauto]; apply Hno;
         intros ? ? ? ? ? ? (_ & _ & _ & _ & _ & U & Ur & _); cbn in *;
         congruence).
  destruct (truthy userUri) eqn:Huri; cbn [negb].
  2:{ apply Hthen; [|by eauto]. apply Hno.
      intros ? ? ? ? ? ? (_ & _ & _ & _ & _ & U & Ur & _). congruence. }
  destruct (well_formed_utf16 userUri) eqn:Hwf; cbn [negb].
  2:{ apply Hthen; [|by eauto]. apply Hno.
      intros ? ? ? ? ? ? (_ & _ & _ & _ & _ & U & _ & W). congruence. }
  destruct (events_lookup env) as [| |[[[|first more]|]|]] eqn:Hevents;
    cbn [default from_option id];
    try (apply Hthen; [|by eauto]; apply Hno;
         intros; congruence).
  cbv beta iota zeta. fold (selected_event_type toLowerCase first more).
  destruct (et_uri (selected_event_type toLowerCase first more))
    as [eventTypeUri|] eqn:Hsel;
    cbn [str_or_empty truthy negb].
  2:{ apply Hthen; [|by eauto]. apply Hno. intros. congruence. }
  destruct (truthy eventTypeUri) eqn:Htruthy; cbn [negb].
  2:{ apply Hthen; [|by eauto]. apply Hno. intros. congruence. }
  destruct (well_formed_utf16 eventTypeUri) eqn:Hwf2; cbn [negb].
  2:{ apply Hthen; [|by eauto]. apply Hno. intros. congruence. }
  fold (search_start Date_parse env req).
  destruct (search_start Date_parse env req) as [t0|] eqn:Hstart;
    cbn [option_map time_clip].
  2:{ apply Hthen; [|by eauto]. apply Hno. intros. congruence. }
  destruct (Z.leb_spec (Z.abs (t0 + WEEK_MS)) MAX_TIME) as [Hend|Hbad].
  2:{ apply Hthen; [|by eauto]. apply Hno.
      intros ? ? ? t0' ? ? _ _ _ _ _ Hst Hen _.
      assert (t0' = t0) as -> by congruence. lia. }
  destruct (available_lookup env) as [| |[collection|]] eqn:Havail;
    try (apply Hthen; [|by eauto]; apply Hno; intros; congruence).
  left. exists eventTypeUri, (default [] collection).
  exists userUri, first, more, t0, collection.
  split; [by repeat split|]. by repeat split.
Qed.

(** The endpoint answers 200 exactly when every step before the
    filtering succeeds, 400 exactly when the calendar token is configured
    and a required field is missing or blank, and 500 otherwise; an
    answer other than 200 is an object with the single property
    [error]. *)
Theorem schedule_status env req :
  (status (run env req) = 200%Z <->
   exists eventTypeUri slots,
     slots_offered toLowerCase Date_parse env req eventTypeUri slots) /\
  (status (run env req) = 400%Z <->
   truthy (str_or_empty (calendlyToken env)) = true /\
   blank_field req = true) /\
  (status (run env req) <> 200%Z -> status (run env req) <> 400%Z ->
   status (run env req) = 500%Z) /\
  (status (run env req) <> 200%Z ->
   exists msg, body (run env req) = JObj [(js "error", JStr (js msg))]).
Proof.
  destruct (schedule_cases env req)
    as [(uri & slots & Hoffered)
       |[(Htoken & Hblank & Hrun)|(Hwhy & Hnot & msg & Hrun)]].
  - pose proof (schedule_offers toLowerCase Date_parse local_hour
                  format_instant env req uri slots Hoffered) as Hrun.
    rewrite Hrun. cbn [offer status]. split; [split; eauto|].
    split; [split; [done|]|split; done].
    intros [Htoken Hblank].
    destruct Hoffered as (? & ? & ? & ? & ?
                          & (_ & Hname & Hemail & Hgoals & Htimes & _) & _).
    unfold blank_field in Hblank.
    by rewrite Hname, Hemail, Hgoals, Htimes in Hblank.
  - rewrite Hrun. cbn [error_response status body].
    split; [split; [done|]|]; [|split; [done|split; [done|eauto]]].
    intros (uri & slots & ? & ? & ? & ? & ?
            & (_ & Hname & Hemail & Hgoals & Htimes & _) & _).
    unfold blank_field in Hblank.
    by rewrite Hname, Hemail, Hgoals, Htimes in Hblank.
  - rewrite Hrun. cbn [error_response status body].
    split; [split; [done|]|]; [|split; [split; [done|]|split; [done|eauto]]].
    + intros (uri & slots & Hoffered). by destruct (Hnot uri slots).
    + intros [Htoken Hblank]. destruct Hwhy; congruence.
Qed.

End ScheduleStatus.

(** ** Timezone resolver *)

Section TimezoneProperties.

Variable toLowerCase : jsstring -> jsstring.

Lemma timezoneMap_zone (entry : string * string) :
  In entry timezoneMap ->
  In (snd entry)
     ["America/New_York"; "America/Chicago"; "America/Denver";
      "America/Los_Angeles"]%string.
Proof.
  unfold timezoneMap. simpl.
  intros H. repeat (destruct H as [<-|H]; [simpl; tauto|]). destruct H.
Qed.

Lemma normalizeTimezone_zone (zone : string) :
  lowers_ascii toLowerCase ->
  In zone ["America/New_York"; "America/Chicago"; "America/Denver";
           "America/Los_Angeles"]%string ->
  normalizeTimezone toLowerCase (Some (js zone)) = TzName (js zone).
Proof.
  intros Hlow Hin. simpl in Hin.
  repeat (destruct Hin as [<-|Hin];
          [unfold normalizeTimezone; cbn [str_or_empty];
           rewrite Hlow by (vm_compute; reflexivity);
           vm_compute; reflexivity|]).
  destruct Hin.
Qed.

Lemma normalizeTimezone_cases (input : option jsstring) (zone : jsstring) :
  normalizeTimezone toLowerCase input = TzName zone ->
  truthy zone = true /\
  (zone = str_or_empty input \/
   (truthy (str_or_empty input) = false /\ zone = js "America/Chicago") \/
   exists entry, In entry timezoneMap /\
                 toLowerCase (trim (str_or_empty input)) = js (fst entry) /\
                 zone = js (snd entry)).
Proof.
  unfold normalizeTimezone.
  destruct (truthy (str_or_empty input)) eqn:Hin; cbn [negb].
  - destruct (List.find _ timezoneMap) as [entry|] eqn:Hfind.
    + intros [= <-]. apply find_some in Hfind as [Hentry Hkey].
      apply bool_decide_eq_true_1 in Hkey.
      split; [|right; right; eauto].
      apply timezoneMap_zone in Hentry. simpl in Hentry.
      repeat (destruct Hentry as [<-|Hentry]; [reflexivity|]).
      destruct Hentry.
    + destruct (existsb _ object_prototype_members); [done|].
      intros [= <-]. split; [done|by left].
  - intros [= <-]. split; [reflexivity|]. right. left. done.
Qed.

(** What the resolver returns as a zone name is never the empty string,
    and it is the input itself unless the input is empty or one of the
    eight abbreviations. *)
Theorem normalizeTimezone_name (input : option jsstring) (zone : jsstring) :
  normalizeTimezone toLowerCase input = TzName zone ->
  truthy zone = true /\
  (zone = str_or_empty input \/
   (truthy (str_or_empty input) = false /\ zone = js "America/Chicago") \/
   exists entry, In entry timezoneMap /\
                 toLowerCase (trim (str_or_empty input)) = js (fst entry) /\
                 zone = js (snd entry)).
Proof. apply normalizeTimezone_cases. Qed.

(** Resolving is idempotent on names: a name the resolver returned
    resolves to itself. *)
Theorem normalizeTimezone_idempotent (input : option jsstring)
    (zone : jsstring) :
  lowers_ascii toLowerCase ->
  normalizeTimezone toLowerCase input = TzName zone ->
  normalizeTimezone toLowerCase (Some zone) = TzName zone.
Proof.
  intros Hlow Hres.
  destruct (normalizeTimezone_cases input zone Hres)
    as (Hzone & [->|[[Hempty ->]|(entry & Hentry & _ & ->)]]).
  - destruct input as [s|]; [|done]. exact Hres.
  - apply normalizeTimezone_zone; [done|]. simpl. tauto.
  - apply normalizeTimezone_zone; [done|]. by apply timezoneMap_zone.
Qed.

Lemma ascii_before_lowering (t u : jsstring) :
  toLowerCase_ascii t = u -> forallb is_ascii u = true ->
  forallb is_ascii t = true.
Proof.
  revert u. induction t as [|c t IH]; intros u Hu Hascii; [done|].
  destruct u as [|d u]; [done|]. injection Hu as Hc Ht.
  simpl in Hascii. apply andb_prop in Hascii as [Hd Hrest].
  simpl. rewrite (IH u Ht Hrest), andb_true_r.
  unfold is_ascii, ascii_lower in *.
  destruct ((65 <=? c)%N && (c <=? 90)%N) eqn:E; [|by subst d].
  apply andb_prop in E as [_ E]. apply N.leb_le in E. apply N.ltb_lt. lia.
Qed.

(** The abbreviations are recognised whatever their case and whatever
    white space surrounds them, the white space outside ASCII that
    [trim] strips included: an input whose trimmed text is one of the
    eight abbreviations up to the case of its letters resolves to the
    zone the table gives for it. *)
Theorem normalizeTimezone_abbreviation (s : jsstring) (entry : string * string) :
  lowers_ascii toLowerCase ->
  In entry timezoneMap ->
  toLowerCase_ascii (trim s) = js (fst entry) ->
  normalizeTimezone toLowerCase (Some s) = TzName (js (snd entry)).
Proof.
  intros Hlow Hentry Hkey. unfold normalizeTimezone.
  cbn [str_or_empty].
  assert (Hascii : forallb is_ascii (trim s) = true).
  { apply (ascii_before_lowering _ _ Hkey).
    unfold timezoneMap in Hentry. simpl in Hentry.
    repeat (destruct Hentry as [<-|Hentry]; [vm_compute; reflexivity|]).
    destruct Hentry. }
  rewrite (Hlow (trim s) Hascii). rewrite Hkey.
  unfold timezoneMap in Hentry. simpl in Hentry.
  destruct s as [|c s'].
  - exfalso.
    repeat (destruct Hentry as [<-|Hentry];
            [vm_compute in Hkey; discriminate Hkey|]).
    destruct Hentry.
  - cbn [truthy negb].
    repeat (destruct Hentry as [<-|Hentry]; [vm_compute; reflexivity|]).
    destruct Hentry.
Qed.

End TimezoneProperties.

Lemma normalizeTimezone_name_witness :
  truthy (js "America/New_York") = true /\
  (js "America/New_York" = str_or_empty (Some (js " Est ")) \/
   (truthy (str_or_empty (Some (js " Est "))) = false /\
    js "America/New_York" = js "America/Chicago") \/
   exists entry, In entry timezoneMap /\
                 toLowerCase_ascii (trim (str_or_empty (Some (js " Est "))))
                   = js (fst entry) /\
                 js "America/New_York" = js (snd entry)).
Proof.
  apply (normalizeTimezone_name toLowerCase_ascii (Some (js " Est "))).
  vm_compute. reflexivity.
Defined.

Lemma normalizeTimezone_idempotent_witness :
  normalizeTimezone toLowerCase_ascii (Some (js "Europe/Paris"))
  = TzName (js "Europe/Paris").
Proof.
  apply (normalizeTimezone_idempotent toLowerCase_ascii
           (Some (js "Europe/Paris"))).
  - intros s _. reflexivity.
  - vm_compute. reflexivity.
Defined.

Lemma normalizeTimezone_abbreviation_witness :
  normalizeTimezone toLowerCase_ascii
    (Some ([160%N; 32%N] ++ js "PdT" ++ [9%N; 65279%N]))
  = TzName (js (snd ("pdt", "America/Los_Angeles")%string)).
Proof.
  apply normalizeTimezone_abbreviation.
  - intros s _. reflexivity.
  - unfold timezoneMap. simpl. tauto.
  - vm_compute. reflexivity.
Defined.

(** ** The brace-delimited substring *)

Definition open_brace : N := 123%N.
Definition close_brace : N := 125%N.

Lemma span_all (s : jsstring) : span (fun _ => true) s = length s.
Proof. induction s as [|c t IH]; simpl; [done|]. by rewrite IH. Qed.

Lemma head_flat_map_skip {A B} (f : A -> list B) (l1 l2 : list A) :
  (forall x, In x l1 -> f x = []) ->
  head (flat_map f (l1 ++ l2)) = head (flat_map f l2).
Proof.
  intros H. rewrite flat_map_app. by rewrite (flat_map_all_nil f l1 H).
Qed.

Lemma In_drop {A} (x : A) (n : nat) (l : list A) :
  In x (drop n l) -> In x l.
Proof.
  revert l. induction n as [|n IH]; intros [|a l]; simpl; auto.
Qed.

(** [[\s\S]*\}] reads up to the last closing brace. *)
Lemma head_runs_to_last_brace (mid post : jsstring) :
  ~ In close_brace post ->
  head (runs (Cat (Rep (fun _ => true) 0 None) (Cls (is_char close_brace)))
             (mid ++ close_brace :: post))
  = Some (mid ++ [close_brace], post, []).
Proof.
  intros Hpost. set (t := mid ++ close_brace :: post).
  cbn [runs]. unfold rep_top. rewrite span_all, Nat.sub_0_r.
  assert (Hlen : S (length t) = (S (length mid) + S (length post))%nat).
  { subst t. rewrite length_app. simpl. lia. }
  rewrite Hlen, seq_app, rev_app_distr, map_app.
  rewrite head_flat_map_skip.
  - rewrite seq_S, rev_app_distr. cbn [rev app map flat_map Nat.add].
    subst t. rewrite drop_app_length, take_app_length.
    unfold is_char, close_brace. rewrite N.eqb_refl. reflexivity.
  - intros [[m1 s1] g1] Hin. apply in_map_iff in Hin as (n & [= <- <- <-] & Hn).
    apply in_rev, in_seq in Hn. subst t.
    rewrite drop_app_ge by lia.
    replace (n - length mid)%nat with (S (n - S (length mid))) by lia.
    cbn [drop]. destruct (drop (n - S (length mid)) post) as [|c r] eqn:E;
      [done|].
    destruct (is_char close_brace c) eqn:Hc; [|done].
    apply is_char_eq in Hc as ->. destruct Hpost.
    apply (In_drop _ (n - S (length mid))). rewrite E. by left.
Qed.

Lemma regex_exec_braces (pre mid post : jsstring) :
  ~ In open_brace pre -> ~ In close_brace post ->
  regex_exec braces_re (pre ++ open_brace :: mid ++ close_brace :: post)
  = Some (open_brace :: mid ++ [close_brace], []).
Proof.
  intros Hpre Hpost. induction pre as [|c pre IH].
  - rewrite regex_exec_unfold. cbn [app].
    change (runs braces_re (open_brace :: mid ++ close_brace :: post))
      with (flat_map
              (fun '(m1, s1, g1) =>
                 map (fun '(m2, s2, g2) => (m1 ++ m2, s2, g1 ++ g2))
                     (runs (Cat (Rep (fun _ => true) 0 None)
                                (Cls (is_char close_brace))) s1))
              [([open_brace], mid ++ close_brace :: post, [])]).
    cbn [flat_map]. rewrite app_nil_r, head_map.
    by rewrite (head_runs_to_last_brace mid post Hpost).
  - rewrite regex_exec_unfold. rewrite <- app_comm_cons.
    assert (Hc : is_char open_brace c = false).
    { destruct (is_char open_brace c) eqn:E; [|done].
      apply is_char_eq in E as ->. destruct Hpre. by left. }
    change (runs braces_re (c :: pre ++ open_brace :: mid ++ close_brace :: post))
      with (flat_map
              (fun '(m1, s1, g1) =>
                 map (fun '(m2, s2, g2) => (m1 ++ m2, s2, g1 ++ g2))
                     (runs (Cat (Rep (fun _ => true) 0 None)
                                (Cls (is_char close_brace))) s1))
              (if is_char open_brace c
               then [([c], pre ++ open_brace :: mid ++ close_brace :: post, [])]
               else [])).
    rewrite Hc. cbn [flat_map head]. apply IH. intros H. apply Hpre. by right.
Qed.

Section ModelOutput.

Variable JSON_parse : jsstring -> option json.

(** Text around the object is tolerated: when the whole text does not
    parse, what is parsed instead is the text from its first opening
    brace to its last closing brace. *)
Theorem parse_model_output_between_braces (pre mid post : jsstring) :
  JSON_parse (pre ++ open_brace :: mid ++ close_brace :: post) = None ->
  ~ In open_brace pre -> ~ In close_brace post ->
  parse_model_output JSON_parse
    (pre ++ open_brace :: mid ++ close_brace :: post)
  = JSON_parse (open_brace :: mid ++ [close_brace]).
Proof.
  intros Hparse Hpre Hpost. unfold parse_model_output.
  by rewrite Hparse, (regex_exec_braces pre mid post Hpre Hpost).
Qed.

End ModelOutput.

Lemma parse_model_output_between_braces_witness :
  parse_model_output parse_empty_object
    (js "Here you go: " ++ open_brace :: [] ++ close_brace :: js " Thanks!")
  = parse_empty_object (open_brace :: [] ++ [close_brace]).
Proof.
  apply parse_model_output_between_braces.
  - vm_compute. reflexivity.
  - intros H. vm_compute in H. intuition discriminate.
  - intros H. vm_compute in H. intuition discriminate.
Defined.

(** ** Walkthrough endpoint: what the answer says about delivery *)

(** A [find] reaches an item for which the callback returns true when
    the callback returns true for none of the items before it, unless
    it throws on one of them. *)
Lemma find_outcome_first {A} (f : A -> Outcome bool)
    (pre : list A) (x : A) (post : list A) :
  Forall (fun y => f y <> Returns true) pre -> f x = Returns true ->
  find_outcome f (pre ++ x :: post) = Returns (Some x) \/
  exists error, find_outcome f (pre ++ x :: post) = Throws error.
Proof.
  induction 1 as [|y pre Hy _ IH]; simpl; intros Hx.
  - rewrite Hx. by left.
  - destruct (f y) as [[]|error]; [done| |right; eauto].
    cbn [mbind Outcome_bind]. by apply IH.
Qed.

Lemma dispatch_errors (env : WalkthroughEnv) (userEmail : jsstring) :
  (truthy (fst (fst (dispatch env userEmail))) = false <->
   truthy (str_or_empty (resendApiKey env)) = true /\
   owner_send env = SendOk) /\
  (truthy (snd (fst (dispatch env userEmail))) = false <->
   truthy (str_or_empty (resendApiKey env)) = true /\
   truthy userEmail = true /\ user_send env = SendOk) /\
  (truthy (snd (fst (dispatch env userEmail))) = false ->
   In (EvSend userEmail emailSubject [] (user_token env))
      (snd (dispatch env userEmail))).
Proof.
  unfold dispatch.
  destruct (truthy (str_or_empty (resendApiKey env))); cbn [negb].
  - destruct (owner_send env) as [|m1]; destruct (truthy userEmail);
      try destruct (user_send env) as [|m2]; cbn [fst snd];
      rewrite ?(message_or_truthy m1 "Internal email send failed." eq_refl),
              ?(message_or_truthy m2 "User email send failed." eq_refl);
      cbn [truthy js]; repeat split; try done; try (intros (_ & ?); done);
      try (intros (_ & _ & ?); done); try (intros (_ & ? & _); done);
      intros _; simpl; tauto.
  - cbn [fst snd]. repeat split; try done; intros (? & _); done.
Qed.

Section DeliveryProperties.

Variable toLowerCase : jsstring -> jsstring.
Variable JSON_parse : jsstring -> option json.
Variable Number_toString : float -> jsstring.
Variable TypeError_message : Thrown -> jsstring.

Local Abbreviation serve_walkthrough env answers :=
  (walkthrough toLowerCase JSON_parse Number_toString TypeError_message
               env (Some answers)).

Local Abbreviation fallback_of answers :=
  (report ← buildFallbackReport toLowerCase Number_toString answers;
   Returns (json_of_report report)).

(** A 200 answer names an address under [emailed_to] only when the
    message to that address was sent and the send returned, and says
    [owner_notified] only when the internal send returned; among the
    200 answers this holds whatever object the model produced, since the
    handler writes these properties last. *)
Theorem walkthrough_delivery_fields env answers :
  status (fst (serve_walkthrough env answers)) = 200%Z ->
  exists userEmail emailed notified,
    discover_email toLowerCase Number_toString answers = Returns userEmail /\
    get (js "emailed_to") (body (fst (serve_walkthrough env answers)))
      = Some (JStr emailed) /\
    get (js "owner_notified") (body (fst (serve_walkthrough env answers)))
      = Some (JBool notified) /\
    (truthy emailed = true <->
     truthy (str_or_empty (resendApiKey env)) = true /\
     truthy userEmail = true /\
     user_send env = SendOk) /\
    (truthy emailed = true ->
     emailed = userEmail /\
     In (EvSend emailed emailSubject [] (user_token env))
        (snd (serve_walkthrough env answers))) /\
    (notified = true <->
     truthy (str_or_empty (resendApiKey env)) = true /\
     owner_send env = SendOk).
Proof.
  intros Hstatus.
  assert (Hne : answers <> []) by (intros ->; discriminate Hstatus).
  destruct (walkthrough_cases toLowerCase JSON_parse Number_toString
              TypeError_message env answers Hne)
    as [(userEmail & parsed & texts & Hemail & _ & _ & Hserve)
       |(error & events & Hserve & _)];
    rewrite Hserve in *; [|discriminate Hstatus].
  cbn [fst snd]. unfold delivered. cbn [body get].
  destruct (dispatch_errors env userEmail) as (Howner & Huser & Hsent).
  exists userEmail. eexists _, _. split; [done|]. split; [|split].
  - rewrite !obj_get_set_ne by (intros H; vm_compute in H; discriminate H).
    apply obj_get_set_eq.
  - rewrite !obj_get_set_ne by (intros H; vm_compute in H; discriminate H).
    apply obj_get_set_eq.
  - destruct (truthy (snd (fst (dispatch env userEmail)))) eqn:E.
    + split; [|split; [done|]].
      * split; [done|]. intros H. apply Huser in H. congruence.
      * rewrite negb_true_iff. apply Howner.
    + split; [|split].
      * split; [intros _; by apply Huser|].
        intros H. apply Huser in H. tauto.
      * intros _. split; [done|]. apply in_or_app. right. by apply Hsent.
      * rewrite negb_true_iff. apply Howner.
Qed.

(** The answer keyed "email" is the user's address: the first answer
    whose key is "email" in any case decides, when it is not empty, what
    the discovery returns, whether or not it looks like an address and
    whatever the other answers hold; a 200 answer was preceded by a send
    to it when a mail key is configured. *)
Theorem walkthrough_mails_keyed_answer env pre item post key value address :
  Forall (fun y =>
            forall k,
              String_or Number_toString (read_opt "key" y) "" = Returns k ->
              toLowerCase k <> js "email") pre ->
  String_or Number_toString (read_opt "key" item) "" = Returns key ->
  toLowerCase key = js "email" ->
  read_opt "answer" item = Some value ->
  js_truthy value = true ->
  ToString Number_toString value = Returns address ->
  (forall userEmail,
     discover_email toLowerCase Number_toString (pre ++ item :: post)
       = Returns userEmail ->
     userEmail = trim address) /\
  (Forall (fun y => documented_answer y = true) (pre ++ item :: post) ->
   discover_email toLowerCase Number_toString (pre ++ item :: post)
     = Returns (trim address)) /\
  (status (fst (serve_walkthrough env (pre ++ item :: post))) = 200%Z ->
   truthy (str_or_empty (resendApiKey env)) = true ->
   truthy (trim address) = true ->
   In (EvSend (trim address) emailSubject [] (user_token env))
      (snd (serve_walkthrough env (pre ++ item :: post)))).
Proof.
  intros Hpre Hkey Hemail Hanswer Hvalue Haddress.
  assert (Hdiscover : forall userEmail,
    discover_email toLowerCase Number_toString (pre ++ item :: post)
      = Returns userEmail -> userEmail = trim address).
  { intros userEmail. unfold discover_email.
    assert (Hfirst :
      Forall (fun y =>
                (s ← String_or Number_toString (read_opt "key" y) "";
                 Returns (str_eqb (toLowerCase s) (js "email")))
                <> Returns true) pre).
    { eapply Forall_impl; [exact Hpre|]. intros y Hy. cbv beta in *.
      destruct (String_or Number_toString (read_opt "key" y) "")
        as [k|]; [|done].
      cbn [mbind Outcome_bind]. intros [= Hk].
      apply bool_decide_eq_true_1 in Hk. exact (Hy k eq_refl Hk). }
    destruct (find_outcome_first
                (fun item =>
                   s ← String_or Number_toString (read_opt "key" item) "";
                   Returns (str_eqb (toLowerCase s) (js "email")))
                pre item post Hfirst) as [->|[error ->]].
    - rewrite Hkey. cbn [mbind Outcome_bind]. f_equal.
      by apply bool_decide_eq_true_2.
    - cbn [mbind Outcome_bind].
      repeat match goal with
             | |- context [find_outcome ?f ?l] =>
                 destruct (find_outcome f l); cbn [mbind Outcome_bind];
                 [|discriminate]
             end.
      cbn [mbind Outcome_bind option_bind]. rewrite Hanswer.
      unfold or_value at 1. rewrite Hvalue, Haddress.
      cbn [mbind Outcome_bind]. by intros [= <-].
    - cbn [mbind Outcome_bind]. discriminate. }
  split; [done|]. split.
  - intros Hdoc.
    destruct (discover_email_documented toLowerCase Number_toString
                (pre ++ item :: post) Hdoc) as [userEmail Hu].
    by rewrite Hu, (Hdiscover userEmail Hu).
  - intros Hstatus Hkeyed Htrim.
    destruct (walkthrough_cases toLowerCase JSON_parse Number_toString
                TypeError_message env (pre ++ item :: post))
      as [(userEmail & parsed & texts & Hu & _ & _ & Hserve)
         |(error & events & Hserve & _)];
      [by destruct pre|rewrite Hserve in *..]; [|discriminate Hstatus].
    cbn [snd]. apply Hdiscover in Hu as ->. apply in_or_app. right.
    unfold dispatch. rewrite Hkeyed, Htrim. cbn [negb].
    destruct (owner_send env); destruct (user_send env); cbn [snd];
      apply in_or_app; right; by left.
Qed.

(** A model text that parses to something that is not an object (a
    number, a string, a boolean, null) is put aside: the report is the
    fallback report, which a 200 answer carries; with answers of the
    documented shape the answer is a 200. *)
Theorem walkthrough_non_object_output env answers output v :
  answers <> [] ->
  ai_client env = Some (AiResponds output) ->
  parse_model_output JSON_parse (trim (str_or_empty output)) = Some v ->
  is_object v = false ->
  fst (extract toLowerCase JSON_parse Number_toString (ai_client env) answers)
    = fallback_of answers /\
  (status (fst (serve_walkthrough env answers)) = 200%Z ->
   exists report,
     buildFallbackReport toLowerCase Number_toString answers
       = Returns report /\
     get (js "recommended_services")
         (body (fst (serve_walkthrough env answers)))
     = Some (JArr (map JStr (recommended_services report)))) /\
  (Forall (fun item => documented_answer item = true) answers ->
   status (fst (serve_walkthrough env answers)) = 200%Z).
Proof.
  intros Hne Hclient Hparse Hobj.
  assert (Hextract :
    fst (extract toLowerCase JSON_parse Number_toString (ai_client env) answers)
    = fallback_of answers).
  { unfold extract. rewrite Hclient.
    destruct (negb (truthy (trim (str_or_empty output))));
      cbn [fst]; [apply fallback_is_object|].
    rewrite Hparse. cbn [fst mbind Outcome_bind]. by rewrite Hobj. }
  split; [done|]. split.
  - intros Hstatus.
    destruct (walkthrough_cases toLowerCase JSON_parse Number_toString
                TypeError_message env answers Hne)
      as [(userEmail & parsed & texts & _ & Hparsed & _ & Hserve)
         |(error & events & Hserve & _)];
      rewrite Hserve in *; [|discriminate Hstatus].
    rewrite Hextract in Hparsed.
    destruct (buildFallbackReport toLowerCase Number_toString answers)
      as [report|]; [|done].
    injection Hparsed as <-. exists report. split; [done|]. cbn [fst].
    rewrite get_delivered by (vm_compute; intuition discriminate).
    apply get_services.
  - intros Hdoc.
    destruct (walkthrough_fallback toLowerCase JSON_parse Number_toString
                TypeError_message env answers Hne Hdoc Hextract)
      as (report & userEmail & _ & _ & ->).
    reflexivity.
Qed.

End DeliveryProperties.

Definition sample_mail_env : WalkthroughEnv :=
  {| ai_client := Some (AiResponds (Some (js "42")));
     resendApiKey := Some (js "re_key");
     new_Date := fun _ => 1700000000000%Z;
     owner_send := SendThrows (Some (js "Resend error: 500 down"));
     owner_token := js "0b6c3f0e";
     user_send := SendOk;
     user_token := js "7a1d9c42" |}.

Definition sample_answers : list json :=
  [JObj [(js "key", JStr (js "goal"));
         (js "question", JStr (js "What outcome do you want?"));
         (js "answer", JStr (js "write to bob@example.org"))];
   JObj [(js "key", JStr (js "Email"));
         (js "question", JStr (js "Where can we reach you?"));
         (js "answer", JStr (js " ada at example "))]].

Local Abbreviation sample_walkthrough :=
  (walkthrough toLowerCase_ascii (fun _ => Some JNull) sample_number_text
               sample_error_message sample_mail_env (Some sample_answers)).

Lemma walkthrough_delivery_fields_witness :
  exists userEmail emailed notified,
    discover_email toLowerCase_ascii sample_number_text sample_answers
      = Returns userEmail /\
    get (js "emailed_to") (body (fst sample_walkthrough))
      = Some (JStr emailed) /\
    get (js "owner_notified") (body (fst sample_walkthrough))
      = Some (JBool notified) /\
    (truthy emailed = true <->
     truthy (str_or_empty (resendApiKey sample_mail_env)) = true /\
     truthy userEmail = true /\
     user_send sample_mail_env = SendOk) /\
    (truthy emailed = true ->
     emailed = userEmail /\
     In (EvSend emailed emailSubject [] (user_token sample_mail_env))
        (snd sample_walkthrough)) /\
    (notified = true <->
     truthy (str_or_empty (resendApiKey sample_mail_env)) = true /\
     owner_send sample_mail_env = SendOk).
Proof.
  apply walkthrough_delivery_fields. vm_compute. reflexivity.
Defined.

Lemma walkthrough_mails_keyed_answer_witness :
  discover_email toLowerCase_ascii sample_number_text sample_answers
    = Returns (trim (js " ada at example ")) /\
  In (EvSend (trim (js " ada at example ")) emailSubject []
             (user_token sample_mail_env))
     (snd sample_walkthrough).
Proof.
  destruct (walkthrough_mails_keyed_answer toLowerCase_ascii
              (fun _ => Some JNull) sample_number_text sample_error_message
              sample_mail_env
              [JObj [(js "key", JStr (js "goal"));
                     (js "question", JStr (js "What outcome do you want?"));
                     (js "answer", JStr (js "write to bob@example.org"))]]
              (JObj [(js "key", JStr (js "Email"));
                     (js "question", JStr (js "Where can we reach you?"));
                     (js "answer", JStr (js " ada at example "))])
              [] (js "Email") (JStr (js " ada at example "))
              (js " ada at example "))
    as (_ & Hdiscover & Hsend).
  - repeat constructor. intros k Hk. vm_compute in Hk. injection Hk as <-.
    vm_compute. discriminate.
  - reflexivity.
  - vm_compute. reflexivity.
  - reflexivity.
  - reflexivity.
  - reflexivity.
  - split.
    + apply Hdiscover. repeat constructor.
    + apply Hsend; vm_compute; reflexivity.
Defined.

Lemma walkthrough_non_object_output_witness :
  status (fst sample_walkthrough) = 200%Z /\
  exists report,
    buildFallbackReport toLowerCase_ascii sample_number_text sample_answers
      = Returns report /\
    get (js "recommended_services") (body (fst sample_walkthrough))
    = Some (JArr (map JStr (recommended_services report))).
Proof.
  destruct (walkthrough_non_object_output toLowerCase_ascii
              (fun _ => Some JNull) sample_number_text sample_error_message
              sample_mail_env sample_answers (Some (js "42")) JNull)
    as (_ & Hreport & Hstatus).
  - discriminate.
  - reflexivity.
  - reflexivity.
  - reflexivity.
  - assert (H200 : status (fst sample_walkthrough) = 200%Z)
      by (apply Hstatus; repeat constructor).
    split; [exact H200|]. exact (Hreport H200).
Defined.

(** ** The mail call: a refusal of the provider *)

(** A refusal of the provider reaches the caller word for word: when
    the internal send is refused with a status and a readable body, the
    answer's [owner_email_error] is "Resend error: ", the status and the
    body, and no send of the user's message is affected by it. *)
Theorem provider_refusal_is_reported (env : WalkthroughEnv)
    (userEmail : jsstring) (code : nat) (errorText : jsstring) :
  truthy (str_or_empty (resendApiKey env)) = true ->
  owner_send env = sendResendEmail (MailReplied false code (inl errorText)) ->
  fst (fst (dispatch env userEmail))
    = js "Resend error: " ++ decimal code ++ js " " ++ errorText /\
  sends (snd (dispatch env userEmail))
    = sends (snd (dispatch
                    {| ai_client := ai_client env;
                       resendApiKey := resendApiKey env;
                       new_Date := new_Date env;
                       owner_send := SendOk;
                       owner_token := owner_token env;
                       user_send := user_send env;
                       user_token := user_token env |} userEmail)) /\
  snd (fst (dispatch env userEmail))
    = snd (fst (dispatch
                  {| ai_client := ai_client env;
                     resendApiKey := resendApiKey env;
                     new_Date := new_Date env;
                     owner_send := SendOk;
                     owner_token := owner_token env;
                     user_send := user_send env;
                     user_token := user_token env |} userEmail)).
Proof.
  intros Hkey Howner. unfold dispatch. cbn [resendApiKey owner_send user_send
    new_Date owner_token user_token]. rewrite Hkey, Howner. cbn [negb].
  cbn [sendResendEmail].
  destruct (truthy userEmail); [destruct (user_send env) as [|m]|];
    cbn [fst snd]; (split; [reflexivity|]); split; reflexivity.
Qed.

Lemma provider_refusal_is_reported_witness :
  fst (fst (dispatch
              {| ai_client := None; resendApiKey := Some (js "re_key");
                 new_Date := fun _ => 0%Z;
                 owner_send :=
                   sendResendEmail
                     (MailReplied false 422 (inl (js "domain not verified")));
                 owner_token := []; user_send := SendOk; user_token := [] |}
              (js "ada@example.com")))
  = js "Resend error: " ++ decimal 422 ++ js " " ++ js "domain not verified".
Proof.
  exact (proj1 (provider_refusal_is_reported
    {| ai_client := None; resendApiKey := Some (js "re_key");
       new_Date := fun _ => 0%Z;
       owner_send :=
         sendResendEmail
           (MailReplied false 422 (inl (js "domain not verified")));
       owner_token := []; user_send := SendOk; user_token := [] |}
    (js "ada@example.com") 422 (js "domain not verified") eq_refl eq_refl)).
Defined.

(** ** Booking confirmer: statuses and calls *)

(** A required field of the confirmation is missing or blank. *)
Definition confirm_blank (req : ConfirmRequest) : bool :=
  negb (truthy (trim (str_or_empty (cr_name req))))
  || negb (truthy (trim (str_or_empty (cr_email req))))
  || negb (truthy (trim (str_or_empty (cr_eventTypeUri req))))
  || negb (truthy (trim (str_or_empty (cr_startTime req)))).

(** The event-type lookup is made and does not come back: the [fetch]
    rejects or the body of an ok reply cannot be read. *)
Definition lookup_breaks (env : ConfirmEnv) (req : ConfirmRequest) : bool :=
  truthy (last_segment (trim (str_or_empty (cr_eventTypeUri req))))
  && match location_lookup env with
     | FetchThrows | FetchOk None => true
     | FetchNotOk | FetchOk (Some _) => false
     end.

Definition invitee_calls (calls : list ConfirmCall) : list ConfirmCall :=
  List.filter (fun c => match c with CallInvitee _ => true | _ => false end)
              calls.

Lemma last_segment_after_slash (pre id : jsstring) :
  ~ In slash id -> last_segment (pre ++ slash :: id) = id.
Proof.
  intros Hid. unfold last_segment.
  rewrite rev_app_distr. cbn [rev]. rewrite <- app_assoc. cbn [app].
  assert (Hspan : forall (t r : jsstring),
             ~ In slash t ->
             take (span (fun c => negb (is_char slash c)) (t ++ slash :: r))
                  (t ++ slash :: r) = t).
  { induction t as [|c t IH]; intros r Ht; cbn [app span].
    - unfold is_char. by rewrite N.eqb_refl.
    - destruct (is_char slash c) eqn:E.
      + apply is_char_eq in E as ->. destruct Ht. by left.
      + cbn [negb take]. f_equal. apply IH. intros H. apply Ht. by right. }
  rewrite Hspan; [apply rev_involutive|].
  intros H. apply Hid. by apply in_rev.
Qed.

Section ConfirmProperties.

Variable toLowerCase : jsstring -> jsstring.

Local Abbreviation book env req := (confirm toLowerCase env req).

Ltac confirm_cases env req :=
  unfold confirm, confirm_blank, lookup_breaks, invitee_calls;
  cbn [confirm_token location_lookup invitee_create];
  destruct (truthy (str_or_empty (confirm_token env))) eqn:?Htoken;
    cbn [negb andb orb];
  [destruct (truthy (trim (str_or_empty (cr_name req)))) eqn:?Hname;
     cbn [negb andb orb];
   [destruct (truthy (trim (str_or_empty (cr_email req)))) eqn:?Hemail;
      cbn [negb andb orb];
    [destruct (truthy (trim (str_or_empty (cr_eventTypeUri req)))) eqn:?Huri;
       cbn [negb andb orb];
     [destruct (truthy (trim (str_or_empty (cr_startTime req)))) eqn:?Hstart;
        cbn [negb andb orb];
      [destruct (truthy (last_segment (trim (str_or_empty (cr_eventTypeUri req)))))
         eqn:?Hid;
       [destruct (location_lookup env) as [| |[[[? ?]|]|]] eqn:?Hlookup|];
       cbn [negb andb orb];
       destruct (invitee_create env) as [| |[[? ?]|]] eqn:?Hcreate
      | ] | ] | ] | ] | ].

(** The confirmer answers 200 exactly when the token is configured, no
    required field is blank, the event-type lookup (if made) comes back
    and the invitee creation succeeds with a readable body; 400 exactly
    when the token is configured and a required field is blank; 500
    otherwise.  An answer other than 200 is an object with the single
    property [error]. *)
Theorem confirm_status env req :
  (status (fst (book env req)) = 200%Z <->
   truthy (str_or_empty (confirm_token env)) = true /\
   confirm_blank req = false /\
   lookup_breaks env req = false /\
   exists urls, invitee_create env = FetchOk (Some urls)) /\
  (status (fst (book env req)) = 400%Z <->
   truthy (str_or_empty (confirm_token env)) = true /\
   confirm_blank req = true) /\
  (status (fst (book env req)) <> 200%Z ->
   status (fst (book env req)) <> 400%Z ->
   status (fst (book env req)) = 500%Z) /\
  (status (fst (book env req)) <> 200%Z ->
   exists msg,
     body (fst (book env req)) = JObj [(js "error", JStr (js msg))]).
Proof.
  confirm_cases env req; cbn [fst status body error_response];
    (split; [split; [try done; eauto 6|try (by intros (? & ? & ? & ? & ?))]|]);
    (split; [split; [try done|try (by intros (? & ?))]|]);
    (split; [done|]); try done; eauto.
Qed.

(** Booking is attempted at most once per request, and not at all when
    the token is missing, a required field is blank or the event-type
    lookup does not come back; when it is attempted, the invitee is
    created for the trimmed fields of the request. *)
Theorem confirm_books_once env req :
  (truthy (str_or_empty (confirm_token env)) = false \/
   confirm_blank req = true \/ lookup_breaks env req = true ->
   invitee_calls (snd (book env req)) = []) /\
  (truthy (str_or_empty (confirm_token env)) = true ->
   confirm_blank req = false -> lookup_breaks env req = false ->
   exists payload,
     invitee_calls (snd (book env req)) = [CallInvitee payload] /\
     last (snd (book env req)) = Some (CallInvitee payload) /\
     ip_name payload = trim (str_or_empty (cr_name req)) /\
     ip_email payload = trim (str_or_empty (cr_email req)) /\
     ip_event_type payload = trim (str_or_empty (cr_eventTypeUri req)) /\
     ip_start_time payload = trim (str_or_empty (cr_startTime req)) /\
     ip_timezone payload = normalizeTimezone toLowerCase (cr_timezone req)).
Proof.
  confirm_cases env req; cbn [snd List.filter app];
    (split; [try done; intros [?|[?|?]]; done|]);
    try done; intros _ _ _; eexists; repeat split.
Qed.

(** The booking carries a location only when the event type has one.
    A location in the invitee payload is the one the lookup of the event
    type returned: its kind is the event type's and is not empty, and its
    text is the event type's when that is not empty and is left out
    otherwise.  Conversely a lookup that returns a location with a kind
    puts it into the booking. *)
Theorem confirm_location_copied env req payload :
  In (CallInvitee payload) (snd (book env req)) ->
  (forall lp,
     ip_location payload = Some lp ->
     exists location,
       location_lookup env = FetchOk (Some (Some location)) /\
       In (CallEventType
             (last_segment (trim (str_or_empty (cr_eventTypeUri req)))))
          (snd (book env req)) /\
       loc_kind location = Some (lp_kind lp) /\
       truthy (lp_kind lp) = true /\
       match lp_location lp with
       | Some text => loc_location location = Some text /\ truthy text = true
       | None => truthy (str_or_empty (loc_location location)) = false
       end) /\
  (forall location kind,
     truthy (last_segment (trim (str_or_empty (cr_eventTypeUri req)))) = true ->
     location_lookup env = FetchOk (Some (Some location)) ->
     loc_kind location = Some kind -> truthy kind = true ->
     exists lp, ip_location payload = Some lp /\ lp_kind lp = kind).
Proof.
  unfold confirm.
  destruct (negb (truthy (str_or_empty (confirm_token env)))); [intros []|].
  match goal with
  | |- context [if ?c then (error_response 400 _, _) else _] => destruct c
  end; [intros []|].
  destruct (truthy (last_segment (trim (str_or_empty (cr_eventTypeUri req)))))
    eqn:Hid.
  - destruct (location_lookup env) as [| |[[[kind text]|]|]] eqn:Hlookup;
      cbn [mbind option_bind loc_kind loc_location];
      try destruct kind as [kind|]; try destruct (truthy kind) eqn:Hkind;
      try destruct text as [text|]; try destruct (truthy text) eqn:Htext;
      destruct (invitee_create env) as [| |[[? ?]|]];
      intros Hin; cbn [snd app In] in Hin |- *;
      decompose [or] Hin; try discriminate; try done;
      match goal with
      | H : CallInvitee _ = CallInvitee _ |- _ => injection H as <-
      end; cbn [ip_location];
      (split;
       [intros lp [= <-]; eexists;
        cbn [lp_kind lp_location loc_kind loc_location];
        repeat split; (by left) || done
       |intros location kind0 _ [= <-]; cbn [loc_kind]; intros [= <-] Hk;
        try congruence; eexists; split; reflexivity]).
  - destruct (invitee_create env) as [| |[[? ?]|]];
      intros Hin; cbn [snd app In] in Hin |- *;
      decompose [or] Hin; try discriminate; try done;
      match goal with
      | H : CallInvitee _ = CallInvitee _ |- _ => injection H as <-
      end; cbn [ip_location]; (split; [intros lp [=]|intros ? ? [=]]).
Qed.

(** But a lookup that does not come back ends the request: the answer is
    a 500 and no invitee is created. *)
Theorem confirm_lookup_breaks env req :
  truthy (str_or_empty (confirm_token env)) = true ->
  confirm_blank req = false ->
  lookup_breaks env req = true ->
  book env req =
  (error_response 500 "Schedule confirmation failed.",
   [CallEventType (last_segment (trim (str_or_empty (cr_eventTypeUri req))))]).
Proof.
  confirm_cases env req; try done.
Qed.

(** The event type is looked up by the last path segment of the address
    it was offered under. *)
Theorem confirm_looks_up_last_segment env req pre id :
  truthy (str_or_empty (confirm_token env)) = true ->
  confirm_blank req = false ->
  trim (str_or_empty (cr_eventTypeUri req)) = pre ++ slash :: id ->
  ~ In slash id ->
  match id with
  | [] => forall eventTypeId, ~ In (CallEventType eventTypeId) (snd (book env req))
  | _ :: _ => head (snd (book env req)) = Some (CallEventType id)
  end.
Proof.
  intros Htok Hblank Huri Hid.
  pose proof (last_segment_after_slash pre id Hid) as Hseg.
  rewrite <- Huri in Hseg. revert Htok Hblank Hseg.
  confirm_cases env req; try done; intros _ _ Hseg;
    rewrite Hseg in *; destruct id as [|c id']; try done;
    cbn [snd app]; intros eventTypeId [H|[]]; discriminate H.
Qed.

End ConfirmProperties.

Definition sample_confirm_request : ConfirmRequest :=
  {| cr_name := Some (js "Ada"); cr_email := Some (js "ada@example.com");
     cr_timezone := Some (js "pst");
     cr_eventTypeUri := Some (js "https://api.calendly.com/event_types/E1");
     cr_startTime := Some (js "2023-11-15T16:00:00Z") |}.

Definition sample_confirm_env (lookup : Fetched (option Location)) : ConfirmEnv :=
  {| confirm_token := Some (js "token");
     location_lookup := lookup;
     invitee_create :=
       FetchOk (Some (Some (js "https://calendly.com/reschedulings/R1"),
                      Some (js "https://calendly.com/cancellations/R1"))) |}.

Definition sample_confirm_payload : InviteePayload :=
  {| ip_event_type := js "https://api.calendly.com/event_types/E1";
     ip_start_time := js "2023-11-15T16:00:00Z";
     ip_name := js "Ada"; ip_email := js "ada@example.com";
     ip_timezone := TzName (js "America/Los_Angeles");
     ip_location :=
       Some {| lp_kind := js "zoom"; lp_location := None |} |}.

Lemma confirm_location_copied_witness :
  exists lp, ip_location sample_confirm_payload = Some lp /\
             lp_kind lp = js "zoom".
Proof.
  apply (proj2 (confirm_location_copied toLowerCase_ascii
                  (sample_confirm_env
                     (FetchOk (Some (Some {| loc_kind := Some (js "zoom");
                                             loc_location := Some [] |}))))
                  sample_confirm_request sample_confirm_payload
                  (or_intror (or_introl eq_refl)))
               {| loc_kind := Some (js "zoom"); loc_location := Some [] |});
    reflexivity.
Defined.

Lemma confirm_lookup_breaks_witness :
  confirm toLowerCase_ascii (sample_confirm_env FetchThrows)
          sample_confirm_request
  = (error_response 500 "Schedule confirmation failed.",
     [CallEventType
        (last_segment (trim (str_or_empty (cr_eventTypeUri sample_confirm_request))))]).
Proof.
  apply confirm_lookup_breaks; vm_compute; reflexivity.
Defined.

Lemma confirm_looks_up_last_segment_witness :
  head (snd (confirm toLowerCase_ascii (sample_confirm_env FetchNotOk)
               sample_confirm_request))
  = Some (CallEventType (js "E1")).
Proof.
  apply (confirm_looks_up_last_segment toLowerCase_ascii
           (sample_confirm_env FetchNotOk) sample_confirm_request
           (js "https://api.calendly.com/event_types") (js "E1")).
  - reflexivity.
  - reflexivity.
  - vm_compute. reflexivity.
  - intros H. vm_compute in H. intuition discriminate.
Defined.

Lemma confirm_books_once_witness :
  exists payload,
    invitee_calls (snd (confirm toLowerCase_ascii (sample_confirm_env FetchNotOk)
                          sample_confirm_request))
      = [CallInvitee payload] /\
    last (snd (confirm toLowerCase_ascii (sample_confirm_env FetchNotOk)
                 sample_confirm_request))
      = Some (CallInvitee payload) /\
    ip_name payload = trim (str_or_empty (cr_name sample_confirm_request)) /\
    ip_email payload = trim (str_or_empty (cr_email sample_confirm_request)) /\
    ip_event_type payload
      = trim (str_or_empty (cr_eventTypeUri sample_confirm_request)) /\
    ip_start_time payload
      = trim (str_or_empty (cr_startTime sample_confirm_request)) /\
    ip_timezone payload
      = normalizeTimezone toLowerCase_ascii (cr_timezone sample_confirm_request).
Proof.
  apply (proj2 (confirm_books_once toLowerCase_ascii
                  (sample_confirm_env FetchNotOk) sample_confirm_request));
    vm_compute; reflexivity.
Defined.

(** ** Rate limiter: a window after the first *)

(** The quota renews in full: when the first of a series of checks
    comes after the [resetAt] of the identifier's entry, whatever count
    that entry had reached, the checks that land within the next 60
    seconds are allowed up to the 20th and denied from the 21st on. *)
Theorem rate_limit_renewed_window (ip : jsstring) (t0 : Z) (ts : list Z)
    (store : gmap (list N) RateLimitEntry) (old : RateLimitEntry) :
  store !! ip = Some old -> (t0 > resetAt old)%Z ->
  Forall (fun t => t <= t0 + RATE_LIMIT_WINDOW_MS)%Z ts ->
  length (fst (checks ip (t0 :: ts) store)) = S (length ts) /\
  (forall k d, fst (checks ip (t0 :: ts) store) !! k = Some d ->
               d = bool_decide (20 <= k)%nat) /\
  snd (checks ip (t0 :: ts) store) !! ip =
    Some {| count := Z.of_nat (S (length ts));
            resetAt := t0 + RATE_LIMIT_WINDOW_MS |}.
Proof.
  intros Hold Hlate Hts. split; [apply checks_length|].
  rewrite checks_cons, (rateLimit_expired t0 ip store old Hold Hlate).
  cbn [fst snd].
  pose proof (checks_in_window ip ts
    (<[ip := {| count := 1; resetAt := t0 + RATE_LIMIT_WINDOW_MS |}]> store)
    1 (t0 + RATE_LIMIT_WINDOW_MS) (lookup_insert_eq _ _ _) Hts) as [Hd Hs].
  destruct (checks ip ts _) as [ds st2]. cbn [fst snd] in *. split.
  - intros [|k] d Hk; simpl in Hk.
    + by injection Hk as <-.
    + rewrite (Hd k d Hk). unfold RATE_LIMIT_MAX.
      case_bool_decide; destruct (Z.gtb_spec (1 + Z.of_nat k + 1) 20);
        try done; lia.
  - rewrite Hs. do 2 f_equal. lia.
Qed.

Lemma rate_limit_renewed_window_witness :
  length (fst (checks (js "203.0.113.7") (70000 :: replicate 20 70001)%Z
                 (<[js "203.0.113.7" := {| count := 57; resetAt := 61000 |}]> ∅)))
    = 21%nat /\
  (forall k d,
     fst (checks (js "203.0.113.7") (70000 :: replicate 20 70001)%Z
            (<[js "203.0.113.7" := {| count := 57; resetAt := 61000 |}]> ∅))
       !! k = Some d ->
     d = bool_decide (20 <= k)%nat) /\
  snd (checks (js "203.0.113.7") (70000 :: replicate 20 70001)%Z
         (<[js "203.0.113.7" := {| count := 57; resetAt := 61000 |}]> ∅))
    !! js "203.0.113.7"
  = Some {| count := 21; resetAt := 130000 |}.
Proof.
  apply (rate_limit_renewed_window (js "203.0.113.7") 70000%Z
           (replicate 20 70001%Z) _ {| count := 57; resetAt := 61000 |}).
  - apply lookup_insert_eq.
  - simpl. lia.
  - apply Forall_replicate. unfold RATE_LIMIT_WINDOW_MS. lia.
Defined.

(** ** Fallback report: the list of services *)

Definition fallback_catalogue : list jsstring :=
  map js ["AI Strategy Assessment"; "AI Integration"; "Custom AI Development";
          "AI Training & Enablement"; "Ongoing AI Support"]%string.

Section FallbackOrder.

Variable toLowerCase : jsstring -> jsstring.
Variable Number_toString : float -> jsstring.

(** The recommended services of a report come in the fixed order of the
    catalogue, "AI Strategy Assessment" first, and none of them twice. *)
Theorem fallback_services_in_order (answers : list json) (r : LeadReport) :
  buildFallbackReport toLowerCase Number_toString answers = Returns r ->
  sublist (recommended_services r) fallback_catalogue /\
  head (recommended_services r) = Some (js "AI Strategy Assessment") /\
  NoDup (recommended_services r).
Proof.
  intros Hr.
  destruct (buildFallbackReport_returns toLowerCase Number_toString answers
              r Hr)
    as (f1 & f2 & f3 & f4 & f5 & f6 & f7 & pain & goal & tool
        & _ & _ & _ & _ & _ & _ & _ & _ & _ & _ & _ & ->).
  unfold recommend. cbv zeta.
  destruct (includes pain (js "manual") || includes pain (js "spreadsheet")
            || includes tool (js "crm"));
    destruct (includes goal (js "automate") || includes pain (js "repetitive")
              || includes pain (js "admin"));
    destruct (includes goal (js "training") || includes pain (js "adoption"));
    destruct (includes goal (js "support") || includes pain (js "maintenance"));
    (split;
     [vm_compute;
      repeat first [apply sublist_nil | apply sublist_skip | apply sublist_cons]
     |split; [reflexivity|];
      apply (bool_decide_unpack _); vm_compute; reflexivity]).
Qed.

End FallbackOrder.

Lemma fallback_services_in_order_witness :
  exists report,
    buildFallbackReport toLowerCase_ascii sample_number_text bottleneck_answer
      = Returns report /\
    recommended_services report
      = [js "AI Strategy Assessment"; js "AI Integration"] /\
    sublist (recommended_services report) fallback_catalogue.
Proof.
  destruct (buildFallbackReport toLowerCase_ascii sample_number_text
                                bottleneck_answer)
    as [report|] eqn:Hreport; [|discriminate Hreport].
  exists report. split; [reflexivity|].
  split; [vm_compute in Hreport; by injection Hreport as <-|].
  apply (fallback_services_in_order toLowerCase_ascii sample_number_text
           bottleneck_answer report Hreport).
Defined.

(** ** Walkthrough endpoint: the calls of one request *)

Definition completions (events : list Event) : list Event :=
  List.filter (fun e => match e with EvCompletion => true | _ => false end)
              events.

Section WalkthroughCalls.

Variable toLowerCase : jsstring -> jsstring.
Variable JSON_parse : jsstring -> option json.
Variable Number_toString : float -> jsstring.
Variable TypeError_message : Thrown -> jsstring.

Lemma extract_events client answers :
  let events :=
    snd (extract toLowerCase JSON_parse Number_toString client answers) in
  completions events
    = match client with Some _ => [EvCompletion] | None => [] end /\
  (completions events <> [] -> head events = Some EvCompletion).
Proof.
  unfold extract. destruct client as [[msg|output_text]|]; [done| |done].
  destruct (negb (truthy (trim (str_or_empty output_text)))); [done|].
  by destruct (parse_model_output JSON_parse (trim (str_or_empty output_text))).
Qed.

Lemma dispatch_events env userEmail :
  completions (snd (dispatch env userEmail)) = [] /\
  (length (sends (snd (dispatch env userEmail))) <= 2)%nat.
Proof.
  unfold dispatch.
  destruct (negb (truthy (str_or_empty (resendApiKey env))));
    [simpl; split; [done|lia]|].
  destruct (owner_send env); destruct (truthy userEmail);
    try destruct (user_send env); simpl; split; try done; lia.
Qed.

(** One request makes the completion call at most once: once when a
    client is configured and the email discovery returned, never
    otherwise; a completion call is the first thing the request does to
    the outside world; at most two messages are sent, and none unless
    the answer is a 200; nothing is retried.  A request without answers
    calls nothing. *)
Theorem walkthrough_calls env req_answers :
  let result :=
    walkthrough toLowerCase JSON_parse Number_toString TypeError_message
                env req_answers in
  (default [] req_answers = [] -> snd result = []) /\
  (default [] req_answers <> [] ->
   completions (snd result)
     = match ai_client env,
             discover_email toLowerCase Number_toString
                            (default [] req_answers) with
       | Some _, Returns _ => [EvCompletion]
       | _, _ => []
       end /\
   (completions (snd result) <> [] -> head (snd result) = Some EvCompletion) /\
   (length (sends (snd result)) <= 2)%nat /\
   (status (fst result) <> 200%Z -> sends (snd result) = [])).
Proof.
  intros result. subst result.
  destruct req_answers as [answers|]; [|split; [done|by intros []]].
  change (default [] (Some answers)) with answers.
  split; [by intros ->|]. intros Hne.
  destruct (extract_events (ai_client env) answers) as [Hcompletions Hhead].
  pose proof (extract_sends_nothing toLowerCase JSON_parse Number_toString
                (ai_client env) answers) as Hsends.
  cbv zeta in Hcompletions, Hhead.
  assert (Happ : forall a b, completions (a ++ b) = completions a ++ completions b)
    by (intros a b; apply List.filter_app).
  assert (Hlog : forall events,
    completions (events ++ [EvLog (js "Walkthrough error:")])
      = completions events /\
    sends (events ++ [EvLog (js "Walkthrough error:")]) = sends events).
  { intros events. rewrite Happ, sends_app. simpl. by rewrite !app_nil_r. }
  destruct (walkthrough_cases toLowerCase JSON_parse Number_toString
              TypeError_message env answers Hne)
    as [(userEmail & parsed & texts & -> & _ & _ & ->)
       |(error & events & -> & Hev)].
  - cbn [fst snd]. destruct (dispatch_events env userEmail) as [Hmail Htwo].
    rewrite Happ, sends_app, Hmail, Hsends, app_nil_r. cbn [app].
    split; [by destruct (ai_client env)|]. split; [|split; [done|done]].
    intros Hsome. specialize (Hhead Hsome).
    destruct (snd (extract toLowerCase JSON_parse Number_toString
                           (ai_client env) answers)); [done|exact Hhead].
  - unfold walkthrough_failed. cbn [fst snd status].
    destruct (Hlog events) as [-> ->].
    destruct Hev as [[-> ->]|[-> (userEmail & -> & _)]].
    + cbn. split; [by destruct (ai_client env)|]. split; [done|].
      split; [lia|done].
    + rewrite Hsends. split; [by destruct (ai_client env)|].
      split; [|split; [simpl; lia|done]].
      intros Hsome. specialize (Hhead Hsome).
      destruct (snd (extract toLowerCase JSON_parse Number_toString
                             (ai_client env) answers)); [done|exact Hhead].
Qed.

End WalkthroughCalls.
